(** * Timer tracking and leaderboard core of the task tracker

    A shallow embedding of the timer service (startTimer, completeTimer,
    getActiveTimer, listTaskTimers), of the Mongoose model methods it calls
    (timerSchema.methods.calculateDuration / complete,
    taskSchema.methods.markAsCompleted / startTimer,
    userSchema.methods.updateStats, groupSchema.methods.updateStats), of the
    leaderboard service (generateGroupLeaderboard, generateGlobalLeaderboard)
    and of the websocket handler for 'timer:start'.

    Conventions.
    - An ObjectId is represented by its hexadecimal string, a Date by its
      number of milliseconds since the epoch (an integer).
    - A Mongo collection is the list of its documents in natural (insertion)
      order; [save] of a loaded document replaces the stored document with
      the same [_id].
    - JavaScript numbers are IEEE 754 doubles. Counts, minutes and
      milliseconds are integers far below 2^53, on which the arithmetic of
      doubles is exact: they are [Z]. A fraction is the rational value of
      its double, and every operation that can be inexact rounds its exact
      result to the nearest double with [fl] (ties to even, subnormals
      below 2^-1022; there is no overflow, which takes magnitudes above
      10^308). The quotient [durationMs / 60000] is kept exact: its
      rounding does not change what [Math.round] returns (lemma
      [duration_of_double]). [Math.round x] is [floor (x + 1/2)].
    - A string is its sequence of characters (of one UTF-16 code unit
      each), so [String.length] is the [length] that [maxlength] checks.
    - [save] validates the modified paths. The only validator on a path
      that the code here modifies is [maxlength: 500] on [notes] of a
      Timer.
    - Every asynchronous function is run to completion before the next one
      starts: a request is one atomic step of the monad [M] below, and the
      statements about sequences of requests are about requests served
      one at a time. Requests that overlap at an [await] are outside the
      model, but for the two [startTimer] requests of [Overlap]. An
      exception leaves the store as it was when it was thrown. *)

From Stdlib Require Import ZArith QArith Qround Qpower Lia Lqa.
From stdpp Require Import base option list strings gmap sorting.

Open Scope Z_scope.

Abbreviation Id := string (only parsing).

(** ** JavaScript arithmetic *)

(** [Math.round]: nearest integer, a tie goes towards plus infinity. *)
Definition Math_round (x : Q) : Z := Qfloor (x + (1 # 2))%Q.

(** *** Doubles

    [pow2 e] is 2^e and [ilog2 x] the integer part of the binary logarithm
    of a positive [x]. *)
Definition pow2 (e : Z) : Q := (2 ^ e)%Q.

Definition ilog2 (x : Q) : Z :=
  let l := Z.log2 (Qnum x) - Z.log2 (Zpos (Qden x)) in
  if Qle_bool (pow2 l) x then l else l - 1.

(** The nearest integer, a tie goes to the even one. *)
Definition round_half_even (y : Q) : Z :=
  let f := Qfloor y in
  match (y - inject_Z f ?= 1 # 2)%Q with
  | Lt => f
  | Gt => f + 1
  | Eq => if Z.even f then f else f + 1
  end.

(** The exponent of the last place of the double nearest to a positive
    [x]: 53 significant bits, and the fixed exponent -1074 of the
    subnormal numbers. *)
Definition quantum (x : Q) : Z := Z.max (ilog2 x - 52) (-1074).

Definition fl_pos (x : Q) : Q :=
  (inject_Z (round_half_even (x / pow2 (quantum x))) * pow2 (quantum x))%Q.

(** The double nearest to [x], as a reduced fraction. *)
Definition fl (x : Q) : Q :=
  Qred (match (x ?= 0)%Q with
        | Gt => fl_pos x
        | Lt => - fl_pos (- x)
        | Eq => 0
        end).

(** The operators [+], [-], [*] and [/] on doubles. *)
Definition fadd (a b : Q) : Q := fl (a + b).
Definition fsub (a b : Q) : Q := fl (a - b).
Definition fmul (a b : Q) : Q := fl (a * b).
Definition fdiv (a b : Q) : Q := fl (a / b).

Arguments fl : simpl never.
Arguments fadd : simpl never.
Arguments fsub : simpl never.
Arguments fmul : simpl never.
Arguments fdiv : simpl never.

(** [Math.max] on integers. *)
Definition Math_max (a b : Z) : Z := Z.max a b.

(** [Array.prototype.slice(0, n)] for an integer [n]: a negative [n] counts
    from the end of the array. *)
Definition slice0 {A} (l : list A) (n : Z) : list A :=
  if n <? 0 then take (Z.to_nat (Z.of_nat (length l) + n)) l
  else take (Z.to_nat n) l.

(** ** Documents *)

Inductive Status := pending | in_progress | completed | cancelled.

#[global] Instance Status_eq_dec : EqDecision Status.
Proof. solve_decision. Defined.

Definition Status_toString (s : Status) : string :=
  match s with
  | pending => "pending"
  | in_progress => "in-progress"
  | completed => "completed"
  | cancelled => "cancelled"
  end.

Module Timer.
Record t := mk {
  _id : Id;
  task : Id;
  user : Id;
  group : option Id;
  startTime : Z;
  endTime : option Z;
  duration : Z;
  isActive : bool;
  isCompleted : bool;
  completedOnTime : bool;
  notes : option string
}.
End Timer.

Module Completion.
(** An element of [task.completedBy]. *)
Record t := mk {
  user : Id;
  completedAt : Z;
  timeSpent : Z;
  completedOnTime : bool
}.
End Completion.

Module Task.
Record t := mk {
  _id : Id;
  title : string;
  description : string;
  creator : Id;
  group : option Id;
  assignees : list Id;
  status : Status;
  estimatedTime : Z;
  dueDate : Z;
  completedAt : option Z;
  completedBy : list Completion.t;
  activeTimers : Z;
  totalTimers : Z
}.
End Task.

Module User.
Record t := mk {
  _id : Id;
  firstName : string;
  lastName : string;
  avatar : option string;
  tasksCompleted : Z;
  taskCompletionRate : Q;
  totalTimeSpent : Z;
  lastActive : Z
}.
End User.

Module Group.
Record t := mk {
  _id : Id;
  isPublic : bool;
  leaders : list Id;
  members : list Id;
  completedTasks : Z;
  totalTimeSpent : Z;
  lastActive : Z
}.
End Group.

(** ** The leaderboard rows *)

Module Row.
Record t := mk {
  user_id : Id;
  name : string;
  avatar : option string;
  tasksCompleted : Z;
  totalTime : Z;
  completionRate : Z;
  isLeader : option bool   (* present in group leaderboards only *)
}.
End Row.

(** ** The world the services run in *)

Record Store := mkStore {
  timers : list Timer.t;
  tasks : list Task.t;
  users : list User.t;
  groups : list Group.t
}.

(** What a Redis key holds: a timer id (keys [timer:<user>:<task>]) or a
    serialized leaderboard (keys [leaderboard:global:<timeFrame>]). *)
Inductive CacheVal :=
| VTimerId (timerId : Id)
| VBoard (rows : list Row.t).

Module Redis.
Record entry := mkEntry {
  value : CacheVal;
  expireAt : option Z      (* [None]: the key never expires *)
}.

(** [ready]: [connectToRedis] has run. [outage n] tells whether the [n]th
    command sent to the server is rejected; [sent] counts the commands. *)
Record t := mk {
  ready : bool;
  data : gmap string entry;
  outage : nat → bool;
  sent : nat
}.
End Redis.

Inductive Level := info | error.

Record World := mkWorld {
  store : Store;
  redis : Redis.t;
  logs : list (Level * string);
  clock : nat → Z;           (* the successive readings of the wall clock *)
  tick : nat;
  oids : nat → Id;           (* the successive ObjectIds minted by the driver *)
  minted : nat
}.

(** ** Exceptions *)

Inductive Exn :=
| Error (message : string)          (* [new Error(message)] *)
| TypeError (message : string)      (* a method called on [null] *)
| ValidationError (message : string)  (* thrown by [save] of an invalid document *)
| RedisError.                       (* a rejected Redis command *)

Definition ActiveTimerExists : Exn :=
  Error "You already have an active timer. Complete it before starting a new one.".
Definition NoActiveTimer : Exn := Error "No active timer found".
Definition TaskNotFound : Exn := Error "Task not found".
Definition GroupNotFound : Exn := Error "Group not found".
Definition TaskTerminal (s : Status) : Exn :=
  Error ("Cannot start timer for a " +:+ Status_toString s +:+ " task").
Definition NoAccess : Exn := Error "You do not have permission to work on this task".
Definition NoViewAccess : Exn := Error "You do not have permission to view this task".
Definition RedisNotInitialized : Exn := Error "Redis client not initialized".
Definition DuplicateKey : Exn := Error "E11000 duplicate key error collection".
Definition NotesTooLong : Exn :=
  ValidationError "Timer validation failed: notes: Notes cannot exceed 500 characters".

(** ** The monad of a request: state and exceptions *)

Inductive Res (A : Type) :=
| Ok (a : A)
| Throw (e : Exn).
Arguments Ok {A} a.
Arguments Throw {A} e.

Definition M (A : Type) : Type := World → Res A * World.

#[global] Instance M_ret : MRet M := λ A a w, (Ok a, w).
#[global] Instance M_bind : MBind M := λ A B f m w,
  match m w with
  | (Ok a, w') => f a w'
  | (Throw e, w') => (Throw e, w')
  end.

Definition throw {A} (e : Exn) : M A := λ w, (Throw e, w).

(** [try { m } catch (error) { h error }] *)
Definition try_catch {A} (m : M A) (h : Exn → M A) : M A := λ w,
  match m w with
  | (Ok a, w') => (Ok a, w')
  | (Throw e, w') => h e w'
  end.

Definition get_store : M Store := λ w, (Ok (store w), w).

Definition put_store (s : Store) : M unit := λ w,
  (Ok (), mkWorld s (redis w) (logs w) (clock w) (tick w) (oids w) (minted w)).

(** [new Date()] / [Date.now()] *)
Definition newDate : M Z := λ w,
  (Ok (clock w (tick w)),
   mkWorld (store w) (redis w) (logs w) (clock w) (S (tick w)) (oids w) (minted w)).

(** The [_id] a freshly constructed document receives. *)
Definition newObjectId : M Id := λ w,
  (Ok (oids w (minted w)),
   mkWorld (store w) (redis w) (logs w) (clock w) (tick w) (oids w) (S (minted w))).

Definition logger (l : Level) (msg : string) : M unit := λ w,
  (Ok (), mkWorld (store w) (redis w) (logs w ++ [(l, msg)]) (clock w) (tick w)
            (oids w) (minted w)).

(** ** Mongoose queries *)

(** Replace the stored document that has the [_id] of [d]. *)
Definition replace_doc {A} (key : A → Id) (d : A) (l : list A) : list A :=
  (λ x, if bool_decide (key x = key d) then d else x) <$> l.

Definition Timer_findOne (q : Timer.t → bool) : M (option Timer.t) :=
  s ← get_store; mret (List.find q (timers s)).

Definition Timer_find (q : Timer.t → bool) : M (list Timer.t) :=
  s ← get_store; mret (List.filter q (timers s)).

Definition Timer_findById (id : Id) : M (option Timer.t) :=
  Timer_findOne (λ t, bool_decide (Timer._id t = id)).

(** [save] of a document made by [new Timer(...)]: an insert, which the
    unique index on [_id] rejects when the [_id] is already stored. *)
Definition Timer_insert (d : Timer.t) : M unit :=
  s ← get_store;
  if bool_decide (Timer._id d ∈ Timer._id <$> timers s)
  then throw DuplicateKey
  else put_store (mkStore (timers s ++ [d]) (tasks s) (users s) (groups s)).

(** [save] of a document that was loaded from the collection. *)
Definition Timer_save (d : Timer.t) : M unit :=
  s ← get_store;
  put_store (mkStore (replace_doc Timer._id d (timers s)) (tasks s) (users s) (groups s)).

Definition Task_findById (id : Id) : M (option Task.t) :=
  s ← get_store; mret (List.find (λ t, bool_decide (Task._id t = id)) (tasks s)).

Definition Task_find (q : Task.t → bool) : M (list Task.t) :=
  s ← get_store; mret (List.filter q (tasks s)).

Definition Task_save (d : Task.t) : M unit :=
  s ← get_store;
  put_store (mkStore (timers s) (replace_doc Task._id d (tasks s)) (users s) (groups s)).

Definition User_findById (id : Id) : M (option User.t) :=
  s ← get_store; mret (List.find (λ u, bool_decide (User._id u = id)) (users s)).

Definition User_find (q : User.t → bool) : M (list User.t) :=
  s ← get_store; mret (List.filter q (users s)).

(** The stored users after the statistics of [d] have been written to the
    document with its [_id]. *)
Definition write_stats (d : User.t) (l : list User.t) : list User.t :=
  (λ x, if bool_decide (User._id x = User._id d)
        then User.mk (User._id x) (User.firstName x) (User.lastName x) (User.avatar x)
                     (User.tasksCompleted d) (User.taskCompletionRate d)
                     (User.totalTimeSpent d) (User.lastActive d)
        else x) <$> l.

(** [save] of a User document after [updateStats]. Mongoose sends the
    modified paths only, here the four statistics: what else the stored
    document holds stays, also when the saved copy is an old one (the
    [socket.user] of a connection). The other documents saved below were
    loaded by the request that saves them. *)
Definition User_save_stats (d : User.t) : M unit :=
  s ← get_store;
  put_store (mkStore (timers s) (tasks s) (write_stats d (users s)) (groups s)).

Definition Group_findById (id : Id) : M (option Group.t) :=
  s ← get_store; mret (List.find (λ g, bool_decide (Group._id g = id)) (groups s)).

Definition Group_find (q : Group.t → bool) : M (list Group.t) :=
  s ← get_store; mret (List.filter q (groups s)).

Definition Group_save (d : Group.t) : M unit :=
  s ← get_store;
  put_store (mkStore (timers s) (tasks s) (users s) (replace_doc Group._id d (groups s))).

(** [array.includes(id)] *)
Definition includes (l : list Id) (id : Id) : bool := bool_decide (id ∈ l).

(** ** The Redis client (config/redis.js) *)

Definition getRedisClient : M unit := λ w,
  if Redis.ready (redis w) then (Ok (), w) else (Throw RedisNotInitialized, w).

Definition live (now : Z) (e : Redis.entry) : bool :=
  match Redis.expireAt e with
  | None => true
  | Some t => now <? t
  end.

(** One command sent to the server: rejected during an outage, otherwise run
    on the key space at the current time. *)
Definition redis_command {A} (run : Z → gmap string Redis.entry → A * gmap string Redis.entry)
  : M A := λ w,
  let r := redis w in
  let sent_with d :=
    mkWorld (store w) (Redis.mk (Redis.ready r) d (Redis.outage r) (S (Redis.sent r)))
            (logs w) (clock w) (tick w) (oids w) (minted w) in
  if Redis.outage r (Redis.sent r) then (Throw RedisError, sent_with (Redis.data r))
  else let '(a, d) := run (clock w (tick w)) (Redis.data r) in (Ok a, sent_with d).

(** What [get key] answers at time [now]: an expired key is gone. *)
Definition visible (now : Z) (d : gmap string Redis.entry) (key : string) : option CacheVal :=
  match d !! key with
  | Some e => if live now e then Some (Redis.value e) else None
  | None => None
  end.

Definition redis_get (key : string) : M (option CacheVal) :=
  redis_command (λ now d, (visible now d key, d)).

(** [set(key, value)] and [set(key, value, { EX: seconds })] *)
Definition redis_set (key : string) (v : CacheVal) (EX : option Z) : M unit :=
  redis_command (λ now d,
    ((), <[key := Redis.mkEntry v ((λ s, now + s * 1000) <$> EX)]> d)).

Definition redis_del (key : string) : M unit :=
  redis_command (λ now d, ((), delete key d)).

(** ** models/timer.model.js *)

Module timerSchema.

(** [this.endTime || new Date()]: the clock is read only for a timer that
    has no end time. *)
Definition calculateDuration (this : Timer.t) : M Z :=
  endTime ← match Timer.endTime this with
            | Some e => mret e
            | None => newDate
            end;
  let durationMs := endTime - Timer.startTime this in
  mret (Math_round (inject_Z durationMs / inject_Z (1000 * 60))).

(** Returns the mutated document together with the method's result
    [{ duration, completedOnTime }]. [notes] is assigned unless it is empty,
    and [this.save()] rejects an assigned [notes] of more than 500
    characters; the fields assigned before are then lost with the
    document. *)
Definition complete (this : Timer.t) (notes : string) : M (Timer.t * (Z * bool)) :=
  now ← newDate;
  let ended :=
    Timer.mk (Timer._id this) (Timer.task this) (Timer.user this) (Timer.group this)
             (Timer.startTime this) (Some now) (Timer.duration this) false true
             (Timer.completedOnTime this) (Timer.notes this) in
  duration ← calculateDuration ended;
  let notes' := if bool_decide (notes = "") then Timer.notes this else Some notes in
  task ← Task_findById (Timer.task this);
  let completedOnTime :=
    match task with
    | Some task => bool_decide (now ≤ Task.dueDate task)
    | None => Timer.completedOnTime this
    end in
  let this' :=
    Timer.mk (Timer._id this) (Timer.task this) (Timer.user this) (Timer.group this)
             (Timer.startTime this) (Some now) duration false true
             completedOnTime notes' in
  if bool_decide (500 < String.length notes)%nat then throw NotesTooLong else
  Timer_save this';;
  mret (this', (duration, completedOnTime)).

End timerSchema.

(** ** models/task.model.js *)

Module taskSchema.

(** The field updates of [markAsCompleted] for the clock reading [now]. *)
Definition markAsCompleted_at (now : Z) (this : Task.t) (userId : Id) (timeSpent : Z)
  : Task.t :=
  let completedOnTime := bool_decide (now ≤ Task.dueDate this) in
  let completedBy :=
    Task.completedBy this ++ [Completion.mk userId now timeSpent completedOnTime] in
  let fresh := negb (bool_decide (Task.status this = completed)) in
  Task.mk (Task._id this) (Task.title this) (Task.description this) (Task.creator this)
          (Task.group this) (Task.assignees this)
          (if fresh then completed else Task.status this)
          (Task.estimatedTime this) (Task.dueDate this)
          (if fresh then Some now else Task.completedAt this)
          completedBy
          (Math_max 0 (Task.activeTimers this - 1))
          (Task.totalTimers this).

Definition markAsCompleted (this : Task.t) (userId : Id) (timeSpent : Z)
  : M (Task.t * (Z * bool)) :=
  now ← newDate;
  let this' := markAsCompleted_at now this userId timeSpent in
  Task_save this';;
  mret (this', (timeSpent, bool_decide (now ≤ Task.dueDate this))).

Definition startTimer (this : Task.t) : M Task.t :=
  let this' :=
    Task.mk (Task._id this) (Task.title this) (Task.description this) (Task.creator this)
            (Task.group this) (Task.assignees this) in_progress
            (Task.estimatedTime this) (Task.dueDate this) (Task.completedAt this)
            (Task.completedBy this) (Task.activeTimers this + 1)
            (Task.totalTimers this + 1) in
  Task_save this';;
  mret this'.

(** [task.assignees.push(userId)] *)
Definition push_assignee (this : Task.t) (userId : Id) : Task.t :=
  Task.mk (Task._id this) (Task.title this) (Task.description this) (Task.creator this)
          (Task.group this) (Task.assignees this ++ [userId]) (Task.status this)
          (Task.estimatedTime this) (Task.dueDate this) (Task.completedAt this)
          (Task.completedBy this) (Task.activeTimers this) (Task.totalTimers this).

End taskSchema.

(** ** models/user.model.js and models/group.model.js *)

Module userSchema.

(** The completion rate after one more completion, in doubles;
    [tasksCompleted] is the count after the increment. The count starts at
    zero and only grows, so the divisor is positive. *)
Definition newCompletionRate (rate : Q) (tasksCompleted : Z) (completedOnTime : bool) : Q :=
  fdiv (fadd (fmul rate (fsub (inject_Z tasksCompleted) 1))
             (if completedOnTime then 100 else 0))
       (inject_Z tasksCompleted).

(** The field updates of [updateStats] for the clock reading [now]. *)
Definition updateStats_at (now : Z) (this : User.t) (taskTime : Z) (completedOnTime : bool)
  : User.t :=
  let tasksCompleted := User.tasksCompleted this + 1 in
  let totalTimeSpent := User.totalTimeSpent this + taskTime in
  let rate := newCompletionRate (User.taskCompletionRate this) tasksCompleted completedOnTime in
  User.mk (User._id this) (User.firstName this) (User.lastName this) (User.avatar this)
          tasksCompleted
          (fdiv (inject_Z (Math_round (fmul rate 100))) 100)
          totalTimeSpent now.

Definition updateStats (this : User.t) (taskTime : Z) (completedOnTime : bool) : M User.t :=
  now ← newDate;
  let this' := updateStats_at now this taskTime completedOnTime in
  User_save_stats this';;
  mret this'.

End userSchema.

Module groupSchema.

Definition updateStats (this : Group.t) (taskTime : Z) : M Group.t :=
  now ← newDate;
  let this' :=
    Group.mk (Group._id this) (Group.isPublic this) (Group.leaders this)
             (Group.members this) (Group.completedTasks this + 1)
             (Group.totalTimeSpent this + taskTime) now in
  Group_save this';;
  mret this'.

End groupSchema.

(** ** services/timer.service.js *)

Module View.
(** The task fields selected for a timer view. *)
Record task := mkTask {
  task_id : Id;
  task_title : string;
  task_description : string;
  task_estimatedTime : Z;
  task_dueDate : Z
}.

Record started := mkStarted {
  s_id : Id;
  s_task : task;
  s_startTime : Z;
  s_isActive : bool
}.

Record completed := mkCompleted {
  c_id : Id;
  c_task : Id * string * Status;        (* _id, title, status *)
  c_startTime : Z;
  c_endTime : option Z;
  c_duration : Z;
  c_completedOnTime : bool;
  c_notes : option string;
  c_isActive : bool;
  c_isCompleted : bool
}.

Record active := mkActive {
  a_id : Id;
  a_task : option task;                 (* the populated task, null if it is gone *)
  a_startTime : Z;
  a_duration : Z;
  a_isActive : bool
}.

Record pagination := mkPagination {
  page : Z;
  limit : Z;
  totalItems : Z;
  totalPages : Z;
  hasNextPage : bool;
  hasPrevPage : bool
}.

Definition of_task (t : Task.t) : task :=
  mkTask (Task._id t) (Task.title t) (Task.description t) (Task.estimatedTime t)
         (Task.dueDate t).
End View.

(** The query [{ user: userId, isActive: true }]. *)
Definition active_of (userId : Id) (t : Timer.t) : bool :=
  bool_decide (Timer.user t = userId) && Timer.isActive t.

(** The order of [sort({ startTime: -1 })]. *)
Definition by_startTime_desc (a b : Timer.t) : Prop :=
  Timer.startTime b ≤ Timer.startTime a.

#[global] Instance by_startTime_desc_dec : RelDecision by_startTime_desc.
Proof. intros a b. unfold by_startTime_desc. apply _. Defined.

(** The Redis key of a user's timer on a task. *)
Definition timer_key (userId taskId : Id) : string :=
  "timer:" +:+ userId +:+ ":" +:+ taskId.

Module timerService.

(** The access check shared by [startTimer] and [listTaskTimers]: creator,
    assignee, or member / leader of the task's group. *)
Definition hasAccess (task : Task.t) (userId : Id) : M bool :=
  let isCreator := bool_decide (Task.creator task = userId) in
  let isAssignee := includes (Task.assignees task) userId in
  let hasAccess := isCreator || isAssignee in
  match Task.group task with
  | Some g =>
      if hasAccess then mret hasAccess
      else
        group ← Group_findById g;
        match group with
        | Some group =>
            let isGroupLeader := includes (Group.leaders group) userId in
            let isGroupMember := includes (Group.members group) userId in
            mret (isGroupLeader || isGroupMember)
        | None => mret hasAccess
        end
  | None => mret hasAccess
  end.

Definition startTimer (taskId userId : Id) : M View.started :=
  activeTimer ← Timer_findOne (active_of userId);
  if activeTimer is Some _ then throw ActiveTimerExists else
  task ← Task_findById taskId;
  match task with
  | None => throw TaskNotFound
  | Some task =>
      if bool_decide (Task.status task = completed)
         || bool_decide (Task.status task = cancelled)
      then throw (TaskTerminal (Task.status task)) else
      let isAssignee := includes (Task.assignees task) userId in
      access ← hasAccess task userId;
      if negb access then throw NoAccess else
      now ← newDate;
      oid ← newObjectId;
      let timer :=
        Timer.mk oid taskId userId (Task.group task) now None 0 true false false None in
      Timer_insert timer;;
      task ← taskSchema.startTimer task;
      task ← (if negb isAssignee
              then let task' := taskSchema.push_assignee task userId in
                   Task_save task';; mret task'
              else mret task);
      getRedisClient;;
      redis_set (timer_key userId taskId) (VTimerId (Timer._id timer)) None;;
      logger info ("Timer started: " +:+ Timer._id timer +:+ " for task: "
                   +:+ Task._id task +:+ " by user: " +:+ userId);;
      mret (View.mkStarted (Timer._id timer) (View.of_task task)
                           (Timer.startTime timer) true)
  end.

Definition completeTimer (userId : Id) (notes : string) : M View.completed :=
  timer ← Timer_findOne (active_of userId);
  match timer with
  | None => throw NoActiveTimer
  | Some timer =>
      task ← Task_findById (Timer.task timer);
      match task with
      | None => throw TaskNotFound
      | Some task =>
          '(timer, (duration, completedOnTime)) ← timerSchema.complete timer notes;
          '(task, _) ← taskSchema.markAsCompleted task userId duration;
          user ← User_findById userId;
          match user with
          | None => throw (TypeError "Cannot read properties of null (reading 'updateStats')")
          | Some user =>
              userSchema.updateStats user duration completedOnTime;;
              match Task.group task with
              | Some g =>
                  group ← Group_findById g;
                  match group with
                  | Some group => groupSchema.updateStats group duration;; mret ()
                  | None => mret ()
                  end
              | None => mret ()
              end;;
              getRedisClient;;
              redis_del (timer_key userId (Timer.task timer));;
              logger info ("Timer completed: " +:+ Timer._id timer +:+ " for task: "
                           +:+ Task._id task +:+ " by user: " +:+ userId);;
              mret (View.mkCompleted (Timer._id timer)
                      (Task._id task, Task.title task, Task.status task)
                      (Timer.startTime timer) (Timer.endTime timer)
                      duration completedOnTime (Timer.notes timer) false true)
          end
      end
  end.

Definition getActiveTimer (userId : Id) : M (option View.active) :=
  timer ← Timer_findOne (active_of userId);
  match timer with
  | None => mret None
  | Some timer =>
      task ← Task_findById (Timer.task timer);     (* populate('task', ...) *)
      duration ← timerSchema.calculateDuration timer;
      mret (Some (View.mkActive (Timer._id timer) (View.of_task <$> task)
                                (Timer.startTime timer) duration true))
  end.

(** [page] and [limit] are the integers [parseInt] yields; the route
    validation admits [page >= 1] and [1 <= limit <= 100]. Each call is one
    query sorted on [startTime] alone. MongoDB leaves the order of timers
    with equal [startTime] open and [merge_sort] keeps them in insertion
    order: what is stated of this function holds for every order of the
    ties, or assumes that the start times differ. *)
Definition listTaskTimers (taskId userId : Id) (page limit : Z)
  : M (list Timer.t * View.pagination) :=
  task ← Task_findById taskId;
  match task with
  | None => throw TaskNotFound
  | Some task =>
      access ← hasAccess task userId;
      if negb access then throw NoViewAccess else
      let pageNum := page in
      let limitNum := limit in
      let skip := (pageNum - 1) * limitNum in
      found ← Timer_find (λ t, bool_decide (Timer.task t = taskId));
      let totalTimers := Z.of_nat (length found) in
      let sorted := merge_sort by_startTime_desc found in
      let timers := take (Z.to_nat limitNum) (drop (Z.to_nat skip) sorted) in
      let totalPages := Qceiling (inject_Z totalTimers / inject_Z limitNum) in
      mret (timers,
            View.mkPagination pageNum limitNum totalTimers totalPages
              (bool_decide (pageNum < totalPages)) (bool_decide (pageNum > 1)))
  end.

End timerService.

(** ** websockets/timerHandler.js: the 'timer:start' event *)

Module timerHandler.

(** The acknowledgement passed to the client's callback:
    [{ success, message }] or [{ success, timer }]. *)
Inductive ack :=
| Failure (message : string)
| Started (timerId taskId userId : Id) (startTime : Z)
| Completed (timerId taskId userId : Id) (duration : Z) (completedOnTime : bool).

(** [socketUser] is [socket.user._id], the authenticated user. The whole
    handler body is wrapped in try / catch. *)
Definition timer_start (socketUser : Id) (taskId : Id) : M ack :=
  try_catch
    (task ← Task_findById taskId;
     match task with
     | None => mret (Failure "Task not found")
     | Some task =>
         if bool_decide (Task.status task = completed)
            || bool_decide (Task.status task = cancelled)
         then mret (Failure ("Cannot start timer for a "
                             +:+ Status_toString (Task.status task) +:+ " task"))
         else
           now ← newDate;
           oid ← newObjectId;
           let timer :=
             Timer.mk oid taskId socketUser (Task.group task) now None 0 true false false
                      None in
           Timer_insert timer;;
           task ← taskSchema.startTimer task;
           getRedisClient;;
           redis_set (timer_key socketUser taskId) (VTimerId (Timer._id timer)) None;;
           logger info ("Timer started: " +:+ Timer._id timer +:+ " for task: "
                        +:+ Task._id task +:+ " by user: " +:+ socketUser);;
           mret (Started (Timer._id timer) (Task._id task) socketUser
                         (Timer.startTime timer))
     end)
    (λ _, logger error "Error starting timer:";; mret (Failure "Failed to start timer")).

(** The 'timer:complete' event. [socketUser] is the document [socket.user]
    the socket holds when the event arrives; the handler updates that
    document and saves it. *)
Definition timer_complete (socketUser : User.t) (taskId : Id) (notes : string)
  : M ack :=
  let userId := User._id socketUser in
  try_catch
    (getRedisClient;;
     timerId ← redis_get (timer_key userId taskId);
     match timerId with
     | None => mret (Failure "No active timer found for this task")
     | Some (VBoard _) => throw (Error "Cast to ObjectId failed")
     | Some (VTimerId timerId) =>
         if bool_decide (timerId = "")
         then mret (Failure "No active timer found for this task") else
         timer ← Timer_findById timerId;
         match timer with
         | None => mret (Failure "Timer not found or already completed")
         | Some timer =>
             if negb (Timer.isActive timer)
             then mret (Failure "Timer not found or already completed") else
             '(timer, (duration, completedOnTime)) ← timerSchema.complete timer notes;
             task ← Task_findById taskId;
             match task with
             | None => mret (Failure "Task not found")
             | Some task =>
                 '(task, _) ← taskSchema.markAsCompleted task userId duration;
                 userSchema.updateStats socketUser duration completedOnTime;;
                 match Task.group task with
                 | Some g =>
                     group ← Group_findById g;
                     match group with
                     | Some group => groupSchema.updateStats group duration;; mret ()
                     | None => mret ()
                     end
                 | None => mret ()
                 end;;
                 redis_del (timer_key userId taskId);;
                 logger info ("Timer completed: " +:+ Timer._id timer +:+ " for task: "
                              +:+ Task._id task +:+ " by user: " +:+ userId);;
                 mret (Completed (Timer._id timer) (Task._id task) userId duration
                                 completedOnTime)
             end
         end
     end)
    (λ _, logger error "Error completing timer:";;
          mret (Failure "Failed to complete timer")).

End timerHandler.

(** ** services/leaderboard.service.js *)

Module Stats.
(** An accumulator of [userStats], or one output document of [$group]. *)
Record t := mk {
  tasksCompleted : Z;
  totalTime : Z;
  tasksCompletedOnTime : Z
}.
Definition zero : t := mk 0 0 0.
End Stats.

(** The order of [sort((a, b) => b.tasksCompleted - a.tasksCompleted)]. *)
Definition by_tasksCompleted_desc (a b : Row.t) : Prop :=
  Row.tasksCompleted b ≤ Row.tasksCompleted a.

#[global] Instance by_tasksCompleted_desc_dec : RelDecision by_tasksCompleted_desc.
Proof. intros a b. unfold by_tasksCompleted_desc. apply _. Defined.

(** The order of the pipeline stage [{ $sort: { tasksCompleted: -1 } }]. *)
Definition by_count_desc (a b : Id * Stats.t) : Prop :=
  Stats.tasksCompleted b.2 ≤ Stats.tasksCompleted a.2.

#[global] Instance by_count_desc_dec : RelDecision by_count_desc.
Proof. intros a b. unfold by_count_desc. apply _. Defined.

Module leaderboardService.

Definition day_ms : Z := 24 * 60 * 60 * 1000.

(** [d = new Date(); d.setDate(d.getDate() - days)], in a time zone
    without clock changes inside the window. *)
Definition daysAgo (days : Z) : M Z :=
  now ← newDate; mret (now - days * day_ms).

(** The condition [endTime: { $gte: since }]; a timer whose [endTime] is
    null does not satisfy it. *)
Definition endTime_gte (since : Z) (t : Timer.t) : bool :=
  match Timer.endTime t with
  | Some e => bool_decide (since ≤ e)
  | None => false
  end.

(** One iteration of the loop that fills [userStats]. *)
Definition tally (userStats : gmap string Stats.t) (timer : Timer.t) : gmap string Stats.t :=
  let userId := Timer.user timer in
  let s := default Stats.zero (userStats !! userId) in
  <[userId := Stats.mk (Stats.tasksCompleted s + 1)
                       (Stats.totalTime s + Timer.duration timer)
                       (Stats.tasksCompletedOnTime s
                        + (if Timer.completedOnTime timer then 1 else 0))]> userStats.

Definition completionRate (stats : Stats.t) : Z :=
  if bool_decide (Stats.tasksCompleted stats > 0)
  then Math_round (fmul (fdiv (inject_Z (Stats.tasksCompletedOnTime stats))
                              (inject_Z (Stats.tasksCompleted stats))) 100)
  else 0.

Definition fullName (user : User.t) : string :=
  User.firstName user +:+ " " +:+ User.lastName user.

(** The query of the group leaderboard on the Timer collection. *)
Definition group_match (taskIds userIds : list Id) (timeFilter : Timer.t → bool)
           (t : Timer.t) : bool :=
  includes taskIds (Timer.task t) && includes userIds (Timer.user t)
  && Timer.isCompleted t && timeFilter t.

Definition group_row (group : Group.t) (userStats : gmap string Stats.t) (user : User.t)
  : Row.t :=
  let stats := default Stats.zero (userStats !! User._id user) in
  Row.mk (User._id user) (fullName user) (User.avatar user)
         (Stats.tasksCompleted stats) (Stats.totalTime stats) (completionRate stats)
         (Some (includes (Group.leaders group) (User._id user))).

Definition generateGroupLeaderboard (groupId : Id) (timeFrame : string) : M (list Row.t) :=
  group ← Group_findById groupId;
  match group with
  | None => throw GroupNotFound
  | Some group =>
      let userIds := Group.members group ++ Group.leaders group in
      tasks ← Task_find (λ t, bool_decide (Task.group t = Some groupId));
      let taskIds := Task._id <$> tasks in
      timeFilter ←
        (if bool_decide (timeFrame = "week")
         then since ← daysAgo 7; mret (endTime_gte since)
         else if bool_decide (timeFrame = "month")
         then since ← daysAgo 30; mret (endTime_gte since)
         else mret (λ _ : Timer.t, true));
      timers ← Timer_find (group_match taskIds userIds timeFilter);
      let userStats := foldl tally ∅ timers in
      users ← User_find (λ u, includes userIds (User._id u));
      let leaderboard := group_row group userStats <$> users in
      mret (merge_sort by_tasksCompleted_desc leaderboard)
  end.

(** The [$match] stage of the global pipeline. *)
Definition global_match (publicGroupIds : list Id) (timeFilter : Timer.t → bool)
           (t : Timer.t) : bool :=
  match Timer.group t with
  | Some g => includes publicGroupIds g
  | None => false
  end && Timer.isCompleted t && timeFilter t.

(** [Timer.aggregate(pipeline)]: [$match], [$group] by user, [$sort],
    [$limit]. The server rejects a [$limit] that is not positive. *)
Definition aggregate (publicGroupIds : list Id) (timeFilter : Timer.t → bool) (limit2 : Z)
  : M (list (Id * Stats.t)) :=
  if bool_decide (limit2 ≤ 0) then throw (Error "the limit must be positive") else
  matched ← Timer_find (global_match publicGroupIds timeFilter);
  let grouped := map_to_list (foldl tally ∅ matched) in
  let sorted := merge_sort by_count_desc grouped in
  mret (take (Z.to_nat limit2) sorted).

Definition global_row (userMap : gmap string User.t) (stat : Id * Stats.t) : option Row.t :=
  match userMap !! stat.1 with
  | None => None
  | Some user =>
      Some (Row.mk (User._id user) (fullName user) (User.avatar user)
                   (Stats.tasksCompleted stat.2) (Stats.totalTime stat.2)
                   (completionRate stat.2) None)
  end.

Definition cacheKey (timeFrame : string) : string := "leaderboard:global:" +:+ timeFrame.

(** The first try block: [Some rows] when it returns from the function,
    [None] when control falls through to the computation. A value that is
    not a serialized array makes [JSON.parse(...).slice] throw. *)
Definition read_cache (key : string) (limit : Z) : M (option (list Row.t)) :=
  try_catch
    (cachedLeaderboard ← redis_get key;
     match cachedLeaderboard with
     | None => mret None
     | Some (VBoard rows) => mret (Some (slice0 rows limit))
     | Some (VTimerId s) =>
         if bool_decide (s = "") then mret None
         else throw (TypeError "JSON.parse(...).slice is not a function")
     end)
    (λ _, logger error "Error getting leaderboard from cache:";; mret None).

Definition generateGlobalLeaderboard (timeFrame : string) (limit : Z) : M (list Row.t) :=
  timeFilter ←
    (if bool_decide (timeFrame = "week")
     then since ← daysAgo 7; mret (endTime_gte since)
     else if bool_decide (timeFrame = "month")
     then since ← daysAgo 30; mret (endTime_gte since)
     else if bool_decide (timeFrame = "year")
     then since ← daysAgo 365; mret (endTime_gte since)
     else mret (λ _ : Timer.t, true));
  getRedisClient;;
  let cacheKey := cacheKey timeFrame in
  cached ← read_cache cacheKey limit;
  match cached with
  | Some rows => mret rows
  | None =>
      publicGroups ← Group_find Group.isPublic;
      let publicGroupIds := Group._id <$> publicGroups in
      timerStats ← aggregate publicGroupIds timeFilter (limit * 2);
      let userIds := fst <$> timerStats in
      users ← User_find (λ u, includes userIds (User._id u));
      let userMap := foldl (λ m user, <[User._id user := user]> m) ∅ users in
      let leaderboard := omap (global_row userMap) timerStats in
      try_catch
        (redis_set cacheKey (VBoard leaderboard) (Some (60 * 60)))
        (λ _, logger error "Error caching leaderboard:");;
      mret (slice0 leaderboard limit)
  end.

End leaderboardService.

(** ** The entry points that write the Timer collection *)

(** The timer routes and the socket events. No other code of the repository
    creates, saves or deletes a Timer document. *)
Inductive Request :=
| StartTimer (taskId userId : Id)
| CompleteTimer (userId : Id) (notes : string)
| GetActiveTimer (userId : Id)
| ListTaskTimers (taskId userId : Id) (page limit : Z)
| SocketTimerStart (socketUser taskId : Id)
| SocketTimerComplete (socketUser : User.t) (taskId : Id) (notes : string).

(** The world a request leaves behind, whether it returns or throws. The
    request runs alone, from its first step to its last. *)
Definition exec (r : Request) (w : World) : World :=
  match r with
  | StartTimer taskId userId => (timerService.startTimer taskId userId w).2
  | CompleteTimer userId notes => (timerService.completeTimer userId notes w).2
  | GetActiveTimer userId => (timerService.getActiveTimer userId w).2
  | ListTaskTimers taskId userId page limit =>
      (timerService.listTaskTimers taskId userId page limit w).2
  | SocketTimerStart socketUser taskId => (timerHandler.timer_start socketUser taskId w).2
  | SocketTimerComplete socketUser taskId notes =>
      (timerHandler.timer_complete socketUser taskId notes w).2
  end.

(** Requests served one at a time, each to its end before the next one
    starts. *)
Definition exec_all (rs : list Request) (w : World) : World :=
  foldl (λ w r, exec r w) w rs.

(** The requests served by timer.service.js. *)
Definition is_service (r : Request) : bool :=
  match r with
  | StartTimer _ _ | CompleteTimer _ _ | GetActiveTimer _ | ListTaskTimers _ _ _ _ => true
  | SocketTimerStart _ _ | SocketTimerComplete _ _ _ => false
  end.

(** The active timers of a user. *)
Definition activeTimers (userId : Id) (w : World) : list Timer.t :=
  List.filter (active_of userId) (timers (store w)).

(** At most one active timer per user. *)
Definition AtMostOneActive (w : World) : Prop :=
  ∀ userId, (length (activeTimers userId w) ≤ 1)%nat.

(** The unique index on [_id] of the Timer collection. *)
Definition UniqueTimerIds (w : World) : Prop :=
  NoDup (Timer._id <$> timers (store w)).

(** How one request may change the Timer collection: not at all, by
    inserting a new active timer, or by saving the completed version of a
    stored active timer. [guarded] records that an insertion happens only
    when the user has no active timer. *)
Inductive TimerWrite (guarded : bool) (l : list Timer.t) : list Timer.t → Prop :=
| tw_none : TimerWrite guarded l l
| tw_insert (t : Timer.t) :
    Timer._id t ∉ (Timer._id <$> l) →
    Timer.isActive t = true →
    (guarded = true → List.find (active_of (Timer.user t)) l = None) →
    TimerWrite guarded l (l ++ [t])
| tw_complete (t0 d : Timer.t) :
    t0 ∈ l → Timer.isActive t0 = true →
    Timer._id d = Timer._id t0 → Timer.isActive d = false →
    TimerWrite guarded l (replace_doc Timer._id d l).

(** Steps that leave the Timer collection alone. *)
Definition keeps_timers {A} (m : M A) : Prop :=
  ∀ w, timers (store (m w).2) = timers (store w).

(** The same world with a Redis server that rejects nothing. *)
Definition heal (w : World) : World :=
  mkWorld (store w)
          (Redis.mk (Redis.ready (redis w)) (Redis.data (redis w)) (λ _, false)
                    (Redis.sent (redis w)))
          (logs w) (clock w) (tick w) (oids w) (minted w).

(** The same world with another Redis client. *)
Definition with_redis (r : Redis.t) (w : World) : World :=
  mkWorld (store w) r (logs w) (clock w) (tick w) (oids w) (minted w).

(** ** Derived notions used in the statements *)

Import leaderboardService.

(** Steps that neither talk to Redis nor log. *)
Definition quiet {A} (m : M A) : Prop :=
  ∀ w, redis (m w).2 = redis w ∧ logs (m w).2 = logs w
       ∧ m (heal w) = ((m w).1, heal (m w).2).

(** A run that would succeed with a healthy Redis throws the Redis error
    when the next command is rejected, after the same store updates. *)
Definition aborts_on_outage {A} (m : M A) : Prop :=
  ∀ w, Redis.outage (redis w) (Redis.sent (redis w)) = true →
  ∀ v wh, m (heal w) = (Ok v, wh) →
  ∃ w', m w = (Throw RedisError, w')
        ∧ store w' = store wh
        ∧ Redis.data (redis w') = Redis.data (redis w)
        ∧ logs w' = logs w.

(** The [$gte] bound of a time frame at clock reading [now]. *)
Definition global_since (timeFrame : string) (now : Z) : option Z :=
  if bool_decide (timeFrame = "week") then Some (now - 7 * day_ms)
  else if bool_decide (timeFrame = "month") then Some (now - 30 * day_ms)
  else if bool_decide (timeFrame = "year") then Some (now - 365 * day_ms)
  else None.

Definition filter_since (since : option Z) : Timer.t → bool :=
  match since with
  | Some s => endTime_gte s
  | None => λ _, true
  end.

(** The rows [generateGlobalLeaderboard] computes from the store on a cache
    miss, before the final [slice]. *)
Definition global_board (s : Store) (timeFrame : string) (now limit : Z) : list Row.t :=
  let publicGroupIds := Group._id <$> List.filter Group.isPublic (groups s) in
  let matched :=
    List.filter (global_match publicGroupIds (filter_since (global_since timeFrame now)))
                (timers s) in
  let timerStats :=
    take (Z.to_nat (limit * 2))
         (merge_sort by_count_desc (map_to_list (foldl tally ∅ matched))) in
  let found := List.filter (λ u, includes (fst <$> timerStats) (User._id u)) (users s) in
  let userMap := foldl (λ m user, <[User._id user := user]> m) ∅ found in
  omap (global_row userMap) timerStats.

(** The clock ticks the computation of the time filter takes. *)
Definition filter_ticks (timeFrame : string) : nat :=
  if global_since timeFrame 0 is Some _ then 1%nat else 0%nat.

(** The [$gte] bound of the group leaderboard, which knows no 'year'. *)
Definition group_since (timeFrame : string) (now : Z) : option Z :=
  if bool_decide (timeFrame = "week") then Some (now - 7 * day_ms)
  else if bool_decide (timeFrame = "month") then Some (now - 30 * day_ms)
  else None.

(** The completed timers a group leaderboard counts: those of the group's
    members and leaders on the group's tasks, inside the time window. *)
Definition group_timers (s : Store) (group : Group.t) (groupId : Id) (since : option Z)
  : list Timer.t :=
  let userIds := Group.members group ++ Group.leaders group in
  let taskIds :=
    Task._id <$> List.filter (λ t, bool_decide (Task.group t = Some groupId)) (tasks s) in
  List.filter (group_match taskIds userIds (filter_since since)) (timers s).

(** The completed timers the global leaderboard counts. *)
Definition global_timers (s : Store) (since : option Z) : list Timer.t :=
  let publicGroupIds := Group._id <$> List.filter Group.isPublic (groups s) in
  List.filter (global_match publicGroupIds (filter_since since)) (timers s).

(** ** A small installation, used to run the model *)

Module Demo.

Definition task1 : Task.t :=
  Task.mk "t1" "Write report" "" "u0" (Some "g1") [] pending 30 5000000 None [] 0 0.
Definition task2 : Task.t :=
  Task.mk "t2" "Review" "" "u0" (Some "g1") [] pending 15 5000000 None [] 0 0.
Definition user1 : User.t := User.mk "u1" "Ada" "Lovelace" None 0 0 0 0.
Definition user2 : User.t := User.mk "u2" "Bob" "Stone" None 0 0 0 0.
Definition group1 : Group.t := Group.mk "g1" true ["u0"] ["u1"; "u2"] 0 0 0.

(** The clock advances by ten minutes between two readings. *)
Definition clock (n : nat) : Z := Z.of_nat n * 600000 + 1000000.
(** The ids the driver mints: "timer0", "timer1", ... *)
Definition oids (n : nat) : Id := "timer" +:+ String (Ascii.ascii_of_nat (48 + n)) "".

Definition store0 : Store := mkStore [] [task1; task2] [user1; user2] [group1].

Definition world (outage : nat → bool) : World :=
  mkWorld store0 (Redis.mk true ∅ outage 0) [] clock 0 oids 0.

(** Redis answers every command. *)
Definition w0 : World := world (λ _, false).
(** Redis rejects every command. *)
Definition w_down : World := world (λ _, true).
(** Redis rejects the second command only. *)
Definition w_flaky : World := world (λ n, bool_decide (n = 1%nat)).

(** An active timer of [u1] on [t1], started at time zero. *)
Definition running : Timer.t :=
  Timer.mk "timer0" "t1" "u1" (Some "g1") 0 None 0 true false false None.

Definition w_running : World :=
  mkWorld (mkStore [running] [task1; task2] [user1; user2] [group1])
          (Redis.mk true ∅ (λ _, false) 0) [] clock 0 oids 1.

Definition w_running_down : World :=
  mkWorld (mkStore [running] [task1; task2] [user1; user2] [group1])
          (Redis.mk true ∅ (λ _, true) 0) [] clock 0 oids 1.

Definition row1 : Row.t := Row.mk "u1" "Ada Lovelace" None 3 45 67 None.
Definition row2 : Row.t := Row.mk "u2" "Bob Stone" None 1 20 100 None.

(** A world whose cache holds a global leaderboard for the month. *)
Definition w_cached : World :=
  mkWorld store0
          (Redis.mk true
             {[ "leaderboard:global:month" :=
                  Redis.mkEntry (VBoard [row1; row2]) (Some 4600000) ]}
             (λ _, false) 0)
          [] clock 0 oids 0.

End Demo.
(** ** Further notions used in the statements *)

(** The outcome of the access check of the timer service on a store. *)
Definition may_access (s : Store) (task : Task.t) (userId : Id) : bool :=
  bool_decide (Task.creator task = userId) || includes (Task.assignees task) userId
  || match Task.group task with
     | Some g =>
         match List.find (λ x, bool_decide (Group._id x = g)) (groups s) with
         | Some group =>
             includes (Group.leaders group) userId || includes (Group.members group) userId
         | None => false
         end
     | None => false
     end.

(** The task document [startTimer] leaves in the store. *)
Definition started_task (task : Task.t) (userId : Id) : Task.t :=
  Task.mk (Task._id task) (Task.title task) (Task.description task) (Task.creator task)
          (Task.group task)
          (if includes (Task.assignees task) userId then Task.assignees task
           else Task.assignees task ++ [userId])
          in_progress (Task.estimatedTime task) (Task.dueDate task) (Task.completedAt task)
          (Task.completedBy task) (Task.activeTimers task + 1) (Task.totalTimers task + 1).

(** The errors the timer service raises on purpose. *)
Definition start_rejection (e : Exn) : Prop :=
  e = ActiveTimerExists ∨ e = TaskNotFound ∨ (∃ s, e = TaskTerminal s) ∨ e = NoAccess.

(** The errors that come from the infrastructure. *)
Definition redis_failure (e : Exn) : Prop :=
  e = RedisNotInitialized ∨ e = RedisError.

(** ** Further scenarios *)

Module Scenario.

(** The active timer of [u1] with no User document for [u1]. *)
Definition w_no_user : World :=
  mkWorld (mkStore [Demo.running] [Demo.task1; Demo.task2] [Demo.user2] [Demo.group1])
          (Redis.mk true ∅ (λ _, false) 0) [] Demo.clock 0 Demo.oids 1.

(** The active timer of [u1] on a task that is no longer stored. *)
Definition w_orphan : World :=
  mkWorld (mkStore [Demo.running] [Demo.task2] [Demo.user1; Demo.user2] [Demo.group1])
          (Redis.mk true ∅ (λ _, false) 0) [] Demo.clock 0 Demo.oids 1.

(** A clock that is read five times, ten minutes apart, and then, a week
    after the first reading, every twenty minutes. *)
Definition clock_week (n : nat) : Z :=
  if (n <? 5)%nat then Z.of_nat n * 600000 + 1000000
  else Z.of_nat n * 1200000 + 599800000.

Definition w_week : World :=
  mkWorld Demo.store0 (Redis.mk true ∅ (λ _, false) 0) [] clock_week 0 Demo.oids 0.



End Scenario.

(** The exact change one request makes to the Timer collection. *)
Inductive TimerStep (l : list Timer.t) : list Timer.t → Prop :=
| ts_none : TimerStep l l
| ts_start (oid task user : Id) (group : option Id) (now : Z) :
    oid ∉ (Timer._id <$> l) →
    TimerStep l (l ++ [Timer.mk oid task user group now None 0 true false false None])
| ts_complete (t0 : Timer.t) (now : Z) (c : bool) (notes : option string) :
    t0 ∈ l → Timer.isActive t0 = true →
    TimerStep l
      (replace_doc Timer._id
         (Timer.mk (Timer._id t0) (Timer.task t0) (Timer.user t0) (Timer.group t0)
                   (Timer.startTime t0) (Some now)
                   (Math_round (inject_Z (now - Timer.startTime t0) / inject_Z (1000 * 60)))
                   false true c notes) l).

(** A stored timer is either active, with no end time and duration zero, or
    completed, with an end time and the duration rounded from it. *)
Definition timer_ok (t : Timer.t) : Prop :=
  if Timer.isActive t
  then Timer.isCompleted t = false ∧ Timer.endTime t = None ∧ Timer.duration t = 0
  else Timer.isCompleted t = true
       ∧ ∃ e, Timer.endTime t = Some e
              ∧ Timer.duration t
                = Math_round (inject_Z (e - Timer.startTime t) / inject_Z 60000).

(** The fields of a timer that are fixed when it is created. *)
Definition same_origin (t t' : Timer.t) : Prop :=
  Timer._id t' = Timer._id t ∧ Timer.task t' = Timer.task t ∧ Timer.user t' = Timer.user t
  ∧ Timer.group t' = Timer.group t ∧ Timer.startTime t' = Timer.startTime t.

(** ** models/timer.model.js: getStatusData *)

Module timerStatus.

Record t := mk {
  _id : Id;
  taskId : Id;
  userId : Id;
  startTime : Z;
  isActive : bool;
  isCompleted : bool;
  duration : Z
}.

Definition getStatusData (this : Timer.t) : M t :=
  duration ← timerSchema.calculateDuration this;
  mret (mk (Timer._id this) (Timer.task this) (Timer.user this) (Timer.startTime this)
           (Timer.isActive this) (Timer.isCompleted this) duration).

End timerStatus.

(** The number of active timers on a task. *)
Definition active_on (taskId : Id) (l : list Timer.t) : nat :=
  length (List.filter (λ t, bool_decide (Timer.task t = taskId) && Timer.isActive t) l).

(** Every task's [activeTimers] counter is the number of its active timers. *)
Definition counters_ok (w : World) : Prop :=
  ∀ task, task ∈ tasks (store w) →
    Task.activeTimers task = Z.of_nat (active_on (Task._id task) (timers (store w))).

(** ** models/group.model.js: generateLeaderboard, and its caller in
    services/group.service.js *)

Definition NoGroupViewAccess : Exn := Error "You do not have permission to view this group".

Module groupModel.

(** [this.generateLeaderboard()]: the leaderboard over all completed timers
    of the group's members and leaders on the group's tasks. *)
Definition generateLeaderboard (this : Group.t) : M (list Row.t) :=
  let userIds := Group.members this ++ Group.leaders this in
  tasks ← Task_find (λ t, bool_decide (Task.group t = Some (Group._id this)));
  let taskIds := Task._id <$> tasks in
  timers ← Timer_find (λ t, includes taskIds (Timer.task t) && includes userIds (Timer.user t)
                            && Timer.isCompleted t);
  let userStats := foldl tally ∅ timers in
  users ← User_find (λ u, includes userIds (User._id u));
  let leaderboard :=
    (λ user,
       let stats := default Stats.zero (userStats !! User._id user) in
       let completionRate :=
         if bool_decide (Stats.tasksCompleted stats > 0)
         then Math_round (fmul (fdiv (inject_Z (Stats.tasksCompletedOnTime stats))
                                     (inject_Z (Stats.tasksCompleted stats))) 100)
         else 0 in
       Row.mk (User._id user) (User.firstName user +:+ " " +:+ User.lastName user)
              (User.avatar user) (Stats.tasksCompleted stats) (Stats.totalTime stats)
              completionRate (Some (includes (Group.leaders this) (User._id user))))
    <$> users in
  mret (merge_sort by_tasksCompleted_desc leaderboard).

End groupModel.

Module groupService.

Definition getLeaderboard (groupId userId : Id) : M (list Row.t) :=
  group ← Group_findById groupId;
  match group with
  | None => throw GroupNotFound
  | Some group =>
      let isLeader := includes (Group.leaders group) userId in
      let isMember := includes (Group.members group) userId in
      if negb isLeader && negb isMember && negb (Group.isPublic group)
      then throw NoGroupViewAccess
      else groupModel.generateLeaderboard group
  end.

End groupService.

(** The timers of one user in a list, and their total duration. *)
Definition timers_of (userId : Id) (l : list Timer.t) : list Timer.t :=
  List.filter (λ t, bool_decide (Timer.user t = userId)) l.

Definition sum_durations (l : list Timer.t) : Z :=
  foldr (λ t acc, Timer.duration t + acc) 0 l.

Definition count_on_time (l : list Timer.t) : Z :=
  Z.of_nat (length (List.filter Timer.completedOnTime l)).

(** The timers of a task in the order [listTaskTimers] pages through:
    [Timer.find({ task }).sort({ startTime: -1 })]. *)
Definition task_timers (s : Store) (taskId : Id) : list Timer.t :=
  merge_sort by_startTime_desc
    (List.filter (λ t, bool_decide (Timer.task t = taskId)) (timers s)).

(** What a query [Timer.find({ task }).sort({ startTime: -1 })] may return:
    the timers of the task in an order that is sorted by start time, newest
    first. The database leaves the order of equal start times open. *)
Definition sorted_query (s : Store) (taskId : Id) (l : list Timer.t) : Prop :=
  l ≡ₚ List.filter (λ t, bool_decide (Timer.task t = taskId)) (timers s)
  ∧ StronglySorted by_startTime_desc l.

(** The timers [listTaskTimers] returns for a page, [[]] when it throws. *)
Definition page_of (taskId userId : Id) (limit : Z) (w : World) (page : nat) : list Timer.t :=
  match timerService.listTaskTimers taskId userId (Z.of_nat page) limit w with
  | (Ok (ts, _), _) => ts
  | (Throw _, _) => []
  end.

(** The task document [task.startTimer()] saves: both counters incremented
    and the status set to 'in-progress'. *)
Definition counted_task (task : Task.t) : Task.t :=
  Task.mk (Task._id task) (Task.title task) (Task.description task) (Task.creator task)
          (Task.group task) (Task.assignees task) in_progress (Task.estimatedTime task)
          (Task.dueDate task) (Task.completedAt task) (Task.completedBy task)
          (Task.activeTimers task + 1) (Task.totalTimers task + 1).

(** A user's statistics are in range: a count that is not negative and a
    completion rate between 0 and 100. *)
Definition stats_in_range (u : User.t) : Prop :=
  0 ≤ User.tasksCompleted u
  ∧ (0 <= User.taskCompletionRate u ∧ User.taskCompletionRate u <= 100)%Q.

Definition users_in_range (w : World) : Prop :=
  ∀ u, u ∈ users (store w) → stats_in_range u.

(** ** websockets/timerHandler.js: the 'timer:get:active' event *)

Module timerHandler_active.

(** The acknowledgement of 'timer:get:active': [{ success: false, message }]
    or [{ success: true, timer }], where [timer] may be [null]. *)
Inductive ack :=
| Failure (message : string)
| Active (timer : option View.active).

Definition timer_get_active (socketUser : Id) : M ack :=
  try_catch
    (timer ← Timer_findOne (active_of socketUser);
     match timer with
     | None => mret (Active None)
     | Some timer =>
         task ← Task_findById (Timer.task timer);     (* populate('task', ...) *)
         duration ← timerSchema.calculateDuration timer;
         mret (Active (Some (View.mkActive (Timer._id timer) (View.of_task <$> task)
                                           (Timer.startTime timer) duration true)))
     end)
    (λ _, logger error "Error getting active timer:";;
          mret (Failure "Failed to get active timer")).

End timerHandler_active.

(** ** services/task.service.js: deleteTask *)

Definition NoDeletePermission : Exn :=
  Error "You do not have permission to delete this task".
Definition TaskHasActiveTimers : Exn := Error "Cannot delete a task with active timers".

(** [task.deleteOne()] *)
Definition Task_deleteOne (d : Task.t) : M unit :=
  s ← get_store;
  put_store (mkStore (timers s)
               (List.filter (λ t, negb (bool_decide (Task._id t = Task._id d))) (tasks s))
               (users s) (groups s)).

Module taskService.

(** The group's [totalTasks] counter, which [deleteTask] also decrements, is
    not a field of [Group.t]. *)
Definition deleteTask (taskId userId : Id) : M bool :=
  task ← Task_findById taskId;
  match task with
  | None => throw TaskNotFound
  | Some task =>
      let hasPermission := bool_decide (Task.creator task = userId) in
      hasPermission ←
        match Task.group task with
        | Some g =>
            if hasPermission then mret hasPermission
            else
              group ← Group_findById g;
              match group with
              | Some group => mret (includes (Group.leaders group) userId)
              | None => mret hasPermission
              end
        | None => mret hasPermission
        end;
      if negb hasPermission then throw NoDeletePermission else
      if bool_decide (Task.activeTimers task > 0) then throw TaskHasActiveTimers else
      match Task.group task with
      | Some g =>
          group ← Group_findById g;
          match group with
          | Some group =>
              Group_save
                (Group.mk (Group._id group) (Group.isPublic group) (Group.leaders group)
                          (Group.members group)
                          (if bool_decide (Task.status task = completed)
                           then Math_max 0 (Group.completedTasks group - 1)
                           else Group.completedTasks group)
                          (Group.totalTimeSpent group) (Group.lastActive group))
          | None => mret ()
          end
      | None => mret ()
      end;;
      Task_deleteOne task;;
      logger info ("Task deleted: " +:+ Task._id task +:+ " by user: " +:+ userId);;
      mret true
  end.

End taskService.

(** Every active timer runs on a stored task. *)
Definition no_orphans (w : World) : Prop :=
  ∀ t, t ∈ timers (store w) → Timer.isActive t = true →
       ∃ task, task ∈ tasks (store w) ∧ Task._id task = Timer.task t.

(** Requests to the timer routes and events, and to the route that deletes a
    task. *)
Inductive Op :=
| TimerRequest (r : Request)
| DeleteTask (taskId userId : Id).

Definition run_op (o : Op) (w : World) : World :=
  match o with
  | TimerRequest r => exec r w
  | DeleteTask taskId userId => (taskService.deleteTask taskId userId w).2
  end.

(** Operations served one at a time, each to its end before the next one
    starts. *)
Definition run_ops (os : list Op) (w : World) : World :=
  foldl (λ w o, run_op o w) w os.

(** The operations that do not go through the socket handlers. *)
Definition is_service_op (o : Op) : bool :=
  match o with
  | TimerRequest r => is_service r
  | DeleteTask _ _ => true
  end.

(** ** Requests that overlap

    Node runs a request up to its next [await] and may go on with another
    request in between. [startTimer] is cut below at its last read: the
    checks, up to the access check, load what the request works with; the
    writes start with the new timer. [startTimer] is the one after the
    other ([startTimer_cut]). *)

Module Overlap.

(** [startTimer] up to the access check; it returns the task it has loaded
    and [isAssignee]. *)
Definition startTimer_checks (taskId userId : Id) : M (Task.t * bool) :=
  activeTimer ← Timer_findOne (active_of userId);
  if activeTimer is Some _ then throw ActiveTimerExists else
  task ← Task_findById taskId;
  match task with
  | None => throw TaskNotFound
  | Some task =>
      if bool_decide (Task.status task = completed)
         || bool_decide (Task.status task = cancelled)
      then throw (TaskTerminal (Task.status task)) else
      let isAssignee := includes (Task.assignees task) userId in
      access ← timerService.hasAccess task userId;
      if negb access then throw NoAccess else
      mret (task, isAssignee)
  end.

(** [startTimer] from [new Timer] on, with the task loaded by the checks. *)
Definition startTimer_stores (taskId userId : Id) (loaded : Task.t * bool)
  : M View.started :=
  let '(task, isAssignee) := loaded in
  now ← newDate;
  oid ← newObjectId;
  let timer :=
    Timer.mk oid taskId userId (Task.group task) now None 0 true false false None in
  Timer_insert timer;;
  task ← taskSchema.startTimer task;
  task ← (if negb isAssignee
          then let task' := taskSchema.push_assignee task userId in
               Task_save task';; mret task'
          else mret task);
  getRedisClient;;
  redis_set (timer_key userId taskId) (VTimerId (Timer._id timer)) None;;
  logger info ("Timer started: " +:+ Timer._id timer +:+ " for task: "
               +:+ Task._id task +:+ " by user: " +:+ userId);;
  mret (View.mkStarted (Timer._id timer) (View.of_task task)
                       (Timer.startTime timer) true).

(** Two [startTimer] requests, the second of which arrives while the first
    awaits its last read: both run their checks before either writes. *)
Definition both_start (taskId1 userId1 taskId2 userId2 : Id)
  : M (View.started * View.started) :=
  loaded1 ← startTimer_checks taskId1 userId1;
  loaded2 ← startTimer_checks taskId2 userId2;
  started1 ← startTimer_stores taskId1 userId1 loaded1;
  started2 ← startTimer_stores taskId2 userId2 loaded2;
  mret (started1, started2).

(** Task [t1] with [u1] among its assignees, and no timer yet. *)
Definition task_assigned : Task.t :=
  Task.mk "t1" "Write report" "" "u0" (Some "g1") ["u1"] pending 30 5000000 None [] 0 0.

Definition w_assigned : World :=
  mkWorld (mkStore [] [task_assigned; Demo.task2] [Demo.user1; Demo.user2] [Demo.group1])
          (Redis.mk true ∅ (λ _, false) 0) [] Demo.clock 0 Demo.oids 0.

(** The second timer that the two requests of [u1] on [t1] store. *)
Definition second_timer : Timer.t :=
  Timer.mk "timer1" "t1" "u1" (Some "g1") 1600000 None 0 true false false None.

End Overlap.
(** * Properties *)

(** ** Rounding *)

Lemma Math_round_bounds (x : Q) :
  (inject_Z (Math_round x) <= x + (1 # 2) ∧ x + (1 # 2) < inject_Z (Math_round x + 1))%Q.
Proof. unfold Math_round. split; [apply Qfloor_le | apply Qlt_floor]. Qed.

(** [Math.round] of a quotient of integers, in integer arithmetic. *)
Lemma Math_round_quotient (a b : Z) :
  0 < b → Math_round (inject_Z a / inject_Z b) = (2 * a + b) / (2 * b).
Proof.
  intros Hb. unfold Math_round. rewrite Zdiv_Qdiv. apply Qfloor_comp.
  rewrite !inject_Z_plus, !inject_Z_mult.
  assert (Hne : ¬ (inject_Z b == 0)%Q).
  { change 0%Q with (inject_Z 0). rewrite inject_Z_injective. lia. }
  field. done.
Qed.

(** The rounded quotient is within half a unit of the exact one. *)
Lemma Math_round_nearest (a b : Z) :
  0 < b →
  let r := Math_round (inject_Z a / inject_Z b) in
  2 * b * r - b ≤ 2 * a < 2 * b * r + b.
Proof.
  intros Hb r. subst r. rewrite Math_round_quotient by done.
  pose proof (Z.mul_div_le (2 * a + b) (2 * b) ltac:(lia)).
  pose proof (Z.mul_succ_div_gt (2 * a + b) (2 * b) ltac:(lia)).
  lia.
Qed.

(** *** Doubles *)

Lemma pow2_pos e : (0 < pow2 e)%Q.
Proof. apply Qpower_0_lt. reflexivity. Qed.

Lemma pow2_add a b : (pow2 (a + b) == pow2 a * pow2 b)%Q.
Proof. apply Qpower_plus. discriminate. Qed.

Lemma pow2_succ a : (pow2 (a + 1) == 2 * pow2 a)%Q.
Proof. rewrite pow2_add. change (pow2 1) with 2%Q. ring. Qed.

Lemma pow2_pred a : (pow2 (a - 1) == pow2 a / 2)%Q.
Proof.
  replace a with ((a - 1) + 1) at 2 by lia. rewrite pow2_succ. field.
Qed.

Lemma pow2_le a b : a ≤ b → (pow2 a <= pow2 b)%Q.
Proof. intros H. apply Qpower_le_compat_l; [done|]. discriminate. Qed.

Lemma pow2_lt a b : a < b → (pow2 a < pow2 b)%Q.
Proof. intros H. apply Qpower_lt_compat_l; [done|]. reflexivity. Qed.

Lemma pow2_lt_inv a b : (pow2 a < pow2 b)%Q → a < b.
Proof. intros H. apply (Qpower_lt_compat_l_inv 2); [done|reflexivity]. Qed.

Lemma pow2_Z n : 0 ≤ n → (pow2 n == inject_Z (2 ^ n))%Q.
Proof. intros H. unfold pow2. by rewrite Zpower_Qpower. Qed.

Lemma pow2_sub a b : (pow2 (a - b) * pow2 b == pow2 a)%Q.
Proof. rewrite <- pow2_add. by replace (a - b + b) with a by lia. Qed.

Lemma log2_Q (a : Z) :
  0 < a → (pow2 (Z.log2 a) <= inject_Z a ∧ inject_Z a < 2 * pow2 (Z.log2 a))%Q.
Proof.
  intros Ha. destruct (Z.log2_spec a Ha) as [H1 H2].
  pose proof (Z.log2_nonneg a).
  rewrite <- pow2_succ, !pow2_Z by lia. rewrite <- Zle_Qle, <- Zlt_Qlt. done.
Qed.

Lemma ilog2_spec (x : Q) :
  (0 < x)%Q → (pow2 (ilog2 x) <= x ∧ x < pow2 (ilog2 x + 1))%Q.
Proof.
  intros Hx. destruct x as [a b]. unfold ilog2. cbn [Qnum Qden].
  assert (Ha : 0 < a) by (unfold Qlt in Hx; simpl in Hx; lia).
  destruct (log2_Q a Ha) as [Ha1 Ha2].
  destruct (log2_Q (Z.pos b) ltac:(lia)) as [Hb1 Hb2].
  set (la := Z.log2 a) in *. set (lb := Z.log2 (Z.pos b)) in *.
  pose proof (pow2_sub la lb) as HR.
  pose proof (pow2_pos (la - lb)) as HRpos.
  pose proof (pow2_pos lb) as HBpos.
  assert (Hx' : ((a # b) * inject_Z (Z.pos b) == inject_Z a)%Q).
  { rewrite (Qmake_Qdiv a b). field. discriminate. }
  set (R := pow2 (la - lb)) in *. set (PB := pow2 lb) in *. set (PA := pow2 la) in *.
  set (A := inject_Z a) in *. set (B := inject_Z (Z.pos b)) in *. set (X := a # b) in *.
  assert (Hlo : (R / 2 < X)%Q).
  { apply Qlt_shift_div_r; [reflexivity|]. nra. }
  assert (Hhi : (X < 2 * R)%Q) by nra.
  destruct (Qle_bool R X) eqn:E.
  - apply Qle_bool_iff in E. rewrite pow2_succ. fold R. split; [done|done].
  - assert (X < R)%Q.
    { apply Qnot_le_lt. intros H%Qle_bool_iff. congruence. }
    replace (la - lb - 1 + 1) with (la - lb) by lia. rewrite pow2_pred. fold R.
    split; [lra|done].
Qed.

Lemma ilog2_mono (x y : Q) : (0 < x)%Q → (x <= y)%Q → ilog2 x ≤ ilog2 y.
Proof.
  intros Hx Hxy.
  destruct (ilog2_spec x Hx) as [H1 _].
  destruct (ilog2_spec y ltac:(lra)) as [_ H2].
  assert (H : (pow2 (ilog2 x) < pow2 (ilog2 y + 1))%Q) by lra.
  apply pow2_lt_inv in H. lia.
Qed.

#[global] Instance round_half_even_proper : Proper (Qeq ==> eq) round_half_even.
Proof.
  intros y y' Hy. unfold round_half_even.
  rewrite (Qfloor_comp _ _ Hy).
  assert (H : (y - inject_Z (Qfloor y') ?= 1 # 2)%Q = (y' - inject_Z (Qfloor y') ?= 1 # 2)%Q).
  { apply Qcompare_comp; [by rewrite Hy|reflexivity]. }
  by rewrite H.
Qed.

Lemma round_half_even_floor (y : Q) :
  Qfloor y ≤ round_half_even y ≤ Qfloor y + 1.
Proof. unfold round_half_even. repeat case_match; lia. Qed.

Lemma round_half_even_error (y : Q) :
  (y - (1 # 2) <= inject_Z (round_half_even y)
   ∧ inject_Z (round_half_even y) <= y + (1 # 2))%Q.
Proof.
  unfold round_half_even.
  pose proof (Qfloor_le y) as Hlo. pose proof (Qlt_floor y) as Hhi.
  rewrite inject_Z_plus in Hhi. change (inject_Z 1) with 1%Q in Hhi.
  destruct (Qcompare_spec (y - inject_Z (Qfloor y)) (1 # 2)) as [H|H|H].
  - destruct (Z.even (Qfloor y)); rewrite ?inject_Z_plus; change (inject_Z 1) with 1%Q; lra.
  - lra.
  - rewrite inject_Z_plus. change (inject_Z 1) with 1%Q. lra.
Qed.

Lemma round_half_even_mono (y y' : Q) :
  (y <= y')%Q → round_half_even y ≤ round_half_even y'.
Proof.
  intros Hy. pose proof (Qfloor_resp_le _ _ Hy) as Hf.
  destruct (Z.eq_dec (Qfloor y) (Qfloor y')) as [E|E].
  - unfold round_half_even. rewrite <- E.
    destruct (Qcompare_spec (y - inject_Z (Qfloor y)) (1 # 2)) as [H|H|H];
      destruct (Qcompare_spec (y' - inject_Z (Qfloor y)) (1 # 2)) as [H'|H'|H'];
      try destruct (Z.even (Qfloor y)); try lia; exfalso; lra.
  - pose proof (round_half_even_floor y). pose proof (round_half_even_floor y'). lia.
Qed.

Lemma round_half_even_Z (k : Z) : round_half_even (inject_Z k) = k.
Proof.
  unfold round_half_even. rewrite Qfloor_Z.
  destruct (Qcompare_spec (inject_Z k - inject_Z k) (1 # 2)) as [H|H|H]; [|done|]; exfalso; lra.
Qed.

Lemma round_half_even_le (y : Q) (k : Z) : (y <= inject_Z k)%Q → round_half_even y ≤ k.
Proof. intros H%round_half_even_mono. by rewrite round_half_even_Z in H. Qed.

Lemma round_half_even_ge (y : Q) (k : Z) : (inject_Z k <= y)%Q → k ≤ round_half_even y.
Proof. intros H%round_half_even_mono. by rewrite round_half_even_Z in H. Qed.

(** ** The rounding of positive numbers *)

Lemma quantum_mono (x y : Q) : (0 < x)%Q → (x <= y)%Q → quantum x ≤ quantum y.
Proof. intros Hx Hxy. unfold quantum. pose proof (ilog2_mono x y Hx Hxy). lia. Qed.

Lemma scaled (x : Q) (e : Z) : (x / pow2 e * pow2 e == x)%Q.
Proof. field. pose proof (pow2_pos e). lra. Qed.

Lemma fl_pos_error (x : Q) :
  (0 < x)%Q →
  (x - pow2 (quantum x) / 2 <= fl_pos x ∧ fl_pos x <= x + pow2 (quantum x) / 2)%Q.
Proof.
  intros Hx. unfold fl_pos.
  pose proof (pow2_pos (quantum x)) as Hp.
  pose proof (scaled x (quantum x)) as Hs.
  destruct (round_half_even_error (x / pow2 (quantum x))) as [H1 H2].
  set (p := pow2 (quantum x)) in *. set (y := (x / p)%Q) in *.
  set (m := inject_Z (round_half_even y)) in *.
  assert (0 <= (m - y + (1 # 2)) * p)%Q by (apply Qmult_le_0_compat; lra).
  assert (0 <= (y + (1 # 2) - m) * p)%Q by (apply Qmult_le_0_compat; lra).
  unfold Qdiv. change (/ 2)%Q with (1 # 2)%Q. split; lra.
Qed.

Lemma quantum_size (x : Q) :
  (0 < x)%Q → (pow2 (quantum x) <= x * pow2 (-52) + pow2 (-1074))%Q.
Proof.
  intros Hx. unfold quantum.
  destruct (ilog2_spec x Hx) as [H1 _].
  pose proof (pow2_pos (-52)). pose proof (pow2_pos (-1074)).
  assert (0 <= x * pow2 (-52))%Q by (apply Qmult_le_0_compat; lra).
  destruct (Z.max_spec (ilog2 x - 52) (-1074)) as [[_ ->]|[_ ->]].
  - lra.
  - replace (ilog2 x - 52) with (ilog2 x + -52) by lia. rewrite pow2_add.
    assert (pow2 (ilog2 x) * pow2 (-52) <= x * pow2 (-52))%Q
      by (apply Qmult_le_compat_r; lra).
    lra.
Qed.

Lemma fl_pos_mono (x y : Q) : (0 < x)%Q → (x <= y)%Q → (fl_pos x <= fl_pos y)%Q.
Proof.
  intros Hx Hxy. assert (Hy : (0 < y)%Q) by lra.
  pose proof (quantum_mono x y Hx Hxy) as He.
  pose proof (pow2_pos (quantum x)) as Hpx. pose proof (pow2_pos (quantum y)) as Hpy.
  destruct (Z.eq_dec (quantum x) (quantum y)) as [E|E].
  - unfold fl_pos. rewrite <- E.
    apply Qmult_le_compat_r; [|lra]. rewrite <- Zle_Qle.
    apply round_half_even_mono.
    apply Qle_shift_div_l; [done|]. rewrite scaled. done.
  - assert (Hlt : quantum x < quantum y) by lia.
    assert (Hqy : quantum y = ilog2 y - 52) by (unfold quantum in *; lia).
    assert (HE : ilog2 x + 1 ≤ ilog2 y) by (unfold quantum in *; lia).
    destruct (ilog2_spec x Hx) as [_ Hx2]. destruct (ilog2_spec y Hy) as [Hy1 _].
    apply Qle_trans with (pow2 (ilog2 y)).
    + (* fl_pos x <= 2^E_y *)
      unfold fl_pos.
      rewrite <- (pow2_sub (ilog2 y) (quantum x)).
      apply Qmult_le_compat_r; [|lra].
      rewrite (pow2_Z (ilog2 y - quantum x)) by lia. rewrite <- Zle_Qle.
      apply round_half_even_le. rewrite <- (pow2_Z (ilog2 y - quantum x)) by lia.
      apply Qle_shift_div_r; [done|]. rewrite pow2_sub.
      pose proof (pow2_le _ _ HE). lra.
    + unfold fl_pos.
      rewrite <- (pow2_sub (ilog2 y) (quantum y)) at 1.
      apply Qmult_le_compat_r; [|lra].
      rewrite (pow2_Z (ilog2 y - quantum y)) by lia. rewrite <- Zle_Qle.
      apply round_half_even_ge. rewrite <- (pow2_Z (ilog2 y - quantum y)) by lia.
      apply Qle_shift_div_l; [done|]. rewrite pow2_sub. done.
Qed.

Lemma fl_pos_nonneg (x : Q) : (0 < x)%Q → (0 <= fl_pos x)%Q.
Proof.
  intros Hx. unfold fl_pos. pose proof (pow2_pos (quantum x)).
  apply Qmult_le_0_compat; [|lra].
  change 0%Q with (inject_Z 0). rewrite <- Zle_Qle.
  apply round_half_even_ge. apply Qle_shift_div_l; [done|].
  change (inject_Z 0) with 0%Q. lra.
Qed.

(** ** The rounding of all numbers *)

Lemma fl_unfold (x : Q) :
  (fl x == match (x ?= 0)%Q with
           | Gt => fl_pos x
           | Lt => - fl_pos (- x)
           | Eq => 0
           end)%Q.
Proof. unfold fl. apply Qred_correct. Qed.

Lemma fl_0 : fl 0 = 0%Q.
Proof. reflexivity. Qed.

Lemma fl_of_pos (x : Q) : (0 < x)%Q → (fl x == fl_pos x)%Q.
Proof.
  intros Hx. rewrite fl_unfold.
  destruct (Qcompare_spec x 0) as [H|H|H]; [lra|lra|done].
Qed.

Lemma fl_of_neg (x : Q) : (x < 0)%Q → (fl x == - fl_pos (- x))%Q.
Proof.
  intros Hx. rewrite fl_unfold.
  destruct (Qcompare_spec x 0) as [H|H|H]; [lra|done|lra].
Qed.

Lemma fl_of_0 (x : Q) : (x == 0)%Q → (fl x == 0)%Q.
Proof.
  intros Hx. rewrite fl_unfold.
  destruct (Qcompare_spec x 0) as [H|H|H]; [done|lra|lra].
Qed.

Lemma fl_nonneg (x : Q) : (0 <= x)%Q → (0 <= fl x)%Q.
Proof.
  intros Hx. destruct (Qlt_le_dec 0 x) as [H|H].
  - rewrite fl_of_pos by done. by apply fl_pos_nonneg.
  - rewrite fl_of_0 by lra. lra.
Qed.

Lemma fl_nonpos (x : Q) : (x <= 0)%Q → (fl x <= 0)%Q.
Proof.
  intros Hx. destruct (Qlt_le_dec x 0) as [H|H].
  - rewrite fl_of_neg by done. pose proof (fl_pos_nonneg (- x) ltac:(lra)). lra.
  - rewrite fl_of_0 by lra. lra.
Qed.

Lemma fl_mono (x y : Q) : (x <= y)%Q → (fl x <= fl y)%Q.
Proof.
  intros Hxy.
  destruct (Qlt_le_dec 0 x) as [Hx|Hx].
  - rewrite (fl_of_pos x), (fl_of_pos y) by lra. by apply fl_pos_mono.
  - destruct (Qlt_le_dec 0 y) as [Hy|Hy].
    + pose proof (fl_nonpos x Hx). pose proof (fl_nonneg y ltac:(lra)). lra.
    + destruct (Qlt_le_dec y 0) as [Hy'|Hy'].
      * rewrite (fl_of_neg x), (fl_of_neg y) by lra.
        pose proof (fl_pos_mono (- y) (- x) ltac:(lra) ltac:(lra)). lra.
      * rewrite (fl_of_0 y) by lra. by apply fl_nonpos.
Qed.

#[global] Instance fl_proper : Proper (Qeq ==> Qeq) fl.
Proof.
  intros x y Hxy. apply Qle_antisym; apply fl_mono; lra.
Qed.

(** The error of one rounding: half a unit in the last place. *)
Lemma fl_error (x : Q) :
  (0 <= x)%Q →
  (x - (x * pow2 (-53) + pow2 (-1075)) <= fl x
   ∧ fl x <= x + (x * pow2 (-53) + pow2 (-1075)))%Q.
Proof.
  intros Hx. destruct (Qlt_le_dec 0 x) as [H|H].
  - rewrite fl_of_pos by done.
    destruct (fl_pos_error x H) as [H1 H2]. pose proof (quantum_size x H) as Hq.
    assert (E1 : (pow2 (-52) == 2 * pow2 (-53))%Q) by (by rewrite <- pow2_succ).
    assert (E2 : (pow2 (-1074) == 2 * pow2 (-1075))%Q) by (by rewrite <- pow2_succ).
    rewrite E1, E2 in Hq.
    set (a := pow2 (-53)) in *. set (b := pow2 (-1075)) in *.
    set (p := pow2 (quantum x)) in *.
    unfold Qdiv in H1, H2. change (/ 2)%Q with (1 # 2)%Q in H1, H2.
    assert (x * (2 * a) == 2 * (x * a))%Q as E3 by ring. rewrite E3 in Hq.
    split; lra.
  - rewrite fl_of_0 by lra. pose proof (pow2_pos (-1075)).
    assert (E : (x == 0)%Q) by lra. rewrite E. split; lra.
Qed.

(** The double nearest to 0.1, and the nearest to 2^53 + 1 and 2^53 + 3 (ties
    go to the even neighbour). *)
Example fl_tenth : fl (1 # 10) = (3602879701896397 # 36028797018963968)%Q.
Proof. by vm_compute. Qed.

Example fl_ties :
  fl (inject_Z (2 ^ 53 + 1)) = inject_Z (2 ^ 53)
  ∧ fl (inject_Z (2 ^ 53 + 3)) = inject_Z (2 ^ 53 + 4).
Proof. by vm_compute. Qed.

Lemma fl_error_neg (x : Q) :
  (x <= 0)%Q →
  (x - (- x * pow2 (-53) + pow2 (-1075)) <= fl x
   ∧ fl x <= x + (- x * pow2 (-53) + pow2 (-1075)))%Q.
Proof.
  intros Hx. destruct (Qlt_le_dec x 0) as [H|H].
  - rewrite fl_of_neg by done.
    destruct (fl_error (- x) ltac:(lra)) as [H1 H2].
    rewrite fl_of_pos in H1, H2 by lra. split; lra.
  - assert (E : (x == 0)%Q) by lra. rewrite E. pose proof (pow2_pos (-1075)).
    change (fl 0) with 0%Q. split; lra.
Qed.

(** A number with at most 53 significant bits is a double. *)
Lemma fl_pos_exact (m e : Z) :
  0 < m < 2 ^ 53 → -1074 ≤ e →
  (fl_pos (inject_Z m * pow2 e) == inject_Z m * pow2 e)%Q.
Proof.
  intros Hm He. set (x := (inject_Z m * pow2 e)%Q).
  pose proof (pow2_pos e) as Hpe.
  assert (Hmq : (0 < inject_Z m)%Q) by (change 0%Q with (inject_Z 0); rewrite <- Zlt_Qlt; lia).
  assert (Hx : (0 < x)%Q) by (unfold x; nra).
  destruct (ilog2_spec x Hx) as [Hlo _].
  assert (Hlt : (x < pow2 (53 + e))%Q).
  { unfold x. rewrite pow2_add, (pow2_Z 53) by lia.
    apply Qmult_lt_compat_r; [done|]. rewrite <- Zlt_Qlt. lia. }
  assert (Hil : ilog2 x < 53 + e) by (apply pow2_lt_inv; lra).
  assert (Hq : quantum x ≤ e) by (unfold quantum; lia).
  unfold fl_pos. fold x.
  assert (Hs : (x / pow2 (quantum x) == inject_Z (m * 2 ^ (e - quantum x)))%Q).
  { rewrite inject_Z_mult, <- (pow2_Z (e - quantum x)) by lia. unfold x at 1.
    rewrite <- (pow2_sub e (quantum x)) at 1.
    pose proof (pow2_pos (quantum x)).
    set (A := pow2 (e - quantum x)). set (B := pow2 (quantum x)) in *.
    field. lra. }
  rewrite Hs, round_half_even_Z, inject_Z_mult, <- (pow2_Z (e - quantum x)) by lia.
  rewrite <- Qmult_assoc, (pow2_sub e (quantum x)). reflexivity.
Qed.

Lemma fl_opp (x : Q) : (fl (- x) == - fl x)%Q.
Proof.
  destruct (Qlt_le_dec x 0) as [H|H]; [|destruct (Qlt_le_dec 0 x) as [H'|H']].
  - rewrite (fl_of_neg x), (fl_of_pos (- x)) by lra. ring.
  - rewrite (fl_of_pos x), (fl_of_neg (- x)) by lra.
    assert (E : (fl_pos (- - x) == fl_pos x)%Q).
    { apply Qle_antisym; apply fl_pos_mono; lra. }
    rewrite E. reflexivity.
  - rewrite (fl_of_0 x), (fl_of_0 (- x)) by lra. reflexivity.
Qed.

Lemma fl_exact (m e : Z) :
  - 2 ^ 53 < m < 2 ^ 53 → -1074 ≤ e →
  (fl (inject_Z m * pow2 e) == inject_Z m * pow2 e)%Q.
Proof.
  intros Hm He. pose proof (pow2_pos e) as Hpe.
  destruct (Z.lt_trichotomy m 0) as [H|[->|H]].
  - assert (E : (inject_Z m * pow2 e == - (inject_Z (- m) * pow2 e))%Q)
      by (rewrite inject_Z_opp; ring).
    assert (Hmq : (0 < inject_Z (- m))%Q)
      by (change 0%Q with (inject_Z 0); rewrite <- Zlt_Qlt; lia).
    rewrite E at 1. rewrite fl_opp, fl_of_pos by nra.
    rewrite fl_pos_exact by lia. rewrite inject_Z_opp. ring.
  - rewrite fl_of_0; [ring|]. change (inject_Z 0) with 0%Q. ring.
  - assert (Hmq : (0 < inject_Z m)%Q) by (change 0%Q with (inject_Z 0); rewrite <- Zlt_Qlt; lia).
    rewrite fl_of_pos by nra. apply fl_pos_exact; lia.
Qed.

Lemma fl_half (k : Z) :
  - 2 ^ 52 < k < 2 ^ 52 → (fl (inject_Z k - (1 # 2)) == inject_Z k - (1 # 2))%Q.
Proof.
  intros Hk.
  assert (E : (inject_Z k - (1 # 2) == inject_Z (2 * k + -1) * pow2 (-1))%Q).
  { rewrite inject_Z_plus, inject_Z_mult. change (pow2 (-1)) with (1 # 2)%Q.
    change (inject_Z 2) with 2%Q. change (inject_Z (-1)) with (-1)%Q. ring. }
  rewrite E. apply fl_exact; lia.
Qed.

Lemma Qfloor_unique (y : Q) (k : Z) :
  (inject_Z k <= y)%Q → (y < inject_Z (k + 1))%Q → Qfloor y = k.
Proof.
  intros H1 H2. apply Z.le_antisymm.
  - apply Z.lt_succ_r. rewrite Zlt_Qlt. eapply Qle_lt_trans; [apply Qfloor_le|done].
  - rewrite <- (Qfloor_Z k). by apply Qfloor_resp_le.
Qed.

(** The double quotient [ms / 60000] rounds to the same minute as the exact
    one, for differences of up to [2^52] milliseconds (some 140,000
    years). *)
Lemma duration_of_double (ms : Z) :
  - 2 ^ 52 ≤ ms ≤ 2 ^ 52 →
  Math_round (fdiv (inject_Z ms) (inject_Z 60000))
  = Math_round (inject_Z ms / inject_Z 60000).
Proof.
  intros Hms.
  pose proof (Math_round_nearest ms 60000 ltac:(lia)) as Hk. cbv zeta in Hk.
  set (k := Math_round (inject_Z ms / inject_Z 60000)) in *.
  set (x := (inject_Z ms / inject_Z 60000)%Q).
  assert (Hx : (x * 60000 == inject_Z ms)%Q).
  { unfold x. change (inject_Z 60000) with 60000%Q. field. }
  assert (H1 : (inject_Z (60000 * k - 30000) <= inject_Z ms)%Q) by (rewrite <- Zle_Qle; lia).
  assert (H2 : (inject_Z ms <= inject_Z (60000 * k + 29999))%Q) by (rewrite <- Zle_Qle; lia).
  assert (H3 : (inject_Z (- 2 ^ 52) <= inject_Z ms)%Q) by (rewrite <- Zle_Qle; lia).
  assert (H4 : (inject_Z ms <= inject_Z (2 ^ 52))%Q) by (rewrite <- Zle_Qle; lia).
  rewrite inject_Z_plus, inject_Z_mult in H2.
  replace (60000 * k - 30000) with (60000 * k + -30000) in H1 by lia.
  rewrite inject_Z_plus, inject_Z_mult in H1.
  change (inject_Z 60000) with 60000%Q in H1, H2.
  change (inject_Z (-30000)) with (-30000)%Q in H1.
  change (inject_Z 29999) with 29999%Q in H2.
  change (inject_Z (- 2 ^ 52)) with (-4503599627370496)%Q in H3.
  change (inject_Z (2 ^ 52)) with 4503599627370496%Q in H4.
  assert (Eu : (pow2 (-53) == 1 # 9007199254740992)%Q) by (by vm_compute).
  assert (Ee : (pow2 (-1075) <= 1 # 1000000)%Q) by (by vm_compute).
  unfold fdiv, Math_round. fold x. apply Qfloor_unique.
  - assert (Hlo : (inject_Z k - (1 # 2) <= x)%Q) by lra.
    apply fl_mono in Hlo. rewrite fl_half in Hlo by lia. lra.
  - rewrite inject_Z_plus. change (inject_Z 1) with 1%Q.
    destruct (Qlt_le_dec x 0) as [Hneg|Hpos].
    + destruct (fl_error_neg x ltac:(lra)) as [_ Hhi]. rewrite Eu in Hhi. lra.
    + destruct (fl_error x Hpos) as [_ Hhi]. rewrite Eu in Hhi. lra.
Qed.

(** One rounding changes a number that is not negative by at most
    [10^-15] of its value, and [10^-15]. *)
Lemma fl_close (x : Q) :
  (0 <= x)%Q →
  (x - (x * (1 # 1000000000000000) + (1 # 1000000000000000)) <= fl x
   ∧ fl x <= x + (x * (1 # 1000000000000000) + (1 # 1000000000000000)))%Q.
Proof.
  intros Hx. destruct (fl_error x Hx) as [H1 H2].
  assert (Eu : (pow2 (-53) <= 1 # 1000000000000000)%Q) by (by vm_compute).
  assert (Ee : (pow2 (-1075) <= 1 # 1000000000000000)%Q) by (by vm_compute).
  assert (0 <= x * ((1 # 1000000000000000) - pow2 (-53)))%Q by (apply Qmult_le_0_compat; lra).
  split; lra.
Qed.

Lemma rate_close_aux (x si q t : Q) :
  (0 <= x → x <= 100 →
   x - 404 * (1 # 1000000000000000) <= si →
   si <= x + 404 * (1 # 1000000000000000) →
   si - (si * (1 # 1000000000000000) + (1 # 1000000000000000)) <= q →
   q <= si + (si * (1 # 1000000000000000) + (1 # 1000000000000000)) →
   q * 100 - (q * 100 * (1 # 1000000000000000) + (1 # 1000000000000000)) <= t →
   t <= q * 100 + (q * 100 * (1 # 1000000000000000) + (1 # 1000000000000000)) →
   100 * x - (1 # 10000000000) <= t ∧ t <= 100 * x + (1 # 10000000000))%Q.
Proof. intros. split; lra. Qed.

(** The rounded percentage [updateStats] stores: in hundredths, an integer
    between 0 and 10000 within half a unit (and the rounding errors of five
    operations) of the exact running average. *)
Lemma rate_close (r : Q) (n : Z) (cot : bool) :
  1 ≤ n → (0 <= r ∧ r <= 100)%Q →
  let x := ((r * inject_Z (n - 1) + (if cot then 100 else 0)) / inject_Z n)%Q in
  let k := Math_round (fmul (userSchema.newCompletionRate r n cot) 100) in
  0 ≤ k ≤ 10000
  ∧ (x - (1 # 200) - (1 # 1000000000000) <= inject_Z k / 100
     ∧ inject_Z k / 100 <= x + (1 # 200) + (1 # 1000000000000))%Q.
Proof.
  intros Hn [Hr0 Hr1] x k.
  set (c := (if cot then 100 else 0)%Q) in *.
  assert (Hc : (0 <= c ∧ c <= 100)%Q) by (unfold c; destruct cot; lra).
  set (N := inject_Z n) in *.
  assert (HN : (1 <= N)%Q) by (unfold N; change 1%Q with (inject_Z 1); rewrite <- Zle_Qle; lia).
  assert (HN1 : (inject_Z (n - 1) == N - 1)%Q).
  { unfold N. replace (n - 1) with (n + -1) by lia. rewrite inject_Z_plus.
    change (inject_Z (-1)) with (-1)%Q. ring. }
  set (i := (/ N)%Q).
  assert (Hi : (N * i == 1)%Q) by (unfold i; field; lra).
  assert (Hi0 : (0 < i)%Q) by (unfold i; apply Qinv_lt_0_compat; lra).
  assert (Hi1 : (i <= 1)%Q) by nra.
  assert (Hx : (x == r - r * i + c * i)%Q).
  { unfold x. rewrite HN1. fold i. unfold Qdiv. fold i.
    assert (E : (r * N * i == r)%Q) by (rewrite <- Qmult_assoc, Hi; ring).
    assert (E' : ((r * (N - 1) + c) * i == r * N * i - r * i + c * i)%Q) by ring.
    rewrite E', E. reflexivity. }
  set (d := (1 # 1000000000000000)%Q) in *.
  (* m = N - 1 in doubles *)
  unfold k, userSchema.newCompletionRate, fmul, fdiv, fadd, fsub. fold N c.
  set (m := fl (N - 1)).
  destruct (fl_close (N - 1) ltac:(lra)) as [Hm1 Hm2]. fold m d in Hm1, Hm2.
  assert (Hm0 : (0 <= m)%Q) by (apply fl_nonneg; lra).
  (* p = r * m *)
  assert (Hrm0 : (0 <= r * m)%Q) by (by apply Qmult_le_0_compat).
  assert (Hrm1 : (0 <= r * (m - (N - 1) + N * d))%Q) by (apply Qmult_le_0_compat; lra).
  assert (Hrm2 : (0 <= r * (N - 1 + N * d - m))%Q) by (apply Qmult_le_0_compat; lra).
  assert (Hrn : (0 <= (100 - r) * N)%Q) by (apply Qmult_le_0_compat; lra).
  assert (Hrn' : (0 <= r * N)%Q) by (apply Qmult_le_0_compat; lra).
  set (p := fl (r * m)).
  destruct (fl_close (r * m) Hrm0) as [Hp1 Hp2]. fold p d in Hp1, Hp2.
  assert (Hp0 : (0 <= p)%Q) by (by apply fl_nonneg).
  (* s = p + c *)
  set (s := fl (p + c)).
  destruct (fl_close (p + c) ltac:(lra)) as [Hs1 Hs2]. fold s d in Hs1, Hs2.
  assert (Hs0 : (0 <= s)%Q) by (apply fl_nonneg; lra).
  assert (Hsl : (r * N - r + c - 404 * N * d <= s)%Q) by (unfold d in *; lra).
  assert (Hsu : (s <= r * N - r + c + 404 * N * d)%Q) by (unfold d in *; lra).
  (* q = s / N *)
  fold i.
  assert (Hsi0 : (0 <= s * i)%Q) by (apply Qmult_le_0_compat; lra).
  assert (Hsi1 : (0 <= (s - (r * N - r + c - 404 * N * d)) * i)%Q)
    by (apply Qmult_le_0_compat; lra).
  assert (Hsi2 : (0 <= (r * N - r + c + 404 * N * d - s) * i)%Q)
    by (apply Qmult_le_0_compat; lra).
  assert (E1 : (r * N * i == r)%Q) by (rewrite <- Qmult_assoc, Hi; ring).
  assert (E2 : (N * d * i == d)%Q).
  { assert (E : (N * d * i == d * (N * i))%Q) by ring. rewrite E, Hi. ring. }
  assert (Hx0 : (0 <= r * (1 - i))%Q) by (apply Qmult_le_0_compat; lra).
  assert (Hx1 : (0 <= (100 - r) * (1 - i))%Q) by (apply Qmult_le_0_compat; lra).
  assert (Hx2 : (0 <= c * i)%Q) by (apply Qmult_le_0_compat; lra).
  assert (Hx3 : (0 <= (100 - c) * i)%Q) by (apply Qmult_le_0_compat; lra).
  assert (Hxr : (0 <= x ∧ x <= 100)%Q) by (rewrite Hx; split; lra).
  assert (Hq : (x - 404 * d <= s * i ∧ s * i <= x + 404 * d)%Q).
  { rewrite Hx. 
    assert (F1 : ((s - (r * N - r + c - 404 * N * d)) * i
                  == s * i - r * N * i + r * i - c * i + 404 * (N * d * i))%Q) by ring.
    assert (F2 : ((r * N - r + c + 404 * N * d - s) * i
                  == r * N * i - r * i + c * i + 404 * (N * d * i) - s * i)%Q) by ring.
    rewrite F1, E1, E2 in Hsi1. rewrite F2, E1, E2 in Hsi2. split; lra. }
  set (q := fl (s * i)).
  destruct (fl_close (s * i) Hsi0) as [Hq1 Hq2]. fold q d in Hq1, Hq2.
  assert (Hq0 : (0 <= q)%Q) by (by apply fl_nonneg).
  set (t := fl (q * 100)).
  destruct (fl_close (q * 100) ltac:(lra)) as [Ht1 Ht2]. fold t d in Ht1, Ht2.
  assert (Ht0 : (0 <= t)%Q) by (apply fl_nonneg; lra).
  destruct (Math_round_bounds t) as [Hk1 Hk2].
  rewrite inject_Z_plus in Hk2. change (inject_Z 1) with 1%Q in Hk2.
  assert (Htx : (100 * x - (1 # 10000000000) <= t ∧ t <= 100 * x + (1 # 10000000000))%Q).
  { destruct Hq as [Hql Hqu]. destruct Hxr. by apply (rate_close_aux x (s * i) q t). }
  destruct Htx as [Htl Htu]. destruct Hxr as [Hxl Hxu].
  change (Math_round (fl (fl (s / N) * 100))) with (Math_round t).
  clearbody t x. clear - Hk1 Hk2 Htl Htu Hxl Hxu Ht0.
  split; [split|].
  - apply Z.lt_succ_r. rewrite Zlt_Qlt. unfold Z.succ. rewrite inject_Z_plus.
    change (inject_Z 0) with 0%Q. change (inject_Z 1) with 1%Q. lra.
  - apply Z.lt_succ_r. rewrite Zlt_Qlt.
    change (inject_Z (Z.succ 10000)) with 10001%Q. lra.
  - unfold Qdiv. change (/ 100)%Q with (1 # 100)%Q. split; lra.
Qed.

(** ** Queries *)

Lemma find_some_of_elem {A} (q : A → bool) (l : list A) (x : A) :
  x ∈ l → q x = true → ∃ y, List.find q l = Some y.
Proof.
  induction 1 as [x l|x y l _ IH]; intros Hq; simpl.
  - rewrite Hq. eauto.
  - destruct (q y); eauto.
Qed.

Lemma find_none_of_all {A} (q : A → bool) (l : list A) :
  (∀ x, x ∈ l → q x = false) → List.find q l = None.
Proof.
  induction l as [|y l IH]; intros H; simpl; [done|].
  rewrite (H y) by left. apply IH. intros x Hx. apply H. by right.
Qed.

Lemma replace_doc_same_id {A} (key : A → Id) (d x : A) (l : list A) :
  x ∈ replace_doc key d l → key x = key d → x = d.
Proof.
  unfold replace_doc. intros Hx Hk.
  apply list_elem_of_fmap in Hx as (y & -> & Hy).
  case_bool_decide; [done|]. congruence.
Qed.

(** Unfold one layer of the request monad. *)
Ltac run := unfold mbind, M_bind, mret, M_ret, throw, get_store; simpl.

(** ** Rejections that change nothing *)

(** C2. When the user already has an active timer, [startTimer] throws the
    error "You already have an active timer..." (ActiveTimerExists) and
    leaves the whole world as it was: no Timer document is created, no Task
    is changed and the Redis index is untouched. *)
Theorem C2_start_with_active_timer (taskId userId : Id) (w : World) (t : Timer.t) :
  t ∈ timers (store w) → Timer.user t = userId → Timer.isActive t = true →
  timerService.startTimer taskId userId w = (Throw ActiveTimerExists, w).
Proof.
  intros Hin Hu Ha.
  destruct (find_some_of_elem (active_of userId) _ t Hin) as [y Hy].
  { unfold active_of. rewrite Ha, bool_decide_eq_true_2; done. }
  unfold timerService.startTimer, Timer_findOne. run. by rewrite Hy.
Qed.

Lemma C2_start_with_active_timer_witness :
  timerService.startTimer "t2" "u1" Demo.w_running
  = (Throw ActiveTimerExists, Demo.w_running).
Proof.
  apply (C2_start_with_active_timer "t2" "u1" Demo.w_running Demo.running).
  - left.
  - reflexivity.
  - reflexivity.
Defined.

(** C3. When the user has no active timer, [completeTimer] throws the error
    "No active timer found" (NoActiveTimer) and leaves the whole world as it
    was: no Timer, Task, User or Group document changes and the Redis index
    is untouched. *)
Theorem C3_complete_without_active_timer (userId : Id) (notes : string) (w : World) :
  (∀ t, t ∈ timers (store w) → Timer.user t = userId → Timer.isActive t = false) →
  timerService.completeTimer userId notes w = (Throw NoActiveTimer, w).
Proof.
  intros H.
  unfold timerService.completeTimer, Timer_findOne. run.
  rewrite find_none_of_all; [done|].
  intros t Ht. unfold active_of. case_bool_decide; [|done]. simpl. by apply H.
Qed.

Lemma C3_complete_without_active_timer_witness :
  timerService.completeTimer "u2" "" Demo.w_running
  = (Throw NoActiveTimer, Demo.w_running).
Proof.
  apply (C3_complete_without_active_timer "u2" "" Demo.w_running).
  intros t Ht Hu. simpl in Ht. apply list_elem_of_singleton in Ht. subst t.
  simpl in Hu. discriminate Hu.
Defined.

(** ** Duration *)

(** C4. Completing at clock reading T1 a timer started at T0 <= T1, with
    notes of at most 500 characters (longer notes are rejected by the
    validation of [save], and nothing is persisted), persists the duration
    [Math.round((T1 - T0) / 60000)]: a non-negative integer within half a
    minute of the exact quotient (a tie goes up), which is neither the
    floor nor the ceiling in general. [getActiveTimer] reports the same
    number when it reads the same clock value. *)
Theorem C4_duration_rounding (t : Timer.t) (userId : Id) (notes : string)
    (w1 w2 : World) (T1 : Z) :
  Timer.endTime t = None →
  Timer.startTime t ≤ T1 →
  (String.length notes ≤ 500)%nat →
  clock w1 (tick w1) = T1 →
  clock w2 (tick w2) = T1 →
  List.find (active_of userId) (timers (store w2)) = Some t →
  let d := Math_round (inject_Z (T1 - Timer.startTime t) / inject_Z 60000) in
  (∃ t' c w1',
      timerSchema.complete t notes w1 = (Ok (t', (d, c)), w1')
      ∧ Timer.endTime t' = Some T1 ∧ Timer.duration t' = d
      ∧ ∀ x, x ∈ timers (store w1') → Timer._id x = Timer._id t → Timer.duration x = d)
  ∧ (∃ v w2',
      timerService.getActiveTimer userId w2 = (Ok (Some v), w2')
      ∧ View.a_duration v = d)
  ∧ 0 ≤ d
  ∧ 60000 * d - 30000 ≤ T1 - Timer.startTime t < 60000 * d + 30000
  ∧ (∃ ms, Math_round (inject_Z ms / inject_Z 60000) ≠ Qfloor (inject_Z ms / inject_Z 60000))
  ∧ (∃ ms, Math_round (inject_Z ms / inject_Z 60000) ≠ Qceiling (inject_Z ms / inject_Z 60000)).
Proof.
  intros Hend Hle Hnotes H1 H2 Hfind d.
  pose proof (Math_round_nearest (T1 - Timer.startTime t) 60000 ltac:(lia)) as Hnear.
  simpl in Hnear. fold d in Hnear.
  split; [|split; [|split; [|split; [|split]]]].
  - unfold timerSchema.complete, timerSchema.calculateDuration, newDate, Task_findById,
      Timer_save, put_store. run. rewrite H1.
    rewrite bool_decide_eq_false_2 by lia.
    eexists _, _, _. split; [reflexivity|]. simpl. repeat split.
    intros x Hx Hid. by rewrite (replace_doc_same_id _ _ _ _ Hx Hid).
  - unfold timerService.getActiveTimer, Timer_findOne, timerSchema.calculateDuration,
      Task_findById, newDate. run. rewrite Hfind, Hend. simpl. rewrite H2.
    eexists _, _. split; [reflexivity|]. done.
  - lia.
  - lia.
  - exists 40000. by vm_compute.
  - exists 20000. by vm_compute.
Qed.

Lemma C4_duration_rounding_witness :
  ∃ v w', timerService.getActiveTimer "u1" Demo.w_running = (Ok (Some v), w')
          ∧ View.a_duration v = 17.
Proof.
  destruct (C4_duration_rounding Demo.running "u1" "" Demo.w_running Demo.w_running
              1000000 eq_refl ltac:(simpl; lia) ltac:(simpl; lia) eq_refl eq_refl eq_refl)
    as (_ & (v & w' & Hrun & Hd) & _).
  exists v, w'. split; [exact Hrun|]. rewrite Hd. by vm_compute.
Defined.

(** ** User statistics *)




(** ** Task completion *)

(** C7. [markAsCompleted] appends the entry
    [{ user, completedAt: now, timeSpent, completedOnTime }] to
    [completedBy]; when the status is not yet 'completed' it sets the status
    to 'completed' and [completedAt] to now, otherwise it leaves both as they
    are; [activeTimers] becomes [max(0, activeTimers - 1)]; the task is
    saved. A further completion, by any user, appends one more entry and
    changes neither status nor [completedAt]. *)
Theorem C7_mark_as_completed (this : Task.t) (userId : Id) (timeSpent : Z) (w : World) :
  let now := clock w (tick w) in
  ∃ this' w',
    taskSchema.markAsCompleted this userId timeSpent w
    = (Ok (this', (timeSpent, bool_decide (now ≤ Task.dueDate this))), w')
    ∧ Task.completedBy this'
      = Task.completedBy this
        ++ [Completion.mk userId now timeSpent (bool_decide (now ≤ Task.dueDate this))]
    ∧ (Task.status this ≠ completed →
       Task.status this' = completed ∧ Task.completedAt this' = Some now)
    ∧ (Task.status this = completed →
       Task.status this' = completed ∧ Task.completedAt this' = Task.completedAt this)
    ∧ Task.activeTimers this' = Z.max 0 (Task.activeTimers this - 1)
    ∧ tasks (store w') = replace_doc Task._id this' (tasks (store w))
    ∧ (∀ (other : Id) (timeSpent2 : Z) (w2 : World),
         ∃ this'' w2',
           taskSchema.markAsCompleted this' other timeSpent2 w2
           = (Ok (this'', (timeSpent2,
                           bool_decide (clock w2 (tick w2) ≤ Task.dueDate this'))), w2')
           ∧ Task.completedBy this''
             = Task.completedBy this'
               ++ [Completion.mk other (clock w2 (tick w2)) timeSpent2
                     (bool_decide (clock w2 (tick w2) ≤ Task.dueDate this'))]
           ∧ Task.status this'' = Task.status this'
           ∧ Task.completedAt this'' = Task.completedAt this').
Proof.
  intros now.
  unfold taskSchema.markAsCompleted, newDate, Task_save, put_store. run.
  eexists _, _. split; [reflexivity|]. simpl.
  split; [done|]. split; [|split; [|split; [done|split; [done|]]]].
  - intros Hs. by rewrite bool_decide_eq_false_2.
  - intros Hs. by rewrite bool_decide_eq_true_2.
  - intros other timeSpent2 w2. eexists _, _. split; [reflexivity|]. simpl.
    split; [done|].
    destruct (bool_decide (Task.status this = completed)) eqn:E; simpl.
    + apply bool_decide_eq_true_1 in E. rewrite E. done.
    + done.
Qed.

Lemma C7_mark_as_completed_witness :
  ∃ this' w',
    taskSchema.markAsCompleted Demo.task1 "u1" 10 Demo.w0 = (Ok (this', (10, true)), w')
    ∧ Task.status this' = completed ∧ Task.completedAt this' = Some 1000000.
Proof.
  destruct (C7_mark_as_completed Demo.task1 "u1" 10 Demo.w0)
    as (this' & w' & Hrun & _ & Hfresh & _).
  destruct (Hfresh ltac:(discriminate)) as [Hs Hc].
  exists this', w'. split; [exact Hrun|]. split; [exact Hs|exact Hc].
Defined.

(** ** Stepping through a request *)

Lemma find_elem {A} (q : A → bool) (l : list A) (x : A) :
  List.find q l = Some x → x ∈ l ∧ q x = true.
Proof.
  intros H. apply List.find_some in H as [H1 H2]. split; [|done].
  by apply list_elem_of_In.
Qed.

Lemma bind_run {A B} (m : M A) (f : A → M B) (w : World) :
  (m ≫= f) w = match m w with
               | (Ok a, w') => f a w'
               | (Throw e, w') => (Throw e, w')
               end.
Proof. reflexivity. Qed.

Section keeps.
Context {A B : Type}.

Lemma keeps_ret (a : A) : keeps_timers (mret a).
Proof. by intros w. Qed.

Lemma keeps_throw (e : Exn) : keeps_timers (throw (A:=A) e).
Proof. by intros w. Qed.

Lemma keeps_bind (m : M A) (f : A → M B) :
  keeps_timers m → (∀ a, keeps_timers (f a)) → keeps_timers (m ≫= f).
Proof.
  intros Hm Hf w. rewrite bind_run. specialize (Hm w).
  destruct (m w) as [[a|e] w']; simpl in *; [|done].
  by rewrite Hf.
Qed.

Lemma keeps_try_catch (m : M A) (h : Exn → M A) :
  keeps_timers m → (∀ e, keeps_timers (h e)) → keeps_timers (try_catch m h).
Proof.
  intros Hm Hh w. unfold try_catch. specialize (Hm w).
  destruct (m w) as [[a|e] w']; simpl in *; [done|].
  by rewrite Hh.
Qed.
End keeps.

Lemma keeps_get_store : keeps_timers get_store.
Proof. by intros w. Qed.
Lemma keeps_newDate : keeps_timers newDate.
Proof. by intros w. Qed.
Lemma keeps_newObjectId : keeps_timers newObjectId.
Proof. by intros w. Qed.
Lemma keeps_logger l msg : keeps_timers (logger l msg).
Proof. by intros w. Qed.
Lemma keeps_getRedisClient : keeps_timers getRedisClient.
Proof. intros w. unfold getRedisClient. by case_match. Qed.
Lemma keeps_redis_command {A} (run : Z → gmap string Redis.entry → A * gmap string Redis.entry) :
  keeps_timers (redis_command run).
Proof. intros w. unfold redis_command. repeat case_match; done. Qed.
Lemma keeps_Task_save d : keeps_timers (Task_save d).
Proof. by intros w. Qed.
Lemma keeps_User_save_stats d : keeps_timers (User_save_stats d).
Proof. by intros w. Qed.
Lemma keeps_Group_save d : keeps_timers (Group_save d).
Proof. by intros w. Qed.

Ltac keeps :=
  repeat first
    [ apply keeps_ret | apply keeps_throw | apply keeps_get_store | apply keeps_newDate
    | apply keeps_newObjectId | apply keeps_logger | apply keeps_getRedisClient
    | apply keeps_redis_command | apply keeps_Task_save | apply keeps_User_save_stats
    | apply keeps_Group_save | apply keeps_try_catch | apply keeps_bind
    | progress intros | case_match ].

Lemma keeps_Task_findById id : keeps_timers (Task_findById id).
Proof. unfold Task_findById. keeps. Qed.
Lemma keeps_User_findById id : keeps_timers (User_findById id).
Proof. unfold User_findById. keeps. Qed.
Lemma keeps_Group_findById id : keeps_timers (Group_findById id).
Proof. unfold Group_findById. keeps. Qed.
Lemma keeps_Timer_findOne q : keeps_timers (Timer_findOne q).
Proof. unfold Timer_findOne. keeps. Qed.
Lemma keeps_calculateDuration t : keeps_timers (timerSchema.calculateDuration t).
Proof. unfold timerSchema.calculateDuration. keeps. Qed.
Lemma keeps_markAsCompleted this u d : keeps_timers (taskSchema.markAsCompleted this u d).
Proof. unfold taskSchema.markAsCompleted. keeps. Qed.
Lemma keeps_task_startTimer this : keeps_timers (taskSchema.startTimer this).
Proof. unfold taskSchema.startTimer. keeps. Qed.
Lemma keeps_user_updateStats this d c : keeps_timers (userSchema.updateStats this d c).
Proof. unfold userSchema.updateStats. keeps. Qed.
Lemma keeps_group_updateStats this d : keeps_timers (groupSchema.updateStats this d).
Proof. unfold groupSchema.updateStats. keeps. Qed.
Lemma keeps_hasAccess task u : keeps_timers (timerService.hasAccess task u).
Proof. unfold timerService.hasAccess. keeps; apply keeps_Group_findById. Qed.

Ltac keeps_all :=
  repeat first
    [ apply keeps_ret | apply keeps_throw | apply keeps_get_store | apply keeps_newDate
    | apply keeps_newObjectId | apply keeps_logger | apply keeps_getRedisClient
    | apply keeps_redis_command | apply keeps_Task_save | apply keeps_User_save_stats
    | apply keeps_Group_save | apply keeps_Task_findById | apply keeps_User_findById
    | apply keeps_Group_findById | apply keeps_Timer_findOne | apply keeps_calculateDuration
    | apply keeps_markAsCompleted | apply keeps_task_startTimer
    | apply keeps_user_updateStats | apply keeps_group_updateStats | apply keeps_hasAccess
    | apply keeps_try_catch | apply keeps_bind
    | progress intros | case_match ].

Lemma Timer_findOne_run q w :
  Timer_findOne q w = (Ok (List.find q (timers (store w))), w).
Proof. reflexivity. Qed.

Lemma Task_findById_run id w :
  Task_findById id w
  = (Ok (List.find (λ t, bool_decide (Task._id t = id)) (tasks (store w))), w).
Proof. reflexivity. Qed.

Lemma hasAccess_run task userId w :
  ∃ b, timerService.hasAccess task userId w = (Ok b, w).
Proof.
  unfold timerService.hasAccess, Group_findById. run.
  repeat case_match; simpl; eauto.
Qed.

(** [complete] with notes of more than 500 characters throws the
    validation error and stores nothing. *)
Lemma complete_rejects (this : Timer.t) (notes : string) (w : World) :
  (500 < String.length notes)%nat →
  timerSchema.complete this notes w
  = (Throw NotesTooLong,
     mkWorld (store w) (redis w) (logs w) (clock w) (S (tick w)) (oids w) (minted w)).
Proof.
  intros Hlong.
  unfold timerSchema.complete, timerSchema.calculateDuration, newDate, Task_findById,
    Timer_save, put_store. run.
  by rewrite bool_decide_eq_true_2.
Qed.

Lemma complete_run (this : Timer.t) (notes : string) (w : World) :
  (String.length notes ≤ 500)%nat →
  ∃ this' d c w',
    timerSchema.complete this notes w = (Ok (this', (d, c)), w')
    ∧ Timer._id this' = Timer._id this
    ∧ Timer.isActive this' = false
    ∧ Timer.isCompleted this' = true
    ∧ Timer.endTime this' = Some (clock w (tick w))
    ∧ Timer.completedOnTime this' = c
    ∧ c = match List.find (λ x, bool_decide (Task._id x = Timer.task this))
                          (tasks (store w)) with
          | Some task => bool_decide (clock w (tick w) ≤ Task.dueDate task)
          | None => Timer.completedOnTime this
          end
    ∧ timers (store w') = replace_doc Timer._id this' (timers (store w)).
Proof.
  intros Hshort.
  unfold timerSchema.complete, timerSchema.calculateDuration, newDate, Task_findById,
    Timer_save, put_store. run.
  rewrite bool_decide_eq_false_2 by lia.
  eexists _, _, _, _. split; [reflexivity|]. done.
Qed.

(** The run of the part of a request that creates the timer. *)
Lemma insert_run (t : Timer.t) (w : World) :
  (Timer._id t ∈ Timer._id <$> timers (store w)
   ∧ Timer_insert t w = (Throw DuplicateKey, w))
  ∨ ((Timer._id t ∉ (Timer._id <$> timers (store w)))
     ∧ ∃ w', Timer_insert t w = (Ok (), w')
             ∧ timers (store w') = timers (store w) ++ [t]).
Proof.
  unfold Timer_insert. run. case_bool_decide; [left|right]; eauto.
Qed.

Lemma newDate_run w : ∃ w', newDate w = (Ok (clock w (tick w)), w') ∧ store w' = store w.
Proof. eexists. split; [reflexivity|done]. Qed.

Lemma newObjectId_run w :
  ∃ w', newObjectId w = (Ok (oids w (minted w)), w') ∧ store w' = store w.
Proof. eexists. split; [reflexivity|done]. Qed.

Ltac step_with E := rewrite bind_run, E; lazy beta iota.

Lemma create_timer_writes {A} (g : bool) (t : Z → Id → Timer.t) (k : M A) (w : World) :
  (∀ now oid, Timer.isActive (t now oid) = true ∧ Timer._id (t now oid) = oid) →
  (g = true → ∀ now oid, List.find (active_of (Timer.user (t now oid))) (timers (store w)) = None) →
  keeps_timers k →
  TimerWrite g (timers (store w))
    (timers (store ((now ← newDate; oid ← newObjectId; (Timer_insert (t now oid);; k)) w).2)).
Proof.
  intros Ht Hg Hk.
  destruct (newDate_run w) as (w1 & E1 & Hs1). step_with E1.
  destruct (newObjectId_run w1) as (w2 & E2 & Hs2). step_with E2.
  rewrite bind_run.
  destruct (insert_run (t (clock w (tick w)) (oids w1 (minted w1))) w2)
    as [[_ ->]|(Hfresh & w3 & -> & Hw3)]; lazy beta iota.
  - simpl. rewrite Hs2, Hs1. constructor.
  - rewrite Hk, Hw3. rewrite Hs2, Hs1 in *.
    destruct (Ht (clock w (tick w)) (oids w1 (minted w1))) as [Ha Hid].
    apply tw_insert; auto.
Qed.

Lemma startTimer_writes taskId userId w :
  TimerWrite true (timers (store w))
    (timers (store (timerService.startTimer taskId userId w).2)).
Proof.
  unfold timerService.startTimer.
  step_with Timer_findOne_run.
  destruct (List.find (active_of userId) _) eqn:Hact; [constructor|].
  step_with Task_findById_run.
  destruct (List.find _ (tasks _)) as [task|]; [|constructor].
  destruct (_ || _); [constructor|].
  destruct (hasAccess_run task userId w) as [b Hb]. step_with Hb.
  destruct b; [|constructor]. cbn [negb].
  apply (create_timer_writes true
           (λ now oid, Timer.mk oid taskId userId (Task.group task) now None 0 true false
                                false None)).
  - done.
  - done.
  - keeps_all.
Qed.

Lemma complete_then_writes {A} (g : bool) (timer : Timer.t) (notes : string)
    (k : Timer.t * (Z * bool) → M A) (w : World) :
  timer ∈ timers (store w) → Timer.isActive timer = true →
  (∀ r, keeps_timers (k r)) →
  TimerWrite g (timers (store w))
    (timers (store ((timerSchema.complete timer notes ≫= k) w).2)).
Proof.
  intros Hin Ha Hk.
  destruct (le_lt_dec (String.length notes) 500) as [Hshort|Hlong].
  - destruct (complete_run timer notes w Hshort)
      as (t' & d & c & w1 & E & Hid & Hina & _ & _ & _ & _ & Hw1).
    step_with E. rewrite Hk, Hw1. by eapply tw_complete.
  - step_with (complete_rejects timer notes w Hlong). constructor.
Qed.

Lemma completeTimer_writes userId notes w :
  TimerWrite true (timers (store w))
    (timers (store (timerService.completeTimer userId notes w).2)).
Proof.
  unfold timerService.completeTimer.
  step_with Timer_findOne_run.
  destruct (List.find (active_of userId) _) as [timer|] eqn:Hact; [|constructor].
  apply find_elem in Hact as [Hin Hq].
  apply andb_true_iff in Hq as [_ Hactive].
  step_with Task_findById_run.
  destruct (List.find _ (tasks _)) as [task|]; [|constructor].
  apply complete_then_writes; [done..|].
  keeps_all.
Qed.

Lemma try_catch_timers {A} (m : M A) (h : Exn → M A) (w : World) :
  (∀ e, keeps_timers (h e)) →
  timers (store (try_catch m h w).2) = timers (store (m w).2).
Proof.
  intros Hh. unfold try_catch. destruct (m w) as [[a|e] w']; simpl; [done|].
  by rewrite Hh.
Qed.

Lemma socket_start_writes socketUser taskId w :
  TimerWrite false (timers (store w))
    (timers (store (timerHandler.timer_start socketUser taskId w).2)).
Proof.
  unfold timerHandler.timer_start.
  rewrite try_catch_timers by keeps_all.
  step_with Task_findById_run.
  destruct (List.find _ (tasks _)) as [task|]; [|constructor].
  destruct (_ || _); [constructor|].
  apply (create_timer_writes false
           (λ now oid, Timer.mk oid taskId socketUser (Task.group task) now None 0 true false
                                false None)).
  - done.
  - done.
  - keeps_all.
Qed.

Lemma getRedisClient_run w :
  getRedisClient w = (Ok (), w) ∨ getRedisClient w = (Throw RedisNotInitialized, w).
Proof. unfold getRedisClient. case_match; auto. Qed.

Lemma redis_command_run {A} (run : Z → gmap string Redis.entry → A * gmap string Redis.entry) w :
  ∃ r w', redis_command run w = (r, w') ∧ store w' = store w.
Proof.
  unfold redis_command. repeat case_match; eexists _, _; (split; [reflexivity|done]).
Qed.

Lemma Timer_findById_run id w :
  Timer_findById id w
  = (Ok (List.find (λ t, bool_decide (Timer._id t = id)) (timers (store w))), w).
Proof. reflexivity. Qed.

Lemma socket_complete_writes socketUser taskId notes w :
  TimerWrite false (timers (store w))
    (timers (store (timerHandler.timer_complete socketUser taskId notes w).2)).
Proof.
  unfold timerHandler.timer_complete. cbv zeta.
  rewrite try_catch_timers by keeps_all.
  rewrite bind_run.
  destruct (getRedisClient_run w) as [-> | ->]; lazy beta iota; [|constructor].
  rewrite bind_run. unfold redis_get.
  destruct (redis_command_run
              (λ (now : Z) (d : gmap string Redis.entry),
                 (visible now d (timer_key (User._id socketUser) taskId), d)) w)
    as (r & w1 & -> & Hs1).
  rewrite <- Hs1.
  destruct r as [[[timerId|rows]|]|e]; lazy beta iota; try constructor.
  case_bool_decide; [constructor|].
  step_with Timer_findById_run.
  destruct (List.find _ (timers _)) as [timer|] eqn:Hfind; [|constructor].
  apply find_elem in Hfind as [Hin _].
  destruct (Timer.isActive timer) eqn:Hactive; cbn [negb]; [|constructor].
  apply complete_then_writes; [done..|].
  keeps_all.
Qed.

Lemma getActiveTimer_reads userId w :
  store (timerService.getActiveTimer userId w).2 = store w
  ∧ redis (timerService.getActiveTimer userId w).2 = redis w.
Proof.
  unfold timerService.getActiveTimer, Timer_findOne, Task_findById,
    timerSchema.calculateDuration, newDate. run.
  repeat case_match; simpl; simplify_eq/=; done.
Qed.

Lemma listTaskTimers_reads taskId userId page limit w :
  (timerService.listTaskTimers taskId userId page limit w).2 = w.
Proof.
  unfold timerService.listTaskTimers.
  step_with Task_findById_run.
  destruct (List.find _ _) as [task|]; [|done].
  destruct (hasAccess_run task userId w) as [b Hb]. step_with Hb.
  by destruct b.
Qed.

Lemma exec_writes (r : Request) (w : World) :
  TimerWrite (is_service r) (timers (store w)) (timers (store (exec r w))).
Proof.
  destruct r; simpl.
  - apply startTimer_writes.
  - apply completeTimer_writes.
  - destruct (getActiveTimer_reads userId w) as [-> _]. constructor.
  - rewrite listTaskTimers_reads. constructor.
  - apply socket_start_writes.
  - apply socket_complete_writes.
Qed.

Lemma replace_doc_ids (d : Timer.t) (l : list Timer.t) :
  Timer._id <$> replace_doc Timer._id d l = Timer._id <$> l.
Proof.
  unfold replace_doc. rewrite <- list_fmap_compose. apply list_fmap_ext.
  intros i x _. simpl. by case_bool_decide.
Qed.

Lemma TimerWrite_unique g l l' :
  TimerWrite g l l' → NoDup (Timer._id <$> l) → NoDup (Timer._id <$> l').
Proof.
  destruct 1 as [|t Hfresh _ _|t0 d _ _ _ _]; intros Hnd.
  - done.
  - rewrite fmap_app. apply NoDup_app. split; [done|]. split.
    + intros x Hx Hx'. apply list_elem_of_singleton in Hx'. by subst x.
    + apply NoDup_singleton.
  - by rewrite replace_doc_ids.
Qed.

Lemma NoDup_fmap_eq {A B} (f : A → B) (l : list A) (x y : A) :
  NoDup (f <$> l) → x ∈ l → y ∈ l → f x = f y → x = y.
Proof.
  induction l as [|a l IH]; simpl; intros Hnd Hx Hy Hf.
  - by apply elem_of_nil in Hx.
  - apply NoDup_cons in Hnd as [Ha Hnd].
    apply elem_of_cons in Hx as [->|Hx]; apply elem_of_cons in Hy as [->|Hy].
    + done.
    + exfalso. apply Ha. rewrite Hf. by apply list_elem_of_fmap_2.
    + exfalso. apply Ha. rewrite <- Hf. by apply list_elem_of_fmap_2.
    + by apply IH.
Qed.


Lemma filter_replace_inactive (u : Id) (d : Timer.t) (l : list Timer.t) :
  Timer.isActive d = false →
  (length (List.filter (active_of u) (replace_doc Timer._id d l))
   ≤ length (List.filter (active_of u) l))%nat.
Proof.
  intros Hd. induction l as [|x l IH]; simpl; [done|].
  case_bool_decide.
  - unfold active_of at 1. rewrite Hd, andb_false_r.
    destruct (active_of u x); simpl; lia.
  - destruct (active_of u x); simpl; lia.
Qed.

Lemma find_none_filter {A} (q : A → bool) (l : list A) :
  List.find q l = None → List.filter q l = [].
Proof.
  induction l as [|x l IH]; simpl; [done|]. destruct (q x); [done|]. apply IH.
Qed.

Lemma TimerWrite_at_most_one l l' :
  TimerWrite true l l' →
  (∀ u, (length (List.filter (active_of u) l) ≤ 1)%nat) →
  ∀ u, (length (List.filter (active_of u) l') ≤ 1)%nat.
Proof.
  destruct 1 as [|t _ _ Hnone|t0 d _ _ _ Hina]; intros H u.
  - done.
  - rewrite List.filter_app, length_app. simpl.
    unfold active_of at 2. case_bool_decide as Hu; simpl.
    + subst u. rewrite (find_none_filter _ _ (Hnone eq_refl)).
      destruct (Timer.isActive t); simpl; lia.
    + specialize (H u). lia.
  - pose proof (filter_replace_inactive u d l Hina). specialize (H u). lia.
Qed.

(** The timer service, run one request at a time, keeps at most one active
    timer per user. *)
Lemma service_preserves_AtMostOneActive (r : Request) (w : World) :
  is_service r = true → AtMostOneActive w → AtMostOneActive (exec r w).
Proof.
  intros Hr Hw. pose proof (exec_writes r w) as Hwr. rewrite Hr in Hwr.
  exact (TimerWrite_at_most_one _ _ Hwr Hw).
Qed.

Lemma service_reachable_AtMostOneActive (rs : list Request) (w : World) :
  Forall (λ r, is_service r = true) rs → AtMostOneActive w →
  AtMostOneActive (exec_all rs w).
Proof.
  intros Hrs. revert w. induction Hrs as [|r rs Hr _ IH]; intros w Hw; simpl; [done|].
  apply IH. by apply service_preserves_AtMostOneActive.
Qed.

Lemma exec_unique (r : Request) (w : World) :
  UniqueTimerIds w → UniqueTimerIds (exec r w).
Proof. apply (TimerWrite_unique _ _ _ (exec_writes r w)). Qed.





(** ** At most one active timer per user *)

(** C1. The four operations of the timer service, run one request at a
    time, keep at most one active timer per user. The invariant does not
    hold in every reachable state, though: the socket event 'timer:start'
    creates a timer without looking for an active one, so two such events of
    one user, each acknowledged as a success, leave that user with two
    active timers. *)
Theorem C1_at_most_one_active_timer :
  (∀ (rs : list Request) (w : World),
     Forall (λ r, is_service r = true) rs →
     AtMostOneActive w → AtMostOneActive (exec_all rs w))
  ∧ (let w1 := exec (SocketTimerStart "u1" "t1") Demo.w0 in
     let w2 := exec (SocketTimerStart "u1" "t2") w1 in
     AtMostOneActive Demo.w0
     ∧ (timerHandler.timer_start "u1" "t1" Demo.w0).1
       = Ok (timerHandler.Started "timer0" "t1" "u1" 1000000)
     ∧ (timerHandler.timer_start "u1" "t2" w1).1
       = Ok (timerHandler.Started "timer1" "t2" "u1" 1600000)
     ∧ length (activeTimers "u1" w2) = 2%nat
     ∧ ¬ AtMostOneActive w2).
Proof.
  split; [exact service_reachable_AtMostOneActive|].
  intros w1 w2. split; [|split; [|split; [|split]]].
  - intros u. simpl. lia.
  - by vm_compute.
  - by vm_compute.
  - by vm_compute.
  - intros H. specialize (H "u1"). vm_compute in H. lia.
Qed.

Lemma C1_at_most_one_active_timer_witness :
  AtMostOneActive (exec_all [StartTimer "t1" "u1"; StartTimer "t2" "u1";
                             CompleteTimer "u1" ""; StartTimer "t2" "u1"] Demo.w0).
Proof.
  destruct C1_at_most_one_active_timer as [Hservice _].
  apply Hservice.
  - repeat constructor.
  - intros u. simpl. lia.
Defined.

(** ** The completed timer is final *)



(** ** A rejected Redis command *)

Section quiet.
Context {A B : Type}.

Lemma quiet_ret (a : A) : quiet (mret a).
Proof. by intros w. Qed.

Lemma quiet_throw (e : Exn) : quiet (throw (A:=A) e).
Proof. by intros w. Qed.

Lemma quiet_bind (m : M A) (f : A → M B) :
  quiet m → (∀ a, quiet (f a)) → quiet (m ≫= f).
Proof.
  intros Hm Hf w. rewrite !bind_run. destruct (Hm w) as (Hr & Hl & ->).
  destruct (m w) as [[a|e] w']; simpl in *; [|done].
  destruct (Hf a w') as (Hr' & Hl' & Hh). rewrite Hr', Hl'. done.
Qed.

Lemma aborts_throw (e : Exn) : aborts_on_outage (throw (A:=A) e).
Proof. intros w _ v wh H. discriminate H. Qed.

Lemma aborts_bind (m : M A) (f : A → M B) :
  quiet m → (∀ a, aborts_on_outage (f a)) → aborts_on_outage (m ≫= f).
Proof.
  intros Hm Hf w Hout v wh. rewrite !bind_run. destruct (Hm w) as (Hr & Hl & ->).
  destruct (m w) as [[a|e] w']; simpl in *; [|done].
  intros Hrun. rewrite <- Hr in Hout.
  destruct (Hf a w' Hout v wh Hrun) as (w'' & -> & Hs & Hd & Hlg).
  exists w''. by rewrite Hd, Hlg, Hr, Hl.
Qed.

Lemma aborts_command (run : Z → gmap string Redis.entry → A * gmap string Redis.entry)
    (k : A → M B) :
  (∀ a w, store (k a w).2 = store w) →
  aborts_on_outage (redis_command run ≫= k).
Proof.
  intros Hk w Hout v wh. rewrite !bind_run. unfold redis_command at 2. rewrite Hout.
  intros Hrun. eexists. split; [reflexivity|]. simpl. split; [|done].
  revert Hrun. unfold redis_command. simpl.
  destruct (run _ _) as [a d]. intros Hrun.
  specialize (Hk a). apply (f_equal snd) in Hrun. simpl in Hrun.
  rewrite <- Hrun, Hk. done.
Qed.
End quiet.

Lemma quiet_get_store : quiet get_store.
Proof. by intros w. Qed.
Lemma quiet_put_store s : quiet (put_store s).
Proof. by intros w. Qed.
Lemma quiet_newDate : quiet newDate.
Proof. by intros w. Qed.
Lemma quiet_newObjectId : quiet newObjectId.
Proof. by intros w. Qed.
Lemma quiet_getRedisClient : quiet getRedisClient.
Proof. intros w. unfold getRedisClient. simpl. by case_match. Qed.

Ltac quiet :=
  repeat first
    [ apply quiet_ret | apply quiet_throw | apply quiet_get_store | apply quiet_put_store
    | apply quiet_newDate | apply quiet_newObjectId | apply quiet_getRedisClient
    | apply quiet_bind | progress intros | case_match ].

Lemma quiet_Timer_findOne q : quiet (Timer_findOne q).
Proof. unfold Timer_findOne. quiet. Qed.
Lemma quiet_Timer_insert d : quiet (Timer_insert d).
Proof. unfold Timer_insert. quiet. Qed.
Lemma quiet_Task_findById id : quiet (Task_findById id).
Proof. unfold Task_findById. quiet. Qed.
Lemma quiet_Task_save d : quiet (Task_save d).
Proof. unfold Task_save. quiet. Qed.
Lemma quiet_User_findById id : quiet (User_findById id).
Proof. unfold User_findById. quiet. Qed.
Lemma quiet_Group_findById id : quiet (Group_findById id).
Proof. unfold Group_findById. quiet. Qed.
Lemma quiet_complete t notes : quiet (timerSchema.complete t notes).
Proof.
  unfold timerSchema.complete, timerSchema.calculateDuration, Task_findById, Timer_save.
  quiet.
Qed.
Lemma quiet_markAsCompleted this u d : quiet (taskSchema.markAsCompleted this u d).
Proof. unfold taskSchema.markAsCompleted, Task_save. quiet. Qed.
Lemma quiet_task_startTimer this : quiet (taskSchema.startTimer this).
Proof. unfold taskSchema.startTimer, Task_save. quiet. Qed.
Lemma quiet_user_updateStats this d c : quiet (userSchema.updateStats this d c).
Proof. unfold userSchema.updateStats, User_save_stats. quiet. Qed.
Lemma quiet_group_updateStats this d : quiet (groupSchema.updateStats this d).
Proof. unfold groupSchema.updateStats, Group_save. quiet. Qed.
Lemma quiet_hasAccess task u : quiet (timerService.hasAccess task u).
Proof. unfold timerService.hasAccess, Group_findById. quiet. Qed.

Ltac quiet_all :=
  repeat first
    [ apply quiet_ret | apply quiet_throw | apply quiet_getRedisClient
    | apply quiet_newDate | apply quiet_newObjectId
    | apply quiet_Timer_findOne | apply quiet_Timer_insert | apply quiet_Task_findById
    | apply quiet_Task_save | apply quiet_User_findById | apply quiet_Group_findById
    | apply quiet_complete | apply quiet_markAsCompleted | apply quiet_task_startTimer
    | apply quiet_user_updateStats | apply quiet_group_updateStats | apply quiet_hasAccess
    | apply quiet_bind | progress intros | case_match ].

Ltac aborts :=
  repeat first
    [ apply aborts_throw
    | apply aborts_command; intros; reflexivity
    | apply aborts_bind; [solve [quiet_all]|]
    | progress intros | case_match ].

Lemma startTimer_aborts taskId userId :
  aborts_on_outage (timerService.startTimer taskId userId).
Proof. unfold timerService.startTimer, redis_set. aborts. Qed.

Lemma completeTimer_aborts userId notes :
  aborts_on_outage (timerService.completeTimer userId notes).
Proof. unfold timerService.completeTimer, redis_del. aborts. Qed.

(** C8, as the code has it. When Redis rejects the command that ends
    [startTimer] (set) or [completeTimer] (del), a run that would have
    succeeded throws the Redis error to its caller. The store updates of the
    successful run have all been made by then; the Redis keys are as before
    and the service writes no log line. *)
Theorem C8_cache_failure_propagates (taskId userId : Id) (notes : string) (w : World) :
  Redis.outage (redis w) (Redis.sent (redis w)) = true →
  (∀ v wh, timerService.startTimer taskId userId (heal w) = (Ok v, wh) →
     ∃ w', timerService.startTimer taskId userId w = (Throw RedisError, w')
           ∧ store w' = store wh
           ∧ Redis.data (redis w') = Redis.data (redis w)
           ∧ logs w' = logs w)
  ∧ (∀ v wh, timerService.completeTimer userId notes (heal w) = (Ok v, wh) →
     ∃ w', timerService.completeTimer userId notes w = (Throw RedisError, w')
           ∧ store w' = store wh
           ∧ Redis.data (redis w') = Redis.data (redis w)
           ∧ logs w' = logs w).
Proof.
  intros Hout. split; intros v wh Hrun.
  - exact (startTimer_aborts taskId userId w Hout v wh Hrun).
  - exact (completeTimer_aborts userId notes w Hout v wh Hrun).
Qed.

Lemma C8_cache_failure_propagates_witness :
  ∃ w', timerService.startTimer "t1" "u1" Demo.w_down = (Throw RedisError, w')
        ∧ length (timers (store w')) = 1%nat
        ∧ logs w' = [].
Proof.
  destruct (C8_cache_failure_propagates "t1" "u1" "" Demo.w_down eq_refl) as [Hstart _].
  destruct (timerService.startTimer "t1" "u1" (heal Demo.w_down)) as [[v|e] wh] eqn:E;
    vm_compute in E; [|discriminate E].
  destruct (Hstart v wh eq_refl) as (w' & Hrun & Hs & _ & Hl).
  injection E as _ <-.
  exists w'. split; [exact Hrun|]. split; [by rewrite Hs|exact Hl].
Defined.

(** C8, as the spec has it, fails: with a Redis server that rejects its
    commands, [startTimer] and [completeTimer] end in the Redis error instead
    of a result, and nothing is logged; with a healthy server the same
    requests succeed. *)
Lemma C8_cache_failure_not_tolerated :
  (∃ v, (timerService.startTimer "t1" "u1" Demo.w0).1 = Ok v)
  ∧ (timerService.startTimer "t1" "u1" Demo.w_down).1 = Throw RedisError
  ∧ logs (timerService.startTimer "t1" "u1" Demo.w_down).2 = []
  ∧ (∃ v, (timerService.completeTimer "u1" "" Demo.w_running).1 = Ok v)
  ∧ (timerService.completeTimer "u1" "" Demo.w_running_down).1 = Throw RedisError
  ∧ logs (timerService.completeTimer "u1" "" Demo.w_running_down).2 = [].
Proof.
  split; [eexists; by vm_compute|]. split; [by vm_compute|]. split; [by vm_compute|].
  split; [eexists; by vm_compute|]. split; by vm_compute.
Qed.

(** ** The leaderboard cache *)

Lemma global_hit (timeFrame : string) (limit : Z) (w : World) (rows : list Row.t) :
  Redis.ready (redis w) = true →
  Redis.outage (redis w) (Redis.sent (redis w)) = false →
  visible (clock w (tick w + filter_ticks timeFrame)) (Redis.data (redis w))
          (cacheKey timeFrame) = Some (VBoard rows) →
  ∃ w', generateGlobalLeaderboard timeFrame limit w = (Ok (slice0 rows limit), w')
        ∧ store w' = store w
        ∧ Redis.data (redis w') = Redis.data (redis w)
        ∧ logs w' = logs w.
Proof.
  intros Hready Hout Hlive.
  unfold generateGlobalLeaderboard, read_cache, try_catch, redis_get, redis_command,
    getRedisClient, daysAgo, newDate. run.
  unfold filter_ticks, global_since in Hlive.
  repeat case_bool_decide; simpl in *; rewrite Hready; simpl; rewrite Hout; simpl;
    rewrite ?Nat.add_1_r, ?Nat.add_0_r in Hlive; rewrite Hlive; simpl;
    (eexists; split; [reflexivity|done]).
Qed.

Lemma global_miss (timeFrame : string) (limit : Z) (w : World) :
  Redis.ready (redis w) = true →
  0 < limit →
  Redis.outage (redis w) (Redis.sent (redis w)) = false →
  visible (clock w (tick w + filter_ticks timeFrame)) (Redis.data (redis w))
          (cacheKey timeFrame) = None →
  let board := global_board (store w) timeFrame (clock w (tick w)) limit in
  let tset := clock w (tick w + filter_ticks timeFrame) in
  ∃ w', generateGlobalLeaderboard timeFrame limit w = (Ok (slice0 board limit), w')
        ∧ store w' = store w
        ∧ if Redis.outage (redis w) (S (Redis.sent (redis w)))
          then Redis.data (redis w') = Redis.data (redis w)
               ∧ logs w' = logs w ++ [(error, "Error caching leaderboard:")]
          else Redis.data (redis w')
               = <[cacheKey timeFrame := Redis.mkEntry (VBoard board) (Some (tset + 60 * 60 * 1000))]>
                   (Redis.data (redis w))
               ∧ logs w' = logs w.
Proof.
  intros Hready Hlimit Hout Hmiss board tset.
  unfold generateGlobalLeaderboard, read_cache, aggregate, try_catch, redis_get, redis_set,
    redis_command, getRedisClient, daysAgo, newDate, Group_find, Timer_find, User_find,
    logger. run.
  subst board tset. unfold global_board, filter_ticks, global_since in *.
  rewrite (bool_decide_eq_false_2 (limit * 2 ≤ 0)) by lia.
  repeat case_bool_decide; simpl in *; rewrite Hready; simpl; rewrite Hout; simpl;
    rewrite ?Nat.add_1_r, ?Nat.add_0_r in Hmiss; rewrite Hmiss; simpl;
    destruct (Redis.outage (redis w) (S (Redis.sent (redis w)))); simpl.
  all: eexists; split; [reflexivity|].
  all: simpl; rewrite ?Nat.add_1_r, ?Nat.add_0_r; repeat split; reflexivity.
Qed.

Lemma group_ignores_cache (groupId timeFrame : string) (w : World) (r : Redis.t) :
  redis (generateGroupLeaderboard groupId timeFrame w).2 = redis w
  ∧ logs (generateGroupLeaderboard groupId timeFrame w).2 = logs w
  ∧ store (generateGroupLeaderboard groupId timeFrame w).2 = store w
  ∧ (generateGroupLeaderboard groupId timeFrame (with_redis r w)).1
    = (generateGroupLeaderboard groupId timeFrame w).1.
Proof.
  unfold generateGroupLeaderboard, Group_findById, Task_find, Timer_find, User_find,
    daysAgo, newDate. run.
  destruct (List.find _ (groups _)); simpl; [|done].
  repeat case_bool_decide; simpl; done.
Qed.

Lemma slice0_take {A} (l : list A) (n : Z) : 0 ≤ n → slice0 l n = take (Z.to_nat n) l.
Proof. intros Hn. unfold slice0. by rewrite (proj2 (Z.ltb_ge n 0)). Qed.

Lemma visible_expired (now t : Z) (v : CacheVal) (d : gmap string Redis.entry) (key : string) :
  t ≤ now → visible now (<[key := Redis.mkEntry v (Some t)]> d) key = None.
Proof.
  intros Ht. unfold visible. rewrite lookup_insert_eq. unfold live. simpl.
  by rewrite (proj2 (Z.ltb_ge now t)).
Qed.

Lemma visible_fresh (now t : Z) (v : CacheVal) (d : gmap string Redis.entry) (key : string) :
  now < t → visible now (<[key := Redis.mkEntry v (Some t)]> d) key = Some v.
Proof.
  intros Ht. unfold visible. rewrite lookup_insert_eq. unfold live. simpl.
  by rewrite (proj2 (Z.ltb_lt now t)).
Qed.

(** C9. With a Redis server that answers the read,
    [generateGlobalLeaderboard] looks up the key
    "leaderboard:global:<timeFrame>". A hit returns the cached rows cut to
    [limit] and touches neither the store nor the cache. A miss computes the
    rows from the store, returns them cut to [limit], and stores the full
    list under that key with an expiry one hour later: it is served until
    then and gone afterwards. When the write is rejected the same rows are
    returned and the failure is logged. [generateGroupLeaderboard] leaves
    the Redis client untouched and its result does not depend on it. *)
Theorem C9_global_leaderboard_cache (timeFrame : string) (limit : Z) (w : World) :
  Redis.ready (redis w) = true →
  0 < limit →
  Redis.outage (redis w) (Redis.sent (redis w)) = false →
  let key := "leaderboard:global:" +:+ timeFrame in
  let tget := clock w (tick w + filter_ticks timeFrame) in
  let board := global_board (store w) timeFrame (clock w (tick w)) limit in
  (∀ rows, visible tget (Redis.data (redis w)) key = Some (VBoard rows) →
     ∃ w', generateGlobalLeaderboard timeFrame limit w
           = (Ok (take (Z.to_nat limit) rows), w')
           ∧ store w' = store w
           ∧ Redis.data (redis w') = Redis.data (redis w)
           ∧ logs w' = logs w)
  ∧ (visible tget (Redis.data (redis w)) key = None →
     ∃ w', generateGlobalLeaderboard timeFrame limit w
           = (Ok (take (Z.to_nat limit) board), w')
           ∧ store w' = store w
           ∧ if Redis.outage (redis w) (S (Redis.sent (redis w)))
             then Redis.data (redis w') = Redis.data (redis w)
                  ∧ logs w' = logs w ++ [(error, "Error caching leaderboard:")]
             else Redis.data (redis w')
                  = <[key := Redis.mkEntry (VBoard board) (Some (tget + 60 * 60 * 1000))]>
                      (Redis.data (redis w))
                  ∧ logs w' = logs w
                  ∧ (∀ now, now < tget + 60 * 60 * 1000 →
                       visible now (Redis.data (redis w')) key = Some (VBoard board))
                  ∧ (∀ now, tget + 60 * 60 * 1000 ≤ now →
                       visible now (Redis.data (redis w')) key = None))
  ∧ (∀ (groupId : Id) (r : Redis.t),
       redis (generateGroupLeaderboard groupId timeFrame w).2 = redis w
       ∧ (generateGroupLeaderboard groupId timeFrame (with_redis r w)).1
         = (generateGroupLeaderboard groupId timeFrame w).1).
Proof.
  intros Hready Hlimit Hout key tget board. split; [|split].
  - intros rows Hhit.
    destruct (global_hit timeFrame limit w rows Hready Hout Hhit) as (w' & Hrun & H).
    exists w'. by rewrite <- slice0_take by lia.
  - intros Hmiss.
    destruct (global_miss timeFrame limit w Hready Hlimit Hout Hmiss)
      as (w' & Hrun & Hs & H).
    exists w'. rewrite <- slice0_take by lia. split; [done|]. split; [done|].
    destruct (Redis.outage (redis w) (S (Redis.sent (redis w)))); [done|].
    destruct H as [Hd Hl]. split; [done|]. split; [done|].
    fold key tget board in Hd. rewrite Hd. split; intros now Hnow.
    + by apply visible_fresh.
    + by apply visible_expired.
  - intros groupId r.
    destruct (group_ignores_cache groupId timeFrame w r) as (H1 & _ & _ & H2). done.
Qed.

Lemma C9_global_leaderboard_cache_witness :
  (∃ w', generateGlobalLeaderboard "month" 1 Demo.w_cached = (Ok [Demo.row1], w')
         ∧ Redis.data (redis w') = Redis.data (redis Demo.w_cached))
  ∧ (∃ w', generateGlobalLeaderboard "month" 1 Demo.w_flaky = (Ok [], w')
           ∧ logs w' = [(error, "Error caching leaderboard:")]).
Proof.
  split.
  - destruct (C9_global_leaderboard_cache "month" 1 Demo.w_cached eq_refl ltac:(lia)
                eq_refl) as [Hhit _].
    destruct (Hhit [Demo.row1; Demo.row2] eq_refl) as (w' & Hrun & _ & Hd & _).
    exists w'. split; [exact Hrun|exact Hd].
  - destruct (C9_global_leaderboard_cache "month" 1 Demo.w_flaky eq_refl ltac:(lia)
                eq_refl) as (_ & Hmiss & _).
    destruct (Hmiss eq_refl) as (w' & Hrun & _ & _ & Hl).
    exists w'. split; [exact Hrun|exact Hl].
Defined.

(** ** Who appears on a leaderboard *)

Lemma tally_fold_other (u : Id) (l : list Timer.t) (m : gmap string Stats.t) :
  (∀ t, t ∈ l → Timer.user t ≠ u) → foldl tally m l !! u = m !! u.
Proof.
  revert m. induction l as [|t l IH]; intros m H; simpl; [done|].
  rewrite IH.
  - unfold tally. apply lookup_insert_ne. apply H. left.
  - intros t' Ht'. apply H. by right.
Qed.

Lemma tally_fold_some (u : Id) (l : list Timer.t) (m : gmap string Stats.t) (s : Stats.t) :
  foldl tally m l !! u = Some s →
  (∀ s0, m !! u = Some s0 → 1 ≤ Stats.tasksCompleted s0) →
  1 ≤ Stats.tasksCompleted s ∧ (is_Some (m !! u) ∨ ∃ t, t ∈ l ∧ Timer.user t = u).
Proof.
  revert m. induction l as [|t l IH]; intros m Hs Hm; simpl in *.
  - split; [by apply Hm|]. left. by exists s.
  - destruct (IH _ Hs) as [Hge [Hin|(t' & Ht' & Hu)]].
    + intros s0. unfold tally. destruct (decide (Timer.user t = u)) as [->|Hne].
      * rewrite lookup_insert_eq. intros [= <-]. simpl.
        destruct (m !! u) as [s1|] eqn:E; simpl; [specialize (Hm s1 eq_refl)|]; lia.
      * rewrite lookup_insert_ne by done. apply Hm.
    + split; [done|]. unfold tally in Hin.
      destruct (decide (Timer.user t = u)) as [Heq|Hne].
      * right. exists t. split; [left|done].
      * rewrite lookup_insert_ne in Hin by done. by left.
    + split; [done|]. right. exists t'. split; [by right|done].
Qed.

Lemma userMap_lookup (l : list User.t) (m : gmap string User.t) (u : Id) (x : User.t) :
  foldl (λ m user, <[User._id user := user]> m) m l !! u = Some x →
  (∀ y, m !! u = Some y → User._id y = u) → User._id x = u.
Proof.
  revert m. induction l as [|a l IH]; intros m Hx Hm; simpl in *; [by apply Hm|].
  apply (IH _ Hx). intros y.
  destruct (decide (User._id a = u)) as [<-|Hne].
  - rewrite lookup_insert_eq. by intros [= <-].
  - rewrite lookup_insert_ne by done. apply Hm.
Qed.

Lemma elem_of_bfilter {A} (q : A → bool) (l : list A) (x : A) :
  x ∈ List.filter q l ↔ x ∈ l ∧ q x = true.
Proof. rewrite !list_elem_of_In. apply List.filter_In. Qed.

Lemma NoDup_fmap_bfilter {A B} (f : A → B) (q : A → bool) (l : list A) :
  NoDup (f <$> l) → NoDup (f <$> List.filter q l).
Proof.
  induction l as [|a l IH]; simpl; [done|].
  intros [Ha Hnd]%NoDup_cons. destruct (q a); simpl; [|by apply IH].
  apply NoDup_cons. split; [|by apply IH].
  intros (x & Hfx & Hx)%list_elem_of_fmap. apply elem_of_bfilter in Hx as [Hx _].
  apply Ha. rewrite Hfx. by apply list_elem_of_fmap_2.
Qed.

Lemma global_board_rows (s : Store) (timeFrame : string) (now limit : Z) (row : Row.t) :
  row ∈ global_board s timeFrame now limit →
  1 ≤ Row.tasksCompleted row
  ∧ ∃ t, t ∈ global_timers s (global_since timeFrame now)
         ∧ Timer.user t = Row.user_id row.
Proof.
  unfold global_board, global_timers. cbv zeta.
  intros (stat & Hstat & Hrow)%list_elem_of_omap.
  apply subseteq_take in Hstat. rewrite merge_sort_Permutation in Hstat.
  destruct stat as [u st]. apply elem_of_map_to_list in Hstat.
  destruct (tally_fold_some u _ _ _ Hstat) as [Hge [[x Hx]|Ht]].
  { intros s0. by rewrite lookup_empty. }
  { by rewrite lookup_empty in Hx. }
  unfold global_row in Hrow. simpl in Hrow.
  match type of Hrow with
  | match ?x with _ => _ end = _ => destruct x as [user|] eqn:Huser; [|done]
  end.
  simplify_eq/=. split; [done|].
  rewrite (userMap_lookup _ _ _ _ Huser); [done|].
  intros y. by rewrite lookup_empty.
Qed.

Lemma group_run (groupId timeFrame : string) (w : World) (group : Group.t) :
  List.find (λ g, bool_decide (Group._id g = groupId)) (groups (store w)) = Some group →
  let userIds := Group.members group ++ Group.leaders group in
  let matched := group_timers (store w) group groupId (group_since timeFrame (clock w (tick w))) in
  let userStats := foldl tally ∅ matched in
  ∃ w', generateGroupLeaderboard groupId timeFrame w
        = (Ok (merge_sort by_tasksCompleted_desc
                 (group_row group userStats
                    <$> List.filter (λ u, includes userIds (User._id u)) (users (store w)))), w').
Proof.
  intros Hg. unfold generateGroupLeaderboard, Group_findById, Task_find, Timer_find,
    User_find, daysAgo, newDate. run. rewrite Hg. simpl.
  unfold group_timers, group_since.
  repeat case_bool_decide; simpl; eexists; reflexivity.
Qed.

Lemma group_row_user_id group userStats (l : list User.t) :
  Row.user_id <$> (group_row group userStats <$> l) = User._id <$> l.
Proof. rewrite <- list_fmap_compose. by apply list_fmap_ext. Qed.

(** C10, as the code has it. [generateGroupLeaderboard] returns exactly one
    row for every member and leader of the group that is a stored user (no
    code here deletes a user), and rows for no one else; a user without a
    counted timer (a completed timer on a task of the group inside the time
    window) has [tasksCompleted = 0], [totalTime = 0] and
    [completionRate = 0]. The rows [generateGlobalLeaderboard] computes, on
    a cache miss, belong to users with at least one counted timer; the rows
    it serves from the cache need not (see below). *)
Theorem C10_leaderboard_membership (groupId timeFrame : string) (limit : Z) (w : World)
    (group : Group.t) :
  NoDup (User._id <$> users (store w)) →
  List.find (λ g, bool_decide (Group._id g = groupId)) (groups (store w)) = Some group →
  let userIds := Group.members group ++ Group.leaders group in
  let now := clock w (tick w) in
  let counted := group_timers (store w) group groupId (group_since timeFrame now) in
  (∃ rows w',
     generateGroupLeaderboard groupId timeFrame w = (Ok rows, w')
     ∧ NoDup (Row.user_id <$> rows)
     ∧ (∀ u, u ∈ userIds → u ∈ (User._id <$> users (store w)) →
             u ∈ (Row.user_id <$> rows))
     ∧ (∀ row, row ∈ rows → Row.user_id row ∈ userIds)
     ∧ (∀ row, row ∈ rows →
          (∀ t, t ∈ counted → Timer.user t ≠ Row.user_id row) →
          Row.tasksCompleted row = 0 ∧ Row.totalTime row = 0
          ∧ Row.completionRate row = 0))
  ∧ (Redis.ready (redis w) = true → 0 < limit →
     Redis.outage (redis w) (Redis.sent (redis w)) = false →
     visible (clock w (tick w + filter_ticks timeFrame)) (Redis.data (redis w))
             (cacheKey timeFrame) = None →
     ∃ rows w',
       generateGlobalLeaderboard timeFrame limit w = (Ok rows, w')
       ∧ ∀ row, row ∈ rows →
           1 ≤ Row.tasksCompleted row
           ∧ ∃ t, t ∈ global_timers (store w) (global_since timeFrame now)
                  ∧ Timer.user t = Row.user_id row).
Proof.
  intros Hnd Hg userIds now counted. split.
  - destruct (group_run groupId timeFrame w group Hg) as [w' Hrun].
    eexists _, w'. split; [exact Hrun|].
    fold userIds. fold now. fold counted.
    set (userStats := foldl tally ∅ counted).
    set (found := List.filter (λ u, includes userIds (User._id u)) (users (store w))).
    split; [|split; [|split]].
    + rewrite merge_sort_Permutation, group_row_user_id.
      by apply NoDup_fmap_bfilter.
    + intros u Hu (x & -> & Hx)%list_elem_of_fmap.
      rewrite merge_sort_Permutation, group_row_user_id.
      apply list_elem_of_fmap_2. apply elem_of_bfilter. split; [done|].
      by apply bool_decide_eq_true_2.
    + intros row. rewrite merge_sort_Permutation.
      intros (x & -> & Hx)%list_elem_of_fmap. simpl.
      apply elem_of_bfilter in Hx as [_ Hx]. by apply bool_decide_eq_true_1 in Hx.
    + intros row. rewrite merge_sort_Permutation.
      intros (x & -> & Hx)%list_elem_of_fmap Hnone. simpl in Hnone.
      unfold group_row, userStats. rewrite (tally_fold_other _ _ _ Hnone), lookup_empty.
      done.
  - intros Hready Hlimit Hout Hmiss.
    destruct (global_miss timeFrame limit w Hready Hlimit Hout Hmiss)
      as (w' & Hrun & _).
    eexists _, w'. split; [exact Hrun|].
    intros row Hrow. apply (global_board_rows (store w) timeFrame now limit).
    rewrite slice0_take in Hrow by lia. by apply subseteq_take in Hrow.
Qed.

Lemma C10_leaderboard_membership_witness :
  ∃ rows w',
    generateGroupLeaderboard "g1" "all" Demo.w0 = (Ok rows, w')
    ∧ "u1" ∈ (Row.user_id <$> rows) ∧ "u2" ∈ (Row.user_id <$> rows).
Proof.
  destruct (C10_leaderboard_membership "g1" "all" 10 Demo.w0 Demo.group1)
    as [(rows & w' & Hrun & _ & Hall & _) _].
  - apply (bool_decide_unpack _). by vm_compute.
  - reflexivity.
  - exists rows, w'. split; [exact Hrun|].
    split; apply Hall; apply (bool_decide_unpack _); by vm_compute.
Defined.

(** C10, as the spec has it, fails for the global leaderboard: a row served
    from the cache belongs to a user who had a counted timer when the rows
    were computed, up to an hour ago, not now. User [u1] completes a timer;
    a week later, less the time of a few requests, the leaderboard of the
    week is computed and cached with the row of [u1]; twenty minutes on, the
    timer has left the window of seven days, no completed timer matches,
    and the leaderboard still returns the row of [u1]. *)
Theorem C10_cached_rows_outlive_window :
  let w1 := exec_all [StartTimer "t1" "u1"; CompleteTimer "u1" ""] Scenario.w_week in
  let w2 := (generateGlobalLeaderboard "week" 10 w1).2 in
  ∃ rows w3,
    generateGlobalLeaderboard "week" 10 w2 = (Ok rows, w3)
    ∧ Row.user_id <$> rows = ["u1"]
    ∧ global_timers (store w2) (global_since "week" (clock w2 (tick w2))) = []
    ∧ global_timers (store w1) (global_since "week" (clock w1 (tick w1))) ≠ [].
Proof.
  cbv zeta.
  destruct (generateGlobalLeaderboard "week" 10
              (generateGlobalLeaderboard "week" 10
                 (exec_all [StartTimer "t1" "u1"; CompleteTimer "u1" ""] Scenario.w_week)).2)
    as [[rows|e] w3] eqn:E; vm_compute in E; [|discriminate E].
  exists rows, w3. split; [reflexivity|].
  injection E as <- _.
  split; [reflexivity|]. split; [by vm_compute|].
  intros H. vm_compute in H. discriminate H.
Qed.
(** * Further properties of the timer service *)

Lemma hasAccess_may_access (task : Task.t) (userId : Id) (w : World) :
  timerService.hasAccess task userId w = (Ok (may_access (store w) task userId), w).
Proof.
  unfold timerService.hasAccess, may_access, Group_findById. run.
  destruct (bool_decide (Task.creator task = userId) || includes (Task.assignees task) userId)
    eqn:E; simpl.
  - by destruct (Task.group task).
  - destruct (Task.group task) as [g|]; [|done]. simpl.
    by destruct (List.find _ _).
Qed.

Lemma replace_doc_twice {A} (key : A → Id) (d1 d2 : A) (l : list A) :
  key d1 = key d2 → replace_doc key d2 (replace_doc key d1 l) = replace_doc key d2 l.
Proof.
  intros Hk. unfold replace_doc. rewrite <- list_fmap_compose. apply list_fmap_ext.
  intros i x _. simpl. repeat case_bool_decide; congruence.
Qed.

Lemma startTimer_effect (taskId userId : Id) (w : World) (task : Task.t) :
  List.find (active_of userId) (timers (store w)) = None →
  List.find (λ t, bool_decide (Task._id t = taskId)) (tasks (store w)) = Some task →
  Task.status task ≠ completed → Task.status task ≠ cancelled →
  may_access (store w) task userId = true →
  oids w (minted w) ∉ (Timer._id <$> timers (store w)) →
  Redis.ready (redis w) = true →
  Redis.outage (redis w) (Redis.sent (redis w)) = false →
  let now := clock w (tick w) in
  let oid := oids w (minted w) in
  let timer := Timer.mk oid taskId userId (Task.group task) now None 0 true false false None in
  let task' := started_task task userId in
  ∃ w',
    timerService.startTimer taskId userId w
    = (Ok (View.mkStarted oid (View.of_task task') now true), w')
    ∧ timers (store w') = timers (store w) ++ [timer]
    ∧ tasks (store w') = replace_doc Task._id task' (tasks (store w))
    ∧ users (store w') = users (store w)
    ∧ groups (store w') = groups (store w)
    ∧ Redis.data (redis w')
      = <[timer_key userId taskId := Redis.mkEntry (VTimerId oid) None]> (Redis.data (redis w))
    ∧ Redis.ready (redis w') = true
    ∧ Redis.outage (redis w') = Redis.outage (redis w)
    ∧ Redis.sent (redis w') = S (Redis.sent (redis w))
    ∧ logs w'
      = logs w ++ [(info, "Timer started: " +:+ oid +:+ " for task: " +:+ Task._id task
                          +:+ " by user: " +:+ userId)]
    ∧ clock w' = clock w ∧ tick w' = S (tick w)
    ∧ oids w' = oids w ∧ minted w' = S (minted w).
Proof.
  intros Hact Htask Hs1 Hs2 Hacc Hfresh Hready Hout now oid timer task'.
  unfold timerService.startTimer.
  step_with Timer_findOne_run. rewrite Hact.
  step_with Task_findById_run. rewrite Htask.
  rewrite !bool_decide_eq_false_2 by done. cbn [orb].
  step_with hasAccess_may_access. rewrite Hacc. cbn [negb].
  unfold Timer_insert, newDate, newObjectId, taskSchema.startTimer, Task_save, put_store,
    getRedisClient, redis_set, redis_command, logger. run.
  rewrite bool_decide_eq_false_2 by done. simpl.
  subst task' timer oid now. unfold started_task, includes.
  case_bool_decide; simpl; rewrite Hready; simpl; rewrite Hout; simpl;
    (eexists; split; [reflexivity|]); simpl; rewrite ?replace_doc_twice by done;
    rewrite ?Hready; done.
Qed.

(** X1. The effect of a successful [startTimer]. *)
Theorem startTimer_success (taskId userId : Id) (w : World) (task : Task.t) :
  List.find (active_of userId) (timers (store w)) = None →
  List.find (λ t, bool_decide (Task._id t = taskId)) (tasks (store w)) = Some task →
  Task.status task ≠ completed → Task.status task ≠ cancelled →
  may_access (store w) task userId = true →
  oids w (minted w) ∉ (Timer._id <$> timers (store w)) →
  Redis.ready (redis w) = true →
  Redis.outage (redis w) (Redis.sent (redis w)) = false →
  let now := clock w (tick w) in
  let oid := oids w (minted w) in
  let timer := Timer.mk oid taskId userId (Task.group task) now None 0 true false false None in
  let task' := started_task task userId in
  ∃ w',
    timerService.startTimer taskId userId w
    = (Ok (View.mkStarted oid (View.of_task task') now true), w')
    ∧ timers (store w') = timers (store w) ++ [timer]
    ∧ tasks (store w') = replace_doc Task._id task' (tasks (store w))
    ∧ users (store w') = users (store w)
    ∧ groups (store w') = groups (store w)
    ∧ Redis.data (redis w')
      = <[timer_key userId taskId := Redis.mkEntry (VTimerId oid) None]> (Redis.data (redis w))
    ∧ Redis.ready (redis w') = true
    ∧ Redis.outage (redis w') = Redis.outage (redis w)
    ∧ Redis.sent (redis w') = S (Redis.sent (redis w))
    ∧ logs w'
      = logs w ++ [(info, "Timer started: " +:+ oid +:+ " for task: " +:+ Task._id task
                          +:+ " by user: " +:+ userId)]
    ∧ clock w' = clock w ∧ tick w' = S (tick w)
    ∧ oids w' = oids w ∧ minted w' = S (minted w).
Proof. exact (startTimer_effect taskId userId w task). Qed.

Lemma startTimer_success_witness :
  ∃ w', timerService.startTimer "t1" "u1" Demo.w0
        = (Ok (View.mkStarted "timer0" (View.of_task Demo.task1) 1000000 true), w')
        ∧ length (timers (store w')) = 1%nat
        ∧ Redis.data (redis w')
          = {[ "timer:u1:t1" := Redis.mkEntry (VTimerId "timer0") None ]}.
Proof.
  destruct (startTimer_success "t1" "u1" Demo.w0 Demo.task1 eq_refl eq_refl
              ltac:(done) ltac:(done) eq_refl) as (w' & Hrun & Htm & _ & _ & _ & Hd & _).
  - apply (bool_decide_unpack _). by vm_compute.
  - reflexivity.
  - reflexivity.
  - exists w'. split; [exact Hrun|]. split; [by rewrite Htm|]. rewrite Hd. reflexivity.
Defined.

(** X2. The errors of [startTimer]: a rejection by the service leaves the
    world as it was; a duplicate [_id] leaves store, Redis and log as they
    were; a Redis failure comes after the new active timer has been stored. *)
Theorem startTimer_errors (taskId userId : Id) (w w' : World) (e : Exn) :
  timerService.startTimer taskId userId w = (Throw e, w') →
  (start_rejection e ∧ w' = w)
  ∨ (e = DuplicateKey ∧ store w' = store w ∧ redis w' = redis w ∧ logs w' = logs w)
  ∨ (redis_failure e
     ∧ (∃ t, timers (store w') = timers (store w) ++ [t]
             ∧ Timer.user t = userId ∧ Timer.task t = taskId ∧ Timer.isActive t = true)
     ∧ Redis.data (redis w') = Redis.data (redis w)
     ∧ logs w' = logs w).
Proof.
  unfold timerService.startTimer.
  step_with Timer_findOne_run.
  destruct (List.find (active_of userId) _).
  { intros [= <- <-]. left. split; [|done]. by left. }
  step_with Task_findById_run.
  destruct (List.find _ (tasks _)) as [task|].
  2:{ intros [= <- <-]. left. split; [|done]. right. by left. }
  destruct (_ || _).
  { intros [= <- <-]. left. split; [|done]. right. right. left. by eexists. }
  step_with hasAccess_may_access.
  destruct (may_access _ _ _); cbn [negb].
  2:{ intros [= <- <-]. left. split; [|done]. by repeat right. }
  unfold Timer_insert, newDate, newObjectId, taskSchema.startTimer, Task_save, put_store,
    getRedisClient, redis_set, redis_command, logger. run.
  case_bool_decide; simpl.
  { intros [= <- <-]. right. left. done. }
  destruct (negb _); simpl; destruct (Redis.ready (redis w)); simpl;
    try destruct (Redis.outage _ _); simpl; intros [= <- <-];
    right; right; (split; [by (left + right)|]); (split; [by eexists|done]).
Qed.

Lemma startTimer_errors_witness :
  ∃ w', timerService.startTimer "t1" "u9" Demo.w0 = (Throw NoAccess, w') ∧ w' = Demo.w0.
Proof.
  destruct (timerService.startTimer "t1" "u9" Demo.w0) as [[v|e] w'] eqn:E;
    [by vm_compute in E|].
  destruct (startTimer_errors "t1" "u9" Demo.w0 w' e E) as [[Hrej ->]|[H|H]].
  - exists Demo.w0. split; [|done]. f_equal.
    assert (He : (timerService.startTimer "t1" "u9" Demo.w0).1 = Throw NoAccess)
      by (by vm_compute).
    rewrite E in He. simpl in He. by injection He as ->.
  - exfalso. destruct H as [-> _].
    assert (He : (timerService.startTimer "t1" "u9" Demo.w0).1 = Throw NoAccess)
      by (by vm_compute).
    rewrite E in He. discriminate He.
  - exfalso. destruct H as [[-> | ->] _];
    assert (He : (timerService.startTimer "t1" "u9" Demo.w0).1 = Throw NoAccess)
      by (by vm_compute); rewrite E in He; discriminate He.
Defined.

Lemma completeTimer_effect (userId : Id) (notes : string) (w : World)
    (timer : Timer.t) (task : Task.t) (user : User.t) :
  List.find (active_of userId) (timers (store w)) = Some timer →
  List.find (λ t, bool_decide (Task._id t = Timer.task timer)) (tasks (store w)) = Some task →
  List.find (λ u, bool_decide (User._id u = userId)) (users (store w)) = Some user →
  (String.length notes ≤ 500)%nat →
  Redis.ready (redis w) = true →
  Redis.outage (redis w) (Redis.sent (redis w)) = false →
  let t0 := clock w (tick w) in
  let t1 := clock w (S (tick w)) in
  let t2 := clock w (S (S (tick w))) in
  let t3 := clock w (S (S (S (tick w)))) in
  let d := Math_round (inject_Z (t0 - Timer.startTime timer) / inject_Z 60000) in
  let c := bool_decide (t0 ≤ Task.dueDate task) in
  let timer' :=
    Timer.mk (Timer._id timer) (Timer.task timer) (Timer.user timer) (Timer.group timer)
             (Timer.startTime timer) (Some t0) d false true c
             (if bool_decide (notes = "") then Timer.notes timer else Some notes) in
  let task' := taskSchema.markAsCompleted_at t1 task userId d in
  let user' := userSchema.updateStats_at t2 user d c in
  ∃ w',
    timerService.completeTimer userId notes w
    = (Ok (View.mkCompleted (Timer._id timer) (Task._id task, Task.title task, completed)
             (Timer.startTime timer) (Some t0) d c (Timer.notes timer') false true), w')
    ∧ timers (store w') = replace_doc Timer._id timer' (timers (store w))
    ∧ tasks (store w') = replace_doc Task._id task' (tasks (store w))
    ∧ users (store w') = write_stats user' (users (store w))
    ∧ groups (store w')
      = match Task.group task with
        | Some g =>
            match List.find (λ x, bool_decide (Group._id x = g)) (groups (store w)) with
            | Some group =>
                replace_doc Group._id
                  (Group.mk (Group._id group) (Group.isPublic group) (Group.leaders group)
                            (Group.members group) (Group.completedTasks group + 1)
                            (Group.totalTimeSpent group + d) t3)
                  (groups (store w))
            | None => groups (store w)
            end
        | None => groups (store w)
        end
    ∧ Redis.data (redis w')
      = delete (timer_key userId (Timer.task timer)) (Redis.data (redis w))
    ∧ logs w'
      = logs w ++ [(info, "Timer completed: " +:+ Timer._id timer +:+ " for task: "
                          +:+ Task._id task +:+ " by user: " +:+ userId)].
Proof.
  intros Hact Htask Huser Hshort Hready Hout t0 t1 t2 t3 d c timer' task' user'.
  unfold timerService.completeTimer.
  step_with Timer_findOne_run. rewrite Hact.
  step_with Task_findById_run. rewrite Htask.
  unfold timerSchema.complete, timerSchema.calculateDuration, taskSchema.markAsCompleted,
    userSchema.updateStats, User_findById, Group_findById, groupSchema.updateStats, newDate,
    Timer_save, Task_save, User_save_stats, Group_save, put_store, Task_findById,
    getRedisClient, redis_del, redis_command, logger. run.
  rewrite Htask. rewrite bool_decide_eq_false_2 by lia. simpl. rewrite Huser. simpl.
  subst timer' task' user' d c t0 t1 t2 t3.
  assert (Hst : (if negb (bool_decide (Task.status task = completed))
                 then completed else Task.status task) = completed).
  { case_bool_decide; simpl; congruence. }
  rewrite Hst.
  destruct (Task.group task) as [g|]; simpl;
    [destruct (List.find _ (groups _)) as [group|]; simpl|];
    rewrite Hready; simpl; rewrite Hout; simpl;
    (eexists; split; [reflexivity|repeat split; reflexivity]).
Qed.

(** X3. The effect of a successful [completeTimer], for notes of at most
    500 characters: the timer is stored completed with the rounded duration,
    the task is advanced by [markAsCompleted], the statistics
    [updateStats] computes (in doubles) from the timer's duration and
    on-time flag are written to the user's document, the group of the task
    (when it has one that exists) gets one more completed task and the
    duration, and the Redis key of the timer is deleted. Each step reads the
    clock anew. *)
Theorem completeTimer_success (userId : Id) (notes : string) (w : World)
    (timer : Timer.t) (task : Task.t) (user : User.t) :
  List.find (active_of userId) (timers (store w)) = Some timer →
  List.find (λ t, bool_decide (Task._id t = Timer.task timer)) (tasks (store w)) = Some task →
  List.find (λ u, bool_decide (User._id u = userId)) (users (store w)) = Some user →
  (String.length notes ≤ 500)%nat →
  Redis.ready (redis w) = true →
  Redis.outage (redis w) (Redis.sent (redis w)) = false →
  let t0 := clock w (tick w) in
  let t1 := clock w (S (tick w)) in
  let t2 := clock w (S (S (tick w))) in
  let t3 := clock w (S (S (S (tick w)))) in
  let d := Math_round (inject_Z (t0 - Timer.startTime timer) / inject_Z 60000) in
  let c := bool_decide (t0 ≤ Task.dueDate task) in
  let timer' :=
    Timer.mk (Timer._id timer) (Timer.task timer) (Timer.user timer) (Timer.group timer)
             (Timer.startTime timer) (Some t0) d false true c
             (if bool_decide (notes = "") then Timer.notes timer else Some notes) in
  let task' := taskSchema.markAsCompleted_at t1 task userId d in
  let user' := userSchema.updateStats_at t2 user d c in
  ∃ w',
    timerService.completeTimer userId notes w
    = (Ok (View.mkCompleted (Timer._id timer) (Task._id task, Task.title task, completed)
             (Timer.startTime timer) (Some t0) d c (Timer.notes timer') false true), w')
    ∧ timers (store w') = replace_doc Timer._id timer' (timers (store w))
    ∧ tasks (store w') = replace_doc Task._id task' (tasks (store w))
    ∧ users (store w') = write_stats user' (users (store w))
    ∧ groups (store w')
      = match Task.group task with
        | Some g =>
            match List.find (λ x, bool_decide (Group._id x = g)) (groups (store w)) with
            | Some group =>
                replace_doc Group._id
                  (Group.mk (Group._id group) (Group.isPublic group) (Group.leaders group)
                            (Group.members group) (Group.completedTasks group + 1)
                            (Group.totalTimeSpent group + d) t3)
                  (groups (store w))
            | None => groups (store w)
            end
        | None => groups (store w)
        end
    ∧ Redis.data (redis w')
      = delete (timer_key userId (Timer.task timer)) (Redis.data (redis w))
    ∧ logs w'
      = logs w ++ [(info, "Timer completed: " +:+ Timer._id timer +:+ " for task: "
                          +:+ Task._id task +:+ " by user: " +:+ userId)].
Proof. exact (completeTimer_effect userId notes w timer task user). Qed.


Lemma completeTimer_success_witness :
  ∃ w', (timerService.completeTimer "u1" "done" Demo.w_running).1
        = Ok (View.mkCompleted "timer0" ("t1", "Write report", completed) 0
                (Some 1000000) 17 true (Some "done") false true)
        ∧ Redis.data (redis w') = ∅.
Proof.
  destruct (completeTimer_success "u1" "done" Demo.w_running Demo.running Demo.task1
              Demo.user1 eq_refl eq_refl eq_refl ltac:(simpl; lia) eq_refl eq_refl)
    as (w' & Hrun & _ & _ & _ & _ & Hd & _).
  exists w'. split; [by rewrite Hrun|]. rewrite Hd. by vm_compute.
Defined.

(** X4. The errors of [completeTimer]. "No active timer found" and "Task not
    found" (the task of the active timer is gone) leave the world as it was.
    Notes of more than 500 characters make [timer.save()] throw the
    validation error: the clock has been read, nothing is stored and the
    timer stays active. A missing User document makes [user.updateStats]
    fail after the timer and the task have been saved, so the statistics of
    user and group are not updated. A Redis failure comes after all store
    updates. In both late cases the timer is stored completed; nothing is
    logged. *)
Theorem completeTimer_errors (userId : Id) (notes : string) (w w' : World) (e : Exn) :
  timerService.completeTimer userId notes w = (Throw e, w') →
  ((e = NoActiveTimer ∨ e = TaskNotFound) ∧ w' = w)
  ∨ (e = NotesTooLong ∧ (500 < String.length notes)%nat
     ∧ store w' = store w ∧ redis w' = redis w ∧ logs w' = logs w)
  ∨ (((∃ m, e = TypeError m)
      ∧ List.find (λ u, bool_decide (User._id u = userId)) (users (store w)) = None
      ∧ users (store w') = users (store w) ∧ groups (store w') = groups (store w)
      ∨ redis_failure e)
     ∧ (∃ t0 t', List.find (active_of userId) (timers (store w)) = Some t0
                 ∧ Timer._id t' = Timer._id t0 ∧ Timer.isActive t' = false
                 ∧ timers (store w') = replace_doc Timer._id t' (timers (store w)))
     ∧ Redis.data (redis w') = Redis.data (redis w)
     ∧ logs w' = logs w).
Proof.
  unfold timerService.completeTimer.
  step_with Timer_findOne_run.
  destruct (List.find (active_of userId) _) as [timer|] eqn:Hact.
  2:{ intros [= <- <-]. left. split; [by left|done]. }
  step_with Task_findById_run.
  destruct (List.find _ (tasks _)) as [task|].
  2:{ intros [= <- <-]. left. split; [by right|done]. }
  destruct (le_lt_dec (String.length notes) 500) as [Hshort|Hlong].
  2:{ step_with (complete_rejects timer notes w Hlong).
      intros [= <- <-]. right. left. done. }
  intros Hrun. right. right. revert Hrun.
  unfold timerSchema.complete, timerSchema.calculateDuration, taskSchema.markAsCompleted,
    userSchema.updateStats, User_findById, Group_findById, groupSchema.updateStats, newDate,
    Timer_save, Task_save, User_save_stats, Group_save, put_store, Task_findById,
    getRedisClient, redis_del, redis_command, logger. run.
  rewrite bool_decide_eq_false_2 by lia. simpl.
  destruct (List.find _ (users _)) as [user|] eqn:Huser; simpl.
  2:{ intros [= <- <-]. simpl. split; [left; split; [by eexists|done]|].
      split; [|done]. eexists timer, _. split; [done|]. split; [|split]; [| |reflexivity]; done. }
  destruct (Task.group _) as [g|]; simpl;
    [destruct (List.find _ (groups _)) as [group|]; simpl|];
    destruct (Redis.ready (redis w)); simpl; try destruct (Redis.outage _ _); simpl;
    intros [= <- <-]; simpl;
    (split; [right; by (left + right)|]);
    (split; [|done]);
    (eexists timer, _; split; [done|]; split; [|split]; [| |reflexivity]; done).
Qed.

Lemma completeTimer_errors_witness :
  ∃ m w', timerService.completeTimer "u1" "" Scenario.w_no_user = (Throw (TypeError m), w')
          ∧ users (store w') = users (store Scenario.w_no_user)
          ∧ List.find (active_of "u1") (timers (store w')) = None.
Proof.
  destruct (timerService.completeTimer "u1" "" Scenario.w_no_user) as [[v|e] w'] eqn:E;
    [by vm_compute in E|].
  destruct (completeTimer_errors "u1" "" Scenario.w_no_user w' e E)
    as [[He _]|[(_ & Hlong & _)|([([m ->] & _ & Hu & _)|He] & _ & _)]].
  - exfalso. vm_compute in E. destruct He as [-> | ->]; discriminate E.
  - exfalso. simpl in Hlong. lia.
  - exists m, w'. split; [done|]. split; [done|].
    vm_compute in E. by injection E as _ <-.
  - exfalso. vm_compute in E. destruct He as [-> | ->]; discriminate E.
Defined.

(** X5. [getActiveTimer] never throws and writes nothing: store, Redis and
    log are as before. It answers [null] exactly when the user has no active
    timer; otherwise the view is that of the first active timer, with the
    populated task when it is stored and [null] in its place when it is
    not. *)
Theorem getActiveTimer_read_only (userId : Id) (w : World) :
  ∃ v w',
    timerService.getActiveTimer userId w = (Ok v, w')
    ∧ store w' = store w ∧ redis w' = redis w ∧ logs w' = logs w
    ∧ match List.find (active_of userId) (timers (store w)) with
      | None => v = None
      | Some t =>
          ∃ view, v = Some view
            ∧ View.a_id view = Timer._id t
            ∧ View.a_startTime view = Timer.startTime t
            ∧ View.a_task view
              = View.of_task
                  <$> List.find (λ x, bool_decide (Task._id x = Timer.task t))
                                (tasks (store w))
      end.
Proof.
  unfold timerService.getActiveTimer, Timer_findOne, Task_findById,
    timerSchema.calculateDuration, newDate. run.
  destruct (List.find (active_of userId) _) as [t|]; simpl.
  - destruct (Timer.endTime t); simpl; eexists _, _; (split; [reflexivity|]);
      repeat split; eexists; done.
  - eexists _, _. done.
Qed.

(** X6. An active timer whose task is gone cannot be completed and blocks
    its user: [completeTimer] throws "Task not found", every [startTimer]
    of that user throws "You already have an active timer...", and both
    leave the world as it was, so this stays so. *)
Theorem orphaned_timer_blocks (userId : Id) (w : World) (t : Timer.t) :
  List.find (active_of userId) (timers (store w)) = Some t →
  List.find (λ x, bool_decide (Task._id x = Timer.task t)) (tasks (store w)) = None →
  (∀ notes, timerService.completeTimer userId notes w = (Throw TaskNotFound, w))
  ∧ (∀ taskId, timerService.startTimer taskId userId w = (Throw ActiveTimerExists, w)).
Proof.
  intros Hact Htask. split.
  - intros notes. unfold timerService.completeTimer.
    step_with Timer_findOne_run. rewrite Hact.
    step_with Task_findById_run. by rewrite Htask.
  - intros taskId. unfold timerService.startTimer.
    step_with Timer_findOne_run. by rewrite Hact.
Qed.

Lemma orphaned_timer_blocks_witness :
  timerService.completeTimer "u1" "" Scenario.w_orphan = (Throw TaskNotFound, Scenario.w_orphan)
  ∧ timerService.startTimer "t2" "u1" Scenario.w_orphan
    = (Throw ActiveTimerExists, Scenario.w_orphan).
Proof.
  destruct (orphaned_timer_blocks "u1" Scenario.w_orphan Demo.running eq_refl eq_refl)
    as [Hc Hs].
  split; [apply Hc|apply Hs].
Defined.



Lemma replace_doc_fresh {A} (key : A → Id) (d : A) (l : list A) :
  key d ∉ (key <$> l) → replace_doc key d l = l.
Proof.
  intros Hfresh. unfold replace_doc. rewrite <- (list_fmap_id l) at 2.
  apply list_fmap_ext. intros i x Hx. simpl.
  rewrite bool_decide_eq_false_2; [done|].
  intros Heq. apply Hfresh. rewrite <- Heq. apply list_elem_of_fmap_2.
  by apply list_elem_of_lookup_2 in Hx.
Qed.




(** * What every request does to the Timer collection *)

Lemma complete_run_exact (this : Timer.t) (notes : string) (w : World) :
  (String.length notes ≤ 500)%nat →
  ∃ c n w',
    let this' :=
      Timer.mk (Timer._id this) (Timer.task this) (Timer.user this) (Timer.group this)
               (Timer.startTime this) (Some (clock w (tick w)))
               (Math_round (inject_Z (clock w (tick w) - Timer.startTime this)
                            / inject_Z (1000 * 60)))
               false true c n in
    timerSchema.complete this notes w
    = (Ok (this', (Timer.duration this', c)), w')
    ∧ timers (store w') = replace_doc Timer._id this' (timers (store w)).
Proof.
  intros Hshort.
  unfold timerSchema.complete, timerSchema.calculateDuration, newDate, Task_findById,
    Timer_save, put_store. run.
  rewrite bool_decide_eq_false_2 by lia.
  eexists _, _, _. split; reflexivity.
Qed.

Lemma create_timer_steps {A} (task user : Id) (group : option Id) (k : Timer.t → M A)
    (w : World) :
  (∀ t, keeps_timers (k t)) →
  TimerStep (timers (store w))
    (timers (store ((now ← newDate; oid ← newObjectId;
                     let timer := Timer.mk oid task user group now None 0 true false false
                                           None in
                     (Timer_insert timer;; k timer)) w).2)).
Proof.
  intros Hk.
  destruct (newDate_run w) as (w1 & E1 & Hs1). step_with E1.
  destruct (newObjectId_run w1) as (w2 & E2 & Hs2). step_with E2.
  cbv zeta. rewrite bind_run.
  match goal with |- context [Timer_insert ?t w2] =>
    destruct (insert_run t w2) as [[_ ->]|(Hfresh & w3 & -> & Hw3)] end; lazy beta iota.
  - simpl. rewrite Hs2, Hs1. constructor.
  - rewrite Hk, Hw3. rewrite Hs2, Hs1 in *. by apply ts_start.
Qed.

Lemma complete_then_steps {A} (timer : Timer.t) (notes : string)
    (k : Timer.t * (Z * bool) → M A) (w : World) :
  timer ∈ timers (store w) → Timer.isActive timer = true →
  (∀ r, keeps_timers (k r)) →
  TimerStep (timers (store w))
    (timers (store ((timerSchema.complete timer notes ≫= k) w).2)).
Proof.
  intros Hin Ha Hk.
  destruct (le_lt_dec (String.length notes) 500) as [Hshort|Hlong].
  - destruct (complete_run_exact timer notes w Hshort) as (c & n & w1 & E & Hw1).
    cbv zeta in E, Hw1. step_with E. rewrite Hk, Hw1. by apply ts_complete.
  - step_with (complete_rejects timer notes w Hlong). constructor.
Qed.

Lemma startTimer_steps taskId userId w :
  TimerStep (timers (store w)) (timers (store (timerService.startTimer taskId userId w).2)).
Proof.
  unfold timerService.startTimer.
  step_with Timer_findOne_run.
  destruct (List.find (active_of userId) _); [constructor|].
  step_with Task_findById_run.
  destruct (List.find _ (tasks _)) as [task|]; [|constructor].
  destruct (_ || _); [constructor|].
  destruct (hasAccess_run task userId w) as [b Hb]. step_with Hb.
  destruct b; [|constructor]. cbn [negb].
  apply (create_timer_steps taskId userId (Task.group task)
           (λ timer, task0 ← taskSchema.startTimer task; _)).
  keeps_all.
Qed.

Lemma completeTimer_steps userId notes w :
  TimerStep (timers (store w)) (timers (store (timerService.completeTimer userId notes w).2)).
Proof.
  unfold timerService.completeTimer.
  step_with Timer_findOne_run.
  destruct (List.find (active_of userId) _) as [timer|] eqn:Hact; [|constructor].
  apply find_elem in Hact as [Hin Hq].
  apply andb_true_iff in Hq as [_ Hactive].
  step_with Task_findById_run.
  destruct (List.find _ (tasks _)) as [task|]; [|constructor].
  apply complete_then_steps; [done..|].
  keeps_all.
Qed.

Lemma socket_start_steps socketUser taskId w :
  TimerStep (timers (store w))
    (timers (store (timerHandler.timer_start socketUser taskId w).2)).
Proof.
  unfold timerHandler.timer_start.
  rewrite try_catch_timers by keeps_all.
  step_with Task_findById_run.
  destruct (List.find _ (tasks _)) as [task|]; [|constructor].
  destruct (_ || _); [constructor|].
  apply (create_timer_steps taskId socketUser (Task.group task)
           (λ timer, task0 ← taskSchema.startTimer task; _)).
  keeps_all.
Qed.

Lemma socket_complete_steps socketUser taskId notes w :
  TimerStep (timers (store w))
    (timers (store (timerHandler.timer_complete socketUser taskId notes w).2)).
Proof.
  unfold timerHandler.timer_complete. cbv zeta.
  rewrite try_catch_timers by keeps_all.
  rewrite bind_run.
  destruct (getRedisClient_run w) as [-> | ->]; lazy beta iota; [|constructor].
  rewrite bind_run. unfold redis_get.
  destruct (redis_command_run
              (λ (now : Z) (d : gmap string Redis.entry),
                 (visible now d (timer_key (User._id socketUser) taskId), d)) w)
    as (r & w1 & -> & Hs1).
  rewrite <- Hs1.
  destruct r as [[[timerId|rows]|]|e]; lazy beta iota; try constructor.
  case_bool_decide; [constructor|].
  step_with Timer_findById_run.
  destruct (List.find _ (timers _)) as [timer|] eqn:Hfind; [|constructor].
  apply find_elem in Hfind as [Hin _].
  destruct (Timer.isActive timer) eqn:Hactive; cbn [negb]; [|constructor].
  apply complete_then_steps; [done..|].
  keeps_all.
Qed.

Lemma exec_steps (r : Request) (w : World) :
  TimerStep (timers (store w)) (timers (store (exec r w))).
Proof.
  destruct r; simpl.
  - apply startTimer_steps.
  - apply completeTimer_steps.
  - destruct (getActiveTimer_reads userId w) as [-> _]. constructor.
  - rewrite listTaskTimers_reads. constructor.
  - apply socket_start_steps.
  - apply socket_complete_steps.
Qed.

Lemma TimerStep_ok (l l' : list Timer.t) :
  TimerStep l l' → Forall timer_ok l → Forall timer_ok l'.
Proof.
  destruct 1 as [|oid task user group now _|t0 now c notes _ _]; intros Hl.
  - done.
  - apply Forall_app. split; [done|]. apply Forall_singleton. by unfold timer_ok.
  - unfold replace_doc. apply Forall_fmap. eapply Forall_impl; [exact Hl|].
    intros x Hx. simpl. case_bool_decide; [|done].
    unfold timer_ok. simpl. split; [done|]. by eexists.
Qed.

Lemma TimerStep_origin (l l' : list Timer.t) (t : Timer.t) :
  TimerStep l l' → NoDup (Timer._id <$> l) → t ∈ l →
  (length l ≤ length l')%nat ∧ ∃ t', t' ∈ l' ∧ same_origin t t'.
Proof.
  destruct 1 as [|oid task user group now _|t0 now c notes Hin0 _]; intros Hnd Ht.
  - split; [done|]. exists t. by repeat split.
  - split; [rewrite length_app; lia|].
    exists t. split; [apply elem_of_app; by left|by repeat split].
  - split; [unfold replace_doc; by rewrite length_fmap|].
    eexists. split.
    + unfold replace_doc. apply list_elem_of_fmap_2. exact Ht.
    + simpl. case_bool_decide as Heq; [|by repeat split].
      assert (t = t0) as -> by (by apply (NoDup_fmap_eq Timer._id l)).
      by repeat split.
Qed.

Lemma exec_all_unique (rs : list Request) (w : World) :
  UniqueTimerIds w → UniqueTimerIds (exec_all rs w).
Proof.
  revert w. induction rs as [|r rs IH]; intros w Hw; simpl; [done|].
  apply IH. by apply exec_unique.
Qed.

Lemma exec_all_ok (rs : list Request) (w : World) :
  Forall timer_ok (timers (store w)) → Forall timer_ok (timers (store (exec_all rs w))).
Proof.
  revert w. induction rs as [|r rs IH]; intros w Hw; simpl; [done|].
  apply IH. exact (TimerStep_ok _ _ (exec_steps r w) Hw).
Qed.

Lemma exec_all_origin (rs : list Request) (w : World) (t : Timer.t) :
  UniqueTimerIds w → t ∈ timers (store w) →
  (length (timers (store w)) ≤ length (timers (store (exec_all rs w))))%nat
  ∧ ∃ t', t' ∈ timers (store (exec_all rs w)) ∧ same_origin t t'.
Proof.
  revert w t. induction rs as [|r rs IH]; intros w t Hu Ht; simpl.
  - split; [done|]. exists t. by repeat split.
  - destruct (TimerStep_origin _ _ t (exec_steps r w) Hu Ht) as (Hlen & t1 & Ht1 & Ho1).
    destruct (IH (exec r w) t1 (exec_unique r w Hu) Ht1) as (Hlen2 & t2 & Ht2 & Ho2).
    split; [lia|]. exists t2. split; [done|].
    destruct Ho1 as (?&?&?&?&?), Ho2 as (?&?&?&?&?). repeat split; congruence.
Qed.

(** X8. In every state reached from an empty Timer collection by timer
    requests, service or socket, each stored timer is either active, not
    completed, with no end time and duration 0, or completed, not active,
    with an end time [e] and [duration = Math.round((e - startTime) / 60000)]. *)
Theorem timers_stay_well_formed (rs : list Request) (w : World) :
  timers (store w) = [] →
  ∀ t, t ∈ timers (store (exec_all rs w)) → timer_ok t.
Proof.
  intros Hempty. apply Forall_forall, exec_all_ok. rewrite Hempty. constructor.
Qed.

Lemma timers_stay_well_formed_witness :
  ∃ t, timers (store (exec_all [StartTimer "t1" "u1"; CompleteTimer "u1" "";
                                SocketTimerStart "u2" "t2"] Demo.w0)) !! 0%nat = Some t
       ∧ timer_ok t.
Proof.
  eexists. split; [by vm_compute|].
  apply (timers_stay_well_formed
           [StartTimer "t1" "u1"; CompleteTimer "u1" ""; SocketTimerStart "u2" "t2"]
           Demo.w0 eq_refl).
  apply (list_elem_of_lookup_2 _ 0%nat). by vm_compute.
Defined.

(** X9. Timer documents are never deleted and never re-created: under the
    unique [_id] index, after any timer requests the collection is at least
    as long as before and every timer that was stored is still there under
    its [_id], with the task, user, group and [startTime] it was created
    with. *)
Theorem timers_never_deleted (rs : list Request) (w : World) (t : Timer.t) :
  UniqueTimerIds w → t ∈ timers (store w) →
  (length (timers (store w)) ≤ length (timers (store (exec_all rs w))))%nat
  ∧ ∃ t', t' ∈ timers (store (exec_all rs w)) ∧ same_origin t t'.
Proof. apply exec_all_origin. Qed.

Lemma timers_never_deleted_witness :
  ∃ t', t' ∈ timers (store (exec_all [CompleteTimer "u1" ""; StartTimer "t2" "u1"]
                                     Demo.w_running))
        ∧ Timer.startTime t' = 0.
Proof.
  destruct (timers_never_deleted [CompleteTimer "u1" ""; StartTimer "t2" "u1"]
              Demo.w_running Demo.running) as (_ & t' & Hin & Ho).
  - apply NoDup_singleton.
  - left.
  - exists t'. split; [exact Hin|]. by destruct Ho as (_ & _ & _ & _ & ->).
Defined.

(** X10. [getStatusData] of a well-formed completed timer reports the stored
    duration without reading the clock; of an active timer it reports the
    rounded minutes since the start, read from the clock. *)
Theorem getStatusData_duration (t : Timer.t) (w : World) :
  timer_ok t →
  ∃ st w',
    timerStatus.getStatusData t w = (Ok st, w')
    ∧ store w' = store w
    ∧ if Timer.isActive t
      then timerStatus.duration st
           = Math_round (inject_Z (clock w (tick w) - Timer.startTime t) / inject_Z 60000)
           ∧ tick w' = S (tick w)
      else timerStatus.duration st = Timer.duration t ∧ w' = w.
Proof.
  unfold timer_ok, timerStatus.getStatusData, timerSchema.calculateDuration, newDate. run.
  destruct (Timer.isActive t).
  - intros (_ & -> & _). eexists _, _. split; [reflexivity|]. done.
  - intros (_ & e & -> & ->). eexists _, _. split; [reflexivity|]. done.
Qed.

Lemma getStatusData_duration_witness :
  ∃ st w', timerStatus.getStatusData Demo.running Demo.w_running = (Ok st, w')
           ∧ timerStatus.duration st = 17.
Proof.
  destruct (getStatusData_duration Demo.running Demo.w_running)
    as (st & w' & Hrun & _ & Hd).
  - by unfold timer_ok.
  - exists st, w'. split; [exact Hrun|]. simpl in Hd. destruct Hd as [-> _]. by vm_compute.
Defined.

(** * The counter of active timers *)

Lemma startTimer_store (taskId userId : Id) (w : World) :
  let s := store w in
  let s' := store (timerService.startTimer taskId userId w).2 in
  s' = s
  ∨ ∃ task oid now,
      List.find (λ t, bool_decide (Task._id t = taskId)) (tasks s) = Some task
      ∧ timers s' = timers s ++ [Timer.mk oid taskId userId (Task.group task) now None 0
                                          true false false None]
      ∧ tasks s' = replace_doc Task._id (started_task task userId) (tasks s)
      ∧ users s' = users s ∧ groups s' = groups s.
Proof.
  cbv zeta. unfold timerService.startTimer.
  step_with Timer_findOne_run.
  destruct (List.find (active_of userId) _); [by left|].
  step_with Task_findById_run.
  destruct (List.find _ (tasks _)) as [task|] eqn:Htask; [|by left].
  destruct (_ || _); [by left|].
  step_with hasAccess_may_access.
  destruct (may_access _ _ _); cbn [negb]; [|by left].
  unfold Timer_insert, newDate, newObjectId, taskSchema.startTimer, Task_save, put_store,
    getRedisClient, redis_set, redis_command, logger. run.
  case_bool_decide; simpl; [left; by destruct (store w)|].
  right. exists task, (oids w (minted w)), (clock w (tick w)). split; [done|].
  unfold started_task, includes.
  case_bool_decide; simpl; destruct (Redis.ready (redis w)); simpl;
    try destruct (Redis.outage _ _); simpl; rewrite ?replace_doc_twice by done; done.
Qed.

Lemma completeTimer_store (userId : Id) (notes : string) (w : World) :
  let s := store w in
  let s' := store (timerService.completeTimer userId notes w).2 in
  s' = s
  ∨ ∃ t0 task t' now d,
      List.find (active_of userId) (timers s) = Some t0
      ∧ List.find (λ t, bool_decide (Task._id t = Timer.task t0)) (tasks s) = Some task
      ∧ Timer._id t' = Timer._id t0 ∧ Timer.task t' = Timer.task t0
      ∧ Timer.isActive t' = false
      ∧ timers s' = replace_doc Timer._id t' (timers s)
      ∧ tasks s' = replace_doc Task._id (taskSchema.markAsCompleted_at now task userId d)
                               (tasks s).
Proof.
  cbv zeta. unfold timerService.completeTimer.
  step_with Timer_findOne_run.
  destruct (List.find (active_of userId) _) as [t0|] eqn:Hact; [|by left].
  step_with Task_findById_run.
  destruct (List.find _ (tasks _)) as [task|] eqn:Htask; [|by left].
  destruct (le_lt_dec (String.length notes) 500) as [Hshort|Hlong].
  2:{ step_with (complete_rejects t0 notes w Hlong). by left. }
  right. exists t0, task.
  unfold timerSchema.complete, timerSchema.calculateDuration, taskSchema.markAsCompleted,
    userSchema.updateStats, User_findById, Group_findById, groupSchema.updateStats, newDate,
    Timer_save, Task_save, User_save_stats, Group_save, put_store, Task_findById,
    getRedisClient, redis_del, redis_command, logger. run.
  rewrite bool_decide_eq_false_2 by lia. simpl.
  destruct (List.find _ (users _)) as [user|]; simpl.
  2:{ (eexists _, _, _; split; [first [exact Hact|reflexivity]|];
     split; [first [exact Htask|reflexivity]|];
     refine (conj _ (conj _ (conj _ (conj _ _)))); [| | |reflexivity|reflexivity];
     reflexivity). }
  destruct (Task.group _) as [g|]; simpl;
    [destruct (List.find _ (groups _)) as [group|]; simpl|];
    destruct (Redis.ready (redis w)); simpl; try destruct (Redis.outage _ _); simpl;
    (eexists _, _, _; split; [first [exact Hact|reflexivity]|];
     split; [first [exact Htask|reflexivity]|];
     refine (conj _ (conj _ (conj _ (conj _ _)))); [| | |reflexivity|reflexivity];
     reflexivity).
Qed.

Lemma elem_of_replace_doc {A} (key : A → Id) (d x : A) (l : list A) :
  x ∈ replace_doc key d l → x = d ∨ (x ∈ l ∧ key x ≠ key d).
Proof.
  unfold replace_doc. intros (y & -> & Hy)%list_elem_of_fmap.
  case_bool_decide; [by left|by right].
Qed.

Lemma active_on_app (k : Id) (l : list Timer.t) (t : Timer.t) :
  active_on k (l ++ [t])
  = (active_on k l + if bool_decide (Timer.task t = k) && Timer.isActive t then 1 else 0)%nat.
Proof.
  unfold active_on. rewrite List.filter_app, length_app. simpl.
  by destruct (_ && _).
Qed.

Lemma active_on_complete (k : Id) (l : list Timer.t) (t0 t' : Timer.t) :
  NoDup (Timer._id <$> l) → t0 ∈ l → Timer.isActive t0 = true →
  Timer._id t' = Timer._id t0 → Timer.isActive t' = false →
  active_on k l
  = (active_on k (replace_doc Timer._id t' l)
     + if bool_decide (Timer.task t0 = k) then 1 else 0)%nat.
Proof.
  intros Hnd Hin Ha Hid Hina. induction l as [|a l IH]; [by apply elem_of_nil in Hin|].
  simpl in Hnd. apply NoDup_cons in Hnd as [Hfresh Hnd].
  apply elem_of_cons in Hin as [<-|Hin].
  - unfold replace_doc. rewrite fmap_cons. fold (replace_doc Timer._id t' l).
    rewrite bool_decide_eq_true_2 by done.
    rewrite replace_doc_fresh by (by rewrite Hid).
    unfold active_on. simpl. rewrite Ha, Hina, andb_false_r, andb_true_r.
    case_bool_decide; simpl; lia.
  - unfold replace_doc. rewrite fmap_cons. fold (replace_doc Timer._id t' l).
    rewrite bool_decide_eq_false_2.
    + specialize (IH Hnd Hin). unfold active_on in *. simpl.
      destruct (_ && _); simpl; lia.
    + intros Heq. apply Hfresh. rewrite Heq, Hid. by apply list_elem_of_fmap_2.
Qed.

Lemma service_counters (r : Request) (w : World) :
  is_service r = true → UniqueTimerIds w → counters_ok w → counters_ok (exec r w).
Proof.
  intros Hr Hu Hc. destruct r; try discriminate Hr; simpl.
  - destruct (startTimer_store taskId userId w)
      as [Heq|(task & oid & now & Htask & Htm & Htk & _)]; cbv zeta in *.
    { unfold counters_ok. by rewrite Heq. }
    apply find_elem in Htask as [Hin Hid]. apply bool_decide_eq_true_1 in Hid.
    intros x Hx. rewrite Htk in Hx. rewrite Htm, active_on_app. simpl.
    apply elem_of_replace_doc in Hx as [->|[Hx Hne]]; simpl in *.
    + rewrite Hid, bool_decide_eq_true_2 by done. simpl.
      rewrite (Hc task Hin), Hid. lia.
    + rewrite bool_decide_eq_false_2 by congruence. simpl.
      rewrite (Hc x Hx). lia.
  - destruct (completeTimer_store userId notes w)
      as [Heq|(t0 & task & t' & now & d & Hact & Htask & Hid' & Htk' & Hina & Htm & Htk)];
      cbv zeta in *.
    { unfold counters_ok. by rewrite Heq. }
    apply find_elem in Hact as [Hin0 Hq]. apply andb_true_iff in Hq as [_ Ha0].
    apply find_elem in Htask as [Hin Hid]. apply bool_decide_eq_true_1 in Hid.
    intros x Hx. rewrite Htk in Hx. rewrite Htm.
    apply elem_of_replace_doc in Hx as [->|[Hx Hne]]; simpl in *.
    + pose proof (active_on_complete (Task._id task) _ t0 t' Hu Hin0 Ha0 Hid' Hina) as E.
      rewrite bool_decide_eq_true_2 in E by done.
      rewrite (Hc task Hin), E. unfold Math_max. lia.
    + pose proof (active_on_complete (Task._id x) _ t0 t' Hu Hin0 Ha0 Hid' Hina) as E.
      rewrite bool_decide_eq_false_2 in E by congruence.
      rewrite (Hc x Hx), E. lia.
  - destruct (getActiveTimer_reads userId w) as [Hs _]. unfold counters_ok. by rewrite Hs.
  - by rewrite listTaskTimers_reads.
Qed.

(** X11. Served one request at a time, the timer service keeps
    [activeTimers] exact: when every task's counter equals the number of its
    active timers and timer ids are unique, the same holds after any
    sequence of service requests in which each request ends, by returning
    or throwing, before the next begins ([exec_all]). Requests that overlap
    at an [await] are not covered. *)
Theorem service_keeps_counters (rs : list Request) (w : World) :
  Forall (λ r, is_service r = true) rs →
  UniqueTimerIds w → counters_ok w →
  counters_ok (exec_all rs w).
Proof.
  intros Hrs. revert w. induction Hrs as [|r rs Hr _ IH]; intros w Hu Hc; simpl; [done|].
  apply IH; [by apply exec_unique|by apply service_counters].
Qed.

Lemma service_keeps_counters_witness :
  counters_ok (exec_all [StartTimer "t1" "u1"; StartTimer "t1" "u2";
                         CompleteTimer "u1" ""] Demo.w0).
Proof.
  apply service_keeps_counters.
  - repeat constructor.
  - constructor.
  - intros task Htask. simpl in Htask.
    apply elem_of_cons in Htask as [->|Htask]; [done|].
    apply list_elem_of_singleton in Htask as ->. done.
Defined.

(** * Further properties of the leaderboards *)

#[local] Instance by_tasksCompleted_desc_total : Total by_tasksCompleted_desc.
Proof. intros a b. unfold by_tasksCompleted_desc. lia. Qed.

#[local] Instance by_tasksCompleted_desc_trans : Transitive by_tasksCompleted_desc.
Proof. intros a b c. unfold by_tasksCompleted_desc. lia. Qed.

#[local] Instance by_count_desc_total : Total by_count_desc.
Proof. intros a b. unfold by_count_desc. lia. Qed.

#[local] Instance by_count_desc_trans : Transitive by_count_desc.
Proof. intros a b c. unfold by_count_desc. lia. Qed.

#[local] Instance by_startTime_desc_total : Total by_startTime_desc.
Proof. intros a b. unfold by_startTime_desc. lia. Qed.

#[local] Instance by_startTime_desc_trans : Transitive by_startTime_desc.
Proof. intros a b c. unfold by_startTime_desc. lia. Qed.

Lemma StronglySorted_take {A} (R : relation A) (l : list A) (n : nat) :
  StronglySorted R l → StronglySorted R (take n l).
Proof.
  intros Hl. rewrite <- (take_drop n l) in Hl. by apply StronglySorted_app_1_l in Hl.
Qed.

Lemma StronglySorted_drop {A} (R : relation A) (l : list A) (n : nat) :
  StronglySorted R l → StronglySorted R (drop n l).
Proof.
  intros Hl. rewrite <- (take_drop n l) in Hl. by apply StronglySorted_app_1_r in Hl.
Qed.

(** The statistics the loop over the timers accumulates for one user. *)
Lemma tally_fold_stats (u : Id) (l : list Timer.t) (m : gmap string Stats.t) :
  let s0 := default Stats.zero (m !! u) in
  let s := default Stats.zero (foldl tally m l !! u) in
  Stats.tasksCompleted s = Stats.tasksCompleted s0 + Z.of_nat (length (timers_of u l))
  ∧ Stats.totalTime s = Stats.totalTime s0 + sum_durations (timers_of u l)
  ∧ Stats.tasksCompletedOnTime s
    = Stats.tasksCompletedOnTime s0 + count_on_time (timers_of u l).
Proof.
  revert m. induction l as [|t l IH]; intros m; cbv zeta.
  - unfold count_on_time. simpl. lia.
  - simpl. destruct (IH (tally m t)) as (H1 & H2 & H3). rewrite H1, H2, H3.
    unfold timers_of, tally, count_on_time. simpl.
    destruct (decide (Timer.user t = u)) as [->|Hne].
    + rewrite lookup_insert_eq, bool_decide_eq_true_2 by done. simpl.
      destruct (Timer.completedOnTime t); simpl; lia.
    + rewrite lookup_insert_ne, bool_decide_eq_false_2 by done. simpl. lia.
Qed.

(** The percentage of the leaderboards, [Math.round((a / b) * 100)] in
    doubles: between 0 and 100, and within half a unit (and 10^-10, for the
    rounding of the doubles) of the exact percentage. *)
Lemma percent_close (a b : Z) :
  0 ≤ a ≤ b → 0 < b →
  let k := Math_round (fmul (fdiv (inject_Z a) (inject_Z b)) 100) in
  0 ≤ k ≤ 100
  ∧ (inject_Z (100 * a) / inject_Z b - (1 # 2) - (1 # 10000000000) <= inject_Z k
     ∧ inject_Z k <= inject_Z (100 * a) / inject_Z b + (1 # 2) + (1 # 10000000000))%Q.
Proof.
  intros [Ha Hab] Hb k. subst k.
  set (A := inject_Z a). set (B := inject_Z b).
  assert (HA : (0 <= A)%Q) by (unfold A; change 0%Q with (inject_Z 0); by rewrite <- Zle_Qle).
  assert (HAB : (A <= B)%Q) by (unfold A, B; by rewrite <- Zle_Qle).
  assert (HB : (0 < B)%Q) by (unfold B; change 0%Q with (inject_Z 0); by rewrite <- Zlt_Qlt).
  set (x := (A / B)%Q).
  assert (Hx : (0 <= x ∧ x <= 1)%Q).
  { unfold x. split; [apply Qle_shift_div_l; lra|apply Qle_shift_div_r; lra]. }
  assert (Hp : (inject_Z (100 * a) / B == 100 * x)%Q).
  { rewrite inject_Z_mult. fold A. unfold x, Qdiv. change (inject_Z 100) with 100%Q. ring. }
  rewrite Hp. unfold fmul, fdiv. fold x.
  set (q := fl x).
  destruct (fl_close x ltac:(lra)) as [Hq1 Hq2]. fold q in Hq1, Hq2.
  assert (Hq0 : (0 <= q)%Q) by (apply fl_nonneg; lra).
  assert (Hq3 : (q <= 1)%Q).
  { change 1%Q with (fl 1). apply fl_mono. lra. }
  set (t := fl (q * 100)).
  destruct (fl_close (q * 100) ltac:(lra)) as [Ht1 Ht2]. fold t in Ht1, Ht2.
  assert (Ht0 : (0 <= t)%Q) by (apply fl_nonneg; lra).
  assert (Ht3 : (t <= 100)%Q).
  { change 100%Q with (fl 100). apply fl_mono. lra. }
  destruct (Math_round_bounds t) as [Hk1 Hk2].
  rewrite inject_Z_plus in Hk2. change (inject_Z 1) with 1%Q in Hk2.
  destruct Hx as [Hx0 Hx1].
  clearbody t q x. clear - Hk1 Hk2 Ht0 Ht1 Ht2 Ht3 Hq0 Hq1 Hq2 Hq3 Hx0 Hx1.
  split; [split|split].
  - apply Z.lt_succ_r. rewrite Zlt_Qlt. unfold Z.succ. rewrite inject_Z_plus.
    change (inject_Z 0) with 0%Q. change (inject_Z 1) with 1%Q. lra.
  - apply Z.lt_succ_r. rewrite Zlt_Qlt. change (inject_Z (Z.succ 100)) with 101%Q. lra.
  - lra.
  - lra.
Qed.

Lemma completionRate_bounds (s : Stats.t) :
  0 ≤ Stats.tasksCompletedOnTime s ≤ Stats.tasksCompleted s →
  0 ≤ completionRate s ≤ 100.
Proof.
  intros Hs. unfold completionRate. case_bool_decide as Hpos; [|lia].
  apply (percent_close _ _ Hs). lia.
Qed.

Lemma count_on_time_le (l : list Timer.t) : 0 ≤ count_on_time l ≤ Z.of_nat (length l).
Proof.
  unfold count_on_time. split; [lia|]. apply inj_le.
  induction l as [|t l IH]; simpl; [done|]. destruct (Timer.completedOnTime t); simpl; lia.
Qed.

Lemma group_rows_stats (groupId timeFrame : string) (w : World) (group : Group.t) :
  List.find (λ g, bool_decide (Group._id g = groupId)) (groups (store w)) = Some group →
  let counted :=
    group_timers (store w) group groupId (group_since timeFrame (clock w (tick w))) in
  ∃ rows w',
    generateGroupLeaderboard groupId timeFrame w = (Ok rows, w')
    ∧ StronglySorted by_tasksCompleted_desc rows
    ∧ ∀ row, row ∈ rows →
        let mine := timers_of (Row.user_id row) counted in
        Row.tasksCompleted row = Z.of_nat (length mine)
        ∧ Row.totalTime row = sum_durations mine
        ∧ Row.completionRate row
          = (if bool_decide (Z.of_nat (length mine) > 0)
             then Math_round (fmul (fdiv (inject_Z (count_on_time mine))
                                         (inject_Z (Z.of_nat (length mine)))) 100)
             else 0)
        ∧ 0 ≤ Row.completionRate row ≤ 100
        ∧ (mine ≠ [] →
           (inject_Z (100 * count_on_time mine) / inject_Z (Z.of_nat (length mine))
            - (1 # 2) - (1 # 10000000000) <= inject_Z (Row.completionRate row)
            ∧ inject_Z (Row.completionRate row)
              <= inject_Z (100 * count_on_time mine) / inject_Z (Z.of_nat (length mine))
                 + (1 # 2) + (1 # 10000000000))%Q).
Proof.
  intros Hg counted.
  destruct (group_run groupId timeFrame w group Hg) as [w' Hrun].
  eexists _, w'. split; [exact Hrun|]. split; [apply StronglySorted_merge_sort; apply _|].
  intros row. rewrite merge_sort_Permutation.
  intros (x & -> & Hx)%list_elem_of_fmap. cbv zeta. simpl.
  fold counted.
  destruct (tally_fold_stats (User._id x) counted ∅) as (H1 & H2 & H3).
  rewrite lookup_empty in H1, H2, H3. simpl in H1, H2, H3.
  set (s := default Stats.zero (foldl tally ∅ counted !! User._id x)) in *.
  split; [lia|]. split; [lia|].
  rewrite Z.add_0_l in H1, H3. split; [|split].
  - unfold completionRate. by rewrite H1, H3.
  - apply completionRate_bounds. rewrite H1, H3. apply count_on_time_le.
  - intros Hne. unfold completionRate. rewrite H1, H3.
    assert (Hlen : 0 < Z.of_nat (length (timers_of (User._id x) counted))).
    { destruct (timers_of (User._id x) counted); [done|simpl; lia]. }
    rewrite bool_decide_eq_true_2 by lia.
    apply (percent_close _ _ (count_on_time_le _) Hlen).
Qed.

(** The timers a group leaderboard counts, spelled out. *)
Lemma elem_of_group_timers (s : Store) (group : Group.t) (groupId : Id) (since : option Z)
    (t : Timer.t) :
  t ∈ group_timers s group groupId since
  ↔ t ∈ timers s
    ∧ (∃ task, task ∈ tasks s ∧ Task.group task = Some groupId
               ∧ Task._id task = Timer.task t)
    ∧ Timer.user t ∈ Group.members group ++ Group.leaders group
    ∧ Timer.isCompleted t = true
    ∧ match since with
      | Some bound => ∃ e, Timer.endTime t = Some e ∧ bound ≤ e
      | None => True
      end.
Proof.
  unfold group_timers, group_match, includes. cbv zeta.
  rewrite elem_of_bfilter, !andb_true_iff, !bool_decide_eq_true.
  rewrite list_elem_of_fmap.
  assert (Htime : filter_since since t = true
                  ↔ match since with
                    | Some bound => ∃ e, Timer.endTime t = Some e ∧ bound ≤ e
                    | None => True
                    end).
  { destruct since as [bound|]; simpl; [|done]. unfold endTime_gte.
    destruct (Timer.endTime t) as [e|].
    - rewrite bool_decide_eq_true. split; [by exists e|]. by intros (e' & [= <-] & H).
    - split; [done|]. by intros (e' & ? & _). }
  rewrite Htime. split.
  - intros (Hin & ((( (task & Hid & Htask) & Hu) & Hc) & Hf)).
    apply elem_of_bfilter in Htask as [Htask Hg]. apply bool_decide_eq_true_1 in Hg.
    split; [done|]. split; [by exists task|]. done.
  - intros (Hin & (task & Htask & Hg & Hid) & Hu & Hc & Hf).
    split; [done|]. split; [|done]. split; [|done]. split; [|done].
    exists task. split; [done|]. apply elem_of_bfilter. split; [done|].
    by apply bool_decide_eq_true_2.
Qed.

(** X12. The timers a group leaderboard counts are the completed timers of
    the group's members and leaders on the stored tasks of the group, with
    an end time inside the window of the time frame. The rows are sorted by
    [tasksCompleted], highest first, and each row is exact:
    [tasksCompleted] is the number of counted timers of its user,
    [totalTime] the sum of their durations, and [completionRate] is
    [Math.round((onTime / count) * 100)] in doubles (0 when there is no
    timer): an integer between 0 and 100 within half a unit, and 10^-10 for
    the rounding of the doubles, of the exact percentage. *)
Theorem group_leaderboard_rows (groupId timeFrame : string) (w : World) (group : Group.t) :
  List.find (λ g, bool_decide (Group._id g = groupId)) (groups (store w)) = Some group →
  let since := group_since timeFrame (clock w (tick w)) in
  let counted := group_timers (store w) group groupId since in
  (∀ t, t ∈ counted
        ↔ t ∈ timers (store w)
          ∧ (∃ task, task ∈ tasks (store w) ∧ Task.group task = Some groupId
                     ∧ Task._id task = Timer.task t)
          ∧ Timer.user t ∈ Group.members group ++ Group.leaders group
          ∧ Timer.isCompleted t = true
          ∧ match since with
            | Some bound => ∃ e, Timer.endTime t = Some e ∧ bound ≤ e
            | None => True
            end)
  ∧ ∃ rows w',
      generateGroupLeaderboard groupId timeFrame w = (Ok rows, w')
      ∧ StronglySorted by_tasksCompleted_desc rows
      ∧ ∀ row, row ∈ rows →
          let mine := timers_of (Row.user_id row) counted in
          Row.tasksCompleted row = Z.of_nat (length mine)
          ∧ Row.totalTime row = sum_durations mine
          ∧ Row.completionRate row
            = (if bool_decide (Z.of_nat (length mine) > 0)
               then Math_round (fmul (fdiv (inject_Z (count_on_time mine))
                                           (inject_Z (Z.of_nat (length mine)))) 100)
               else 0)
          ∧ 0 ≤ Row.completionRate row ≤ 100
          ∧ (mine ≠ [] →
             (inject_Z (100 * count_on_time mine) / inject_Z (Z.of_nat (length mine))
              - (1 # 2) - (1 # 10000000000) <= inject_Z (Row.completionRate row)
              ∧ inject_Z (Row.completionRate row)
                <= inject_Z (100 * count_on_time mine) / inject_Z (Z.of_nat (length mine))
                   + (1 # 2) + (1 # 10000000000))%Q).
Proof.
  intros Hg since counted. split.
  - intros t. apply elem_of_group_timers.
  - by apply group_rows_stats.
Qed.

Lemma group_leaderboard_rows_witness :
  ∃ rows w',
    generateGroupLeaderboard "g1" "week" Demo.w0 = (Ok rows, w')
    ∧ StronglySorted by_tasksCompleted_desc rows.
Proof.
  destruct (group_leaderboard_rows "g1" "week" Demo.w0 Demo.group1 eq_refl)
    as [_ (rows & w' & Hrun & Hsorted & _)].
  exists rows, w'. split; [exact Hrun|exact Hsorted].
Defined.

(** The group leaderboard of a user with 23 of 40 timers on time: exactly
    57.5 percent, which rounds to 58; the doubles give 57.49999999999999, and
    the row says 57. *)
Example completionRate_23_of_40 :
  completionRate (Stats.mk 40 600 23) = 57
  ∧ Math_round (inject_Z 23 / inject_Z 40 * 100) = 58.
Proof. split; by vm_compute. Qed.

(** X13. The group leaderboard knows the time frames 'week' and 'month'
    only: any other value, 'year' included, gives the all-time leaderboard
    and reads no clock; a missing group is the error "Group not found". In
    every case store, Redis and log are left as they were. *)
Theorem group_leaderboard_time_frames (groupId timeFrame : string) (w : World) :
  (timeFrame ≠ "week" → timeFrame ≠ "month" →
   generateGroupLeaderboard groupId timeFrame w = generateGroupLeaderboard groupId "all" w
   ∧ tick (generateGroupLeaderboard groupId timeFrame w).2 = tick w)
  ∧ (List.find (λ g, bool_decide (Group._id g = groupId)) (groups (store w)) = None →
     generateGroupLeaderboard groupId timeFrame w = (Throw GroupNotFound, w))
  ∧ store (generateGroupLeaderboard groupId timeFrame w).2 = store w
  ∧ redis (generateGroupLeaderboard groupId timeFrame w).2 = redis w
  ∧ logs (generateGroupLeaderboard groupId timeFrame w).2 = logs w.
Proof.
  split; [|split].
  - intros H1 H2.
    unfold generateGroupLeaderboard, Group_findById, Task_find, Timer_find, User_find. run.
    destruct (List.find _ (groups _)); simpl; [|done].
    by rewrite !bool_decide_eq_false_2.
  - intros Hnone. unfold generateGroupLeaderboard, Group_findById. run. by rewrite Hnone.
  - destruct (group_ignores_cache groupId timeFrame w (redis w)) as (H1 & H2 & H3 & _).
    done.
Qed.

Lemma group_leaderboard_time_frames_witness :
  generateGroupLeaderboard "g1" "year" Demo.w0 = generateGroupLeaderboard "g1" "all" Demo.w0.
Proof.
  destruct (group_leaderboard_time_frames "g1" "year" Demo.w0) as [H _].
  by destruct (H ltac:(discriminate) ltac:(discriminate)).
Defined.

Lemma filter_andb_true {A} (q : A → bool) (l : list A) :
  List.filter (λ t, q t && true) l = List.filter q l.
Proof. apply List.filter_ext. intros t. apply andb_true_r. Qed.

Lemma generateLeaderboard_all (group : Group.t) (w : World) :
  List.find (λ g, bool_decide (Group._id g = Group._id group)) (groups (store w))
  = Some group →
  groupModel.generateLeaderboard group w
  = generateGroupLeaderboard (Group._id group) "all" w.
Proof.
  intros Hg.
  unfold groupModel.generateLeaderboard, generateGroupLeaderboard, Group_findById,
    Task_find, Timer_find, User_find. run. rewrite Hg. simpl.
  unfold group_match, group_row, completionRate, fullName. cbv beta.
  by rewrite filter_andb_true.
Qed.

(** X14. [getLeaderboard] of the group service: for a leader or member of
    the group, and for anyone when the group is public, it is the all-time
    leaderboard of [generateGroupLeaderboard]; for anyone else it throws
    "You do not have permission to view this group"; for a missing group
    "Group not found". The errors leave the world as it was. *)
Theorem getLeaderboard_access (groupId userId : Id) (w : World) :
  match List.find (λ g, bool_decide (Group._id g = groupId)) (groups (store w)) with
  | None => groupService.getLeaderboard groupId userId w = (Throw GroupNotFound, w)
  | Some group =>
      if bool_decide (userId ∈ Group.leaders group) || bool_decide (userId ∈ Group.members group)
         || Group.isPublic group
      then groupService.getLeaderboard groupId userId w
           = generateGroupLeaderboard groupId "all" w
      else groupService.getLeaderboard groupId userId w = (Throw NoGroupViewAccess, w)
  end.
Proof.
  unfold groupService.getLeaderboard.
  rewrite bind_run. unfold Group_findById at 1. run.
  destruct (List.find _ (groups _)) as [group|] eqn:Hg; [|done].
  apply find_elem in Hg as Hg'. destruct Hg' as [_ Hid].
  apply bool_decide_eq_true_1 in Hid. subst groupId.
  unfold includes.
  destruct (bool_decide (userId ∈ Group.leaders group)),
    (bool_decide (userId ∈ Group.members group)), (Group.isPublic group); simpl;
    try done; by apply generateLeaderboard_all.
Qed.

(** X15. Without an initialized Redis client [generateGlobalLeaderboard]
    throws "Redis client not initialized", whatever the store holds:
    [getRedisClient] is called outside the try blocks. Store, Redis and log
    are left as they were. *)
Theorem global_leaderboard_needs_client (timeFrame : string) (limit : Z) (w : World) :
  Redis.ready (redis w) = false →
  ∃ w', generateGlobalLeaderboard timeFrame limit w = (Throw RedisNotInitialized, w')
        ∧ store w' = store w ∧ redis w' = redis w ∧ logs w' = logs w.
Proof.
  intros Hready.
  unfold generateGlobalLeaderboard, getRedisClient, daysAgo, newDate. run.
  repeat case_bool_decide; simpl; rewrite Hready; eexists; (split; [reflexivity|done]).
Qed.

Lemma global_leaderboard_needs_client_witness :
  ∃ w', generateGlobalLeaderboard "month" 10
          (with_redis (Redis.mk false ∅ (λ _, false) 0) Demo.w0)
        = (Throw RedisNotInitialized, w').
Proof.
  destruct (global_leaderboard_needs_client "month" 10
              (with_redis (Redis.mk false ∅ (λ _, false) 0) Demo.w0) eq_refl)
    as (w' & Hrun & _).
  by exists w'.
Defined.

(** X16. When Redis rejects the read of the cache, the failure is logged
    and the leaderboard is computed from the store as on a miss, whatever
    the cache holds; the result is then cached if the write is answered. *)
Theorem global_leaderboard_read_failure (timeFrame : string) (limit : Z) (w : World) :
  Redis.ready (redis w) = true →
  0 < limit →
  Redis.outage (redis w) (Redis.sent (redis w)) = true →
  let board := global_board (store w) timeFrame (clock w (tick w)) limit in
  let tset := clock w (tick w + filter_ticks timeFrame) in
  ∃ w', generateGlobalLeaderboard timeFrame limit w = (Ok (take (Z.to_nat limit) board), w')
        ∧ store w' = store w
        ∧ if Redis.outage (redis w) (S (Redis.sent (redis w)))
          then Redis.data (redis w') = Redis.data (redis w)
               ∧ logs w' = logs w ++ [(error, "Error getting leaderboard from cache:");
                                      (error, "Error caching leaderboard:")]
          else Redis.data (redis w')
               = <[cacheKey timeFrame :=
                     Redis.mkEntry (VBoard board) (Some (tset + 60 * 60 * 1000))]>
                   (Redis.data (redis w))
               ∧ logs w' = logs w ++ [(error, "Error getting leaderboard from cache:")].
Proof.
  intros Hready Hlimit Hout board tset.
  rewrite <- slice0_take by lia.
  unfold generateGlobalLeaderboard, read_cache, aggregate, try_catch, redis_get, redis_set,
    redis_command, getRedisClient, daysAgo, newDate, Group_find, Timer_find, User_find,
    logger. run.
  subst board tset. unfold global_board, filter_ticks, global_since in *.
  rewrite (bool_decide_eq_false_2 (limit * 2 ≤ 0)) by lia.
  repeat case_bool_decide; simpl in *; rewrite Hready; simpl; rewrite Hout; simpl;
    destruct (Redis.outage (redis w) (S (Redis.sent (redis w)))); simpl.
  all: eexists; split; [reflexivity|].
  all: simpl; rewrite ?Nat.add_1_r, ?Nat.add_0_r, <- ?app_assoc; repeat split; reflexivity.
Qed.

Lemma global_leaderboard_read_failure_witness :
  ∃ w', generateGlobalLeaderboard "month" 1 (with_redis (Redis.mk true
          {[ "leaderboard:global:month" := Redis.mkEntry (VBoard [Demo.row1]) None ]}
          (λ _, true) 0) Demo.w0) = (Ok [], w').
Proof.
  destruct (global_leaderboard_read_failure "month" 1
              (with_redis (Redis.mk true
                 {[ "leaderboard:global:month" := Redis.mkEntry (VBoard [Demo.row1]) None ]}
                 (λ _, true) 0) Demo.w0) eq_refl ltac:(lia) eq_refl)
    as (w' & Hrun & _).
  exists w'. exact Hrun.
Defined.

Lemma omap_global_row_sorted (m : gmap string User.t) (l : list (Id * Stats.t)) :
  StronglySorted by_count_desc l →
  StronglySorted by_tasksCompleted_desc (omap (global_row m) l).
Proof.
  induction 1 as [|stat l Hl IH Hall]; simpl; [constructor|].
  destruct (global_row m stat) as [row|] eqn:Hrow; [|done].
  constructor; [done|].
  apply Forall_forall. intros row' (stat' & Hin & Hrow')%list_elem_of_omap.
  rewrite Forall_forall in Hall. specialize (Hall stat' Hin).
  unfold global_row in Hrow, Hrow'.
  destruct (m !! stat.1); [|done]. destruct (m !! stat'.1); [|done].
  simplify_eq/=. exact Hall.
Qed.

Lemma omap_global_row_users (l : list User.t) (stats : list (Id * Stats.t)) :
  Row.user_id <$> omap (global_row (foldl (λ m user, <[User._id user := user]> m) ∅ l)) stats
  `sublist_of` (fst <$> stats).
Proof.
  induction stats as [|stat stats IH]; simpl; [done|].
  destruct (global_row _ stat) as [row|] eqn:Hrow; simpl.
  - unfold global_row in Hrow.
    destruct (_ !! stat.1) as [user|] eqn:Huser; [|done]. simplify_eq/=.
    rewrite (userMap_lookup _ _ _ _ Huser); [by constructor|].
    intros y. by rewrite lookup_empty.
  - by constructor.
Qed.

(** X17. The leaderboard [generateGlobalLeaderboard] computes on a cache
    miss has at most [limit] rows, sorted by [tasksCompleted] with the
    highest first, and no user appears twice. *)
Theorem global_leaderboard_shape (timeFrame : string) (limit : Z) (w : World) :
  Redis.ready (redis w) = true →
  0 < limit →
  Redis.outage (redis w) (Redis.sent (redis w)) = false →
  visible (clock w (tick w + filter_ticks timeFrame)) (Redis.data (redis w))
          (cacheKey timeFrame) = None →
  ∃ rows w',
    generateGlobalLeaderboard timeFrame limit w = (Ok rows, w')
    ∧ Z.of_nat (length rows) ≤ limit
    ∧ StronglySorted by_tasksCompleted_desc rows
    ∧ NoDup (Row.user_id <$> rows).
Proof.
  intros Hready Hlimit Hout Hmiss.
  destruct (global_miss timeFrame limit w Hready Hlimit Hout Hmiss) as (w' & Hrun & _).
  eexists _, w'. split; [exact Hrun|].
  rewrite slice0_take by lia. split; [|split].
  - rewrite length_take. lia.
  - apply StronglySorted_take. unfold global_board. cbv zeta.
    apply omap_global_row_sorted, StronglySorted_take, StronglySorted_merge_sort; apply _.
  - rewrite fmap_take. eapply sublist_NoDup; [|apply sublist_take].
    unfold global_board. cbv zeta.
    eapply sublist_NoDup; [|apply omap_global_row_users].
    rewrite fmap_take. eapply sublist_NoDup; [|apply sublist_take].
    rewrite merge_sort_Permutation. apply NoDup_fst_map_to_list.
Qed.

Lemma global_leaderboard_shape_witness :
  ∃ rows w',
    generateGlobalLeaderboard "month" 10 Demo.w0 = (Ok rows, w')
    ∧ Z.of_nat (length rows) ≤ 10
    ∧ NoDup (Row.user_id <$> rows).
Proof.
  destruct (global_leaderboard_shape "month" 10 Demo.w0 eq_refl ltac:(lia) eq_refl eq_refl)
    as (rows & w' & Hrun & Hlen & _ & Hnd).
  exists rows, w'. split; [exact Hrun|]. split; [exact Hlen|exact Hnd].
Defined.

(** * Pagination of [listTaskTimers] *)

Lemma Qceiling_quotient (a b : Z) :
  0 < b → Qceiling (inject_Z a / inject_Z b) = - ((- a) / b).
Proof.
  intros Hb. unfold Qceiling. f_equal. rewrite Zdiv_Qdiv. apply Qfloor_comp.
  rewrite inject_Z_opp.
  assert (Hne : ¬ (inject_Z b == 0)%Q).
  { change 0%Q with (inject_Z 0). rewrite inject_Z_injective. lia. }
  field. done.
Qed.

Lemma Qceiling_pages (n l : Z) :
  0 < l →
  let p := Qceiling (inject_Z n / inject_Z l) in
  (p - 1) * l < n ≤ p * l.
Proof.
  intros Hl p. subst p. rewrite Qceiling_quotient by done.
  pose proof (Z.mul_div_le (- n) l ltac:(lia)).
  pose proof (Z.mul_succ_div_gt (- n) l ltac:(lia)).
  lia.
Qed.

Lemma listTaskTimers_run (taskId userId : Id) (page limit : Z) (w : World) (task : Task.t) :
  List.find (λ t, bool_decide (Task._id t = taskId)) (tasks (store w)) = Some task →
  may_access (store w) task userId = true →
  timerService.listTaskTimers taskId userId page limit w
  = (Ok (take (Z.to_nat limit) (drop (Z.to_nat ((page - 1) * limit))
                                     (task_timers (store w) taskId)),
         View.mkPagination page limit (Z.of_nat (length (task_timers (store w) taskId)))
           (Qceiling (inject_Z (Z.of_nat (length (task_timers (store w) taskId)))
                      / inject_Z limit))
           (bool_decide (page < Qceiling
                           (inject_Z (Z.of_nat (length (task_timers (store w) taskId)))
                            / inject_Z limit)))
           (bool_decide (page > 1))), w).
Proof.
  intros Htask Hacc.
  unfold timerService.listTaskTimers.
  rewrite bind_run, Task_findById_run, Htask. lazy beta iota.
  rewrite bind_run, hasAccess_may_access, Hacc. lazy beta iota.
  unfold Timer_find, task_timers. run.
  by rewrite (Permutation_length (merge_sort_Permutation by_startTime_desc _)).
Qed.

(** X18. A page of [listTaskTimers], for a user with access and the
    [page >= 1], [limit >= 1] of the route validation: the timers are timers
    of the task, newest start first, as many as the limit allows of those
    left after the earlier pages; [totalItems] counts the task's timers,
    [totalPages] is the least number of pages of [limit] that holds them,
    and [hasNextPage] / [hasPrevPage] say whether timers remain after /
    before the page. Nothing is written. *)
Theorem listTaskTimers_page (taskId userId : Id) (page limit : Z) (w : World) (task : Task.t) :
  List.find (λ t, bool_decide (Task._id t = taskId)) (tasks (store w)) = Some task →
  may_access (store w) task userId = true →
  1 ≤ page → 1 ≤ limit →
  let total := Z.of_nat (length (List.filter (λ t, bool_decide (Timer.task t = taskId))
                                             (timers (store w)))) in
  ∃ ts pg,
    timerService.listTaskTimers taskId userId page limit w = (Ok (ts, pg), w)
    ∧ Z.of_nat (length ts) = Z.min limit (Z.max 0 (total - (page - 1) * limit))
    ∧ StronglySorted by_startTime_desc ts
    ∧ (∀ t, t ∈ ts → t ∈ timers (store w) ∧ Timer.task t = taskId)
    ∧ View.page pg = page ∧ View.limit pg = limit
    ∧ View.totalItems pg = total
    ∧ (View.totalPages pg - 1) * limit < total ≤ View.totalPages pg * limit
    ∧ (View.hasNextPage pg = true ↔ page * limit < total)
    ∧ (View.hasPrevPage pg = true ↔ 1 < page).
Proof.
  intros Htask Hacc Hpage Hlimit total.
  assert (Hlen : Z.of_nat (length (task_timers (store w) taskId)) = total).
  { unfold task_timers. by rewrite merge_sort_Permutation. }
  eexists _, _. split; [by apply (listTaskTimers_run _ _ _ _ _ task)|]. simpl. rewrite Hlen.
  pose proof (Qceiling_pages total limit ltac:(lia)) as Hceil. simpl in Hceil.
  split; [|split; [|split]].
  - assert (0 ≤ (page - 1) * limit) by nia.
    rewrite length_take, length_drop. lia.
  - apply StronglySorted_take, StronglySorted_drop, StronglySorted_merge_sort; apply _.
  - intros t Ht. apply subseteq_take, subseteq_drop in Ht.
    unfold task_timers in Ht. rewrite merge_sort_Permutation in Ht.
    apply list_elem_of_In, List.filter_In in Ht as [Ht Hk].
    apply bool_decide_eq_true_1 in Hk. split; [by apply list_elem_of_In|done].
  - repeat split; try done; try lia.
    + intros H%bool_decide_eq_true_1. nia.
    + intros H. apply bool_decide_eq_true_2. nia.
    + intros H%bool_decide_eq_true_1. lia.
    + intros H. apply bool_decide_eq_true_2. lia.
Qed.

Lemma listTaskTimers_page_witness :
  ∃ ts pg, timerService.listTaskTimers "t1" "u1" 1 10 Demo.w_running
           = (Ok (ts, pg), Demo.w_running)
           ∧ Z.of_nat (length ts) = 1 ∧ View.totalPages pg = 1
           ∧ View.hasNextPage pg = false.
Proof.
  destruct (listTaskTimers_page "t1" "u1" 1 10 Demo.w_running Demo.task1
              eq_refl eq_refl ltac:(lia) ltac:(lia))
    as (ts & pg & Hrun & Hlen & _ & _ & _ & _ & _ & Hpages & Hnext & _).
  exists ts, pg.
  match type of Hlen with
  | context [Z.of_nat (length (List.filter ?f ?l))] =>
      change (Z.of_nat (length (List.filter f l))) with 1 in Hlen, Hpages, Hnext
  end.
  split; [exact Hrun|]. split; [lia|]. split; [lia|].
  destruct (View.hasNextPage pg); [|done].
  destruct Hnext as [Hnext _]. specialize (Hnext eq_refl). lia.
Defined.

Lemma take_add_drop {A} (a b : nat) (l : list A) :
  take (a + b) l = take a l ++ take b (drop a l).
Proof.
  revert l. induction a as [|a IH]; intros [|x l]; simpl; try done.
  - by rewrite take_nil.
  - by rewrite IH.
Qed.

Lemma pages_join {A} (n L : nat) (l : list A) :
  mjoin ((λ p : nat, take L (drop ((p - 1) * L) l)) <$> seq 1 n) = take (n * L) l.
Proof.
  induction n as [|n IH]; [done|].
  rewrite seq_S, fmap_app, join_app, IH. simpl.
  rewrite app_nil_r, Nat.sub_0_r, (Nat.add_comm L), take_add_drop. done.
Qed.

(** A list sorted by an order that is antisymmetric on its elements is the
    only sorted arrangement of these elements. *)
Lemma sorted_arrangement_unique {A} (R : relation A) (l1 l2 : list A) :
  (∀ a b, a ∈ l1 → b ∈ l1 → R a b → R b a → a = b) →
  StronglySorted R l1 → StronglySorted R l2 → l1 ≡ₚ l2 → l1 = l2.
Proof.
  intros Hanti Hl1. revert l2 Hanti.
  induction Hl1 as [|x1 l1 ? IH Hx1]; intros l2 Hanti Hl2 E.
  { symmetry. by apply Permutation_nil. }
  destruct Hl2 as [|x2 l2 ? Hx2].
  { symmetry in E. by apply Permutation_nil_cons in E. }
  assert (x1 = x2) as ->.
  { rewrite Forall_forall in Hx1, Hx2.
    assert (x2 ∈ x1 :: l1) as Hx2' by (rewrite E; left).
    assert (x1 ∈ x2 :: l2) as Hx1' by (rewrite <- E; left).
    apply elem_of_cons in Hx1' as [Heq|Hx1']; [done|].
    apply elem_of_cons in Hx2' as [Heq|Hx2']; [done|].
    apply Hanti; [left|by right| |]; auto. }
  f_equal. apply IH.
  - intros a b Ha Hb. apply Hanti; by right.
  - done.
  - by apply (inj (x2 ::.)).
Qed.

Lemma sorted_query_unique (s : Store) (taskId : Id) (l : list Timer.t) :
  NoDup (Timer.startTime <$>
           List.filter (λ t, bool_decide (Timer.task t = taskId)) (timers s)) →
  sorted_query s taskId l → l = task_timers s taskId.
Proof.
  intros Hnd [Hperm Hsorted]. symmetry.
  assert (Hmine : task_timers s taskId
                  ≡ₚ List.filter (λ t, bool_decide (Timer.task t = taskId)) (timers s)).
  { unfold task_timers. apply merge_sort_Permutation. }
  apply (sorted_arrangement_unique by_startTime_desc).
  - intros a b Ha Hb Hab Hba. rewrite Hmine in Ha, Hb.
    unfold by_startTime_desc in Hab, Hba.
    assert (Heq : Timer.startTime a = Timer.startTime b) by lia.
    apply list_elem_of_lookup in Ha as [i Hi]. apply list_elem_of_lookup in Hb as [j Hj].
    assert (i = j) as ->; [|congruence].
    eapply NoDup_lookup; [exact Hnd| |].
    + rewrite list_lookup_fmap, Hi. reflexivity.
    + rewrite list_lookup_fmap, Hj. simpl. by rewrite Heq.
  - unfold task_timers. apply StronglySorted_merge_sort; apply _.
  - done.
  - by rewrite Hmine, Hperm.
Qed.

(** X19. When the timers of the task have pairwise different start times,
    the query [Timer.find({ task }).sort({ startTime: -1 })] has one possible
    result, the same for the query of every page, and paging through
    [listTaskTimers] from page 1 to [totalPages] returns every timer of the
    task exactly once, in that order: the pages neither overlap nor skip a
    timer. (With equal start times the database may order the ties
    differently from one page's query to the next, and nothing is stated.) *)
Theorem listTaskTimers_pages_cover (taskId userId : Id) (limit : Z) (w : World)
    (task : Task.t) :
  List.find (λ t, bool_decide (Task._id t = taskId)) (tasks (store w)) = Some task →
  may_access (store w) task userId = true →
  1 ≤ limit →
  NoDup (Timer.startTime <$>
           List.filter (λ t, bool_decide (Timer.task t = taskId)) (timers (store w))) →
  let totalPages :=
    Qceiling (inject_Z (Z.of_nat (length (task_timers (store w) taskId))) / inject_Z limit) in
  let pages := mjoin (page_of taskId userId limit w <$> seq 1 (Z.to_nat totalPages)) in
  (∀ l, sorted_query (store w) taskId l → l = pages)
  ∧ sorted_query (store w) taskId pages
  ∧ pages = task_timers (store w) taskId.
Proof.
  intros Htask Hacc Hlimit Hnd totalPages pages.
  assert (Hpages : pages = task_timers (store w) taskId).
  { subst pages.
    pose proof (Qceiling_pages (Z.of_nat (length (task_timers (store w) taskId))) limit
                  ltac:(lia)) as Hceil. simpl in Hceil. fold totalPages in Hceil.
    transitivity (mjoin ((λ p : nat, take (Z.to_nat limit)
                            (drop ((p - 1) * Z.to_nat limit) (task_timers (store w) taskId)))
                         <$> seq 1 (Z.to_nat totalPages))).
    - f_equal. apply list_fmap_ext. intros i p _. unfold page_of.
      rewrite (listTaskTimers_run _ _ _ _ _ task) by done.
      do 2 f_equal. destruct p as [|q].
      + change (Z.of_nat 0 - 1) with (-1). simpl. lia.
      + replace (Z.of_nat (S q) - 1) with (Z.of_nat q) by lia.
        rewrite Z2Nat.inj_mul, Nat2Z.id by lia. simpl. by rewrite Nat.sub_0_r.
    - rewrite pages_join. apply take_ge. nia. }
  rewrite Hpages. split; [|split; [|done]].
  - intros l Hl. by apply sorted_query_unique.
  - split.
    + unfold task_timers. apply merge_sort_Permutation.
    + unfold task_timers. apply StronglySorted_merge_sort; apply _.
Qed.

Lemma listTaskTimers_pages_cover_witness :
  mjoin (page_of "t1" "u1" 1 Demo.w_running <$> seq 1 1) = [Demo.running].
Proof.
  exact (proj2 (proj2 (listTaskTimers_pages_cover "t1" "u1" 1 Demo.w_running Demo.task1
                         eq_refl eq_refl ltac:(lia)
                         ltac:(apply (bool_decide_unpack _); by vm_compute)))).
Defined.
(** * The socket handlers *)

Lemma startTimer_rejects (taskId userId : Id) (w : World) (task : Task.t) :
  List.find (λ t, bool_decide (Task._id t = taskId)) (tasks (store w)) = Some task →
  Task.status task ≠ completed → Task.status task ≠ cancelled →
  may_access (store w) task userId = false
  ∨ List.find (active_of userId) (timers (store w)) ≠ None →
  ∃ e, timerService.startTimer taskId userId w = (Throw e, w) ∧ start_rejection e.
Proof.
  intros Htask Hs1 Hs2 Hno.
  unfold timerService.startTimer.
  step_with Timer_findOne_run.
  destruct (List.find (active_of userId) _) as [t|] eqn:Hact.
  { exists ActiveTimerExists. split; [reflexivity|by left]. }
  destruct Hno as [Hacc|Hact']; [|done].
  step_with Task_findById_run. rewrite Htask.
  rewrite !bool_decide_eq_false_2 by done. cbn [orb].
  step_with hasAccess_may_access. rewrite Hacc. cbn [negb].
  exists NoAccess. split; [reflexivity|]. by right; right; right.
Qed.

(** X20. The 'timer:start' event checks neither access to the task nor
    an active timer of the user: for any stored task that is not completed
    or cancelled it creates an active timer of the socket's user, counts it
    on the task and indexes it in Redis, also where [startTimer] of the
    service rejects the same request and changes nothing. *)
Theorem socket_start_unchecked (socketUser taskId : Id) (w : World) (task : Task.t) :
  List.find (λ t, bool_decide (Task._id t = taskId)) (tasks (store w)) = Some task →
  Task.status task ≠ completed → Task.status task ≠ cancelled →
  oids w (minted w) ∉ (Timer._id <$> timers (store w)) →
  Redis.ready (redis w) = true →
  Redis.outage (redis w) (Redis.sent (redis w)) = false →
  let now := clock w (tick w) in
  let oid := oids w (minted w) in
  let timer :=
    Timer.mk oid taskId socketUser (Task.group task) now None 0 true false false None in
  (∃ w',
     timerHandler.timer_start socketUser taskId w
     = (Ok (timerHandler.Started oid (Task._id task) socketUser now), w')
     ∧ timers (store w') = timers (store w) ++ [timer]
     ∧ tasks (store w') = replace_doc Task._id (counted_task task) (tasks (store w))
     ∧ users (store w') = users (store w)
     ∧ groups (store w') = groups (store w)
     ∧ Redis.data (redis w')
       = <[timer_key socketUser taskId := Redis.mkEntry (VTimerId oid) None]>
           (Redis.data (redis w)))
  ∧ (may_access (store w) task socketUser = false
     ∨ List.find (active_of socketUser) (timers (store w)) ≠ None →
     ∃ e, timerService.startTimer taskId socketUser w = (Throw e, w) ∧ start_rejection e).
Proof.
  intros Htask Hs1 Hs2 Hfresh Hready Hout now oid timer.
  split; [|by apply startTimer_rejects].
  unfold timerHandler.timer_start, try_catch.
  rewrite bind_run, Task_findById_run, Htask. lazy beta iota.
  rewrite !bool_decide_eq_false_2 by done. cbn [orb].
  unfold Timer_insert, newDate, newObjectId, taskSchema.startTimer, Task_save, put_store,
    getRedisClient, redis_set, redis_command, logger. run.
  rewrite bool_decide_eq_false_2 by done. simpl.
  rewrite Hready. simpl. rewrite Hout. simpl.
  eexists. split; [reflexivity|]. done.
Qed.

Lemma socket_start_unchecked_witness :
  (∃ w', timerHandler.timer_start "u1" "t2" Demo.w_running
         = (Ok (timerHandler.Started "timer1" "t2" "u1" 1000000), w'))
  ∧ ∃ e, timerService.startTimer "t2" "u1" Demo.w_running = (Throw e, Demo.w_running).
Proof.
  destruct (socket_start_unchecked "u1" "t2" Demo.w_running Demo.task2 eq_refl
              ltac:(done) ltac:(done)) as [(w' & Hrun & _) Hservice].
  - apply (bool_decide_unpack _). by vm_compute.
  - reflexivity.
  - reflexivity.
  - destruct Hservice as (e & He & _); [by right|].
    split; [exists w'; exact Hrun|exists e; exact He].
Defined.

(** X21. When Redis rejects the [set] of the 'timer:start' event, the
    client is told "Failed to start timer" although the active timer has
    been stored and counted on the task; the index has no entry for it and
    the failure is logged. *)
Theorem socket_start_index_failure (socketUser taskId : Id) (w : World) (task : Task.t) :
  List.find (λ t, bool_decide (Task._id t = taskId)) (tasks (store w)) = Some task →
  Task.status task ≠ completed → Task.status task ≠ cancelled →
  oids w (minted w) ∉ (Timer._id <$> timers (store w)) →
  Redis.ready (redis w) = true →
  Redis.outage (redis w) (Redis.sent (redis w)) = true →
  let timer :=
    Timer.mk (oids w (minted w)) taskId socketUser (Task.group task) (clock w (tick w))
             None 0 true false false None in
  ∃ w',
    timerHandler.timer_start socketUser taskId w
    = (Ok (timerHandler.Failure "Failed to start timer"), w')
    ∧ timers (store w') = timers (store w) ++ [timer]
    ∧ tasks (store w') = replace_doc Task._id (counted_task task) (tasks (store w))
    ∧ Redis.data (redis w') = Redis.data (redis w)
    ∧ logs w' = logs w ++ [(error, "Error starting timer:")].
Proof.
  intros Htask Hs1 Hs2 Hfresh Hready Hout timer.
  unfold timerHandler.timer_start, try_catch.
  rewrite bind_run, Task_findById_run, Htask. lazy beta iota.
  rewrite !bool_decide_eq_false_2 by done. cbn [orb].
  unfold Timer_insert, newDate, newObjectId, taskSchema.startTimer, Task_save, put_store,
    getRedisClient, redis_set, redis_command, logger. run.
  rewrite bool_decide_eq_false_2 by done. simpl.
  rewrite Hready. simpl. rewrite Hout. simpl.
  eexists. split; [reflexivity|]. done.
Qed.

Lemma socket_start_index_failure_witness :
  ∃ w', timerHandler.timer_start "u1" "t1" Demo.w_down
        = (Ok (timerHandler.Failure "Failed to start timer"), w')
        ∧ length (timers (store w')) = 1%nat.
Proof.
  destruct (socket_start_index_failure "u1" "t1" Demo.w_down Demo.task1 eq_refl
              ltac:(done) ltac:(done)) as (w' & Hrun & Htimers & _).
  - apply (bool_decide_unpack _). by vm_compute.
  - reflexivity.
  - reflexivity.
  - exists w'. split; [exact Hrun|]. by rewrite Htimers.
Defined.

(** X22. The 'timer:complete' event finds the timer through the Redis
    index only: without a live entry under the key of the user and the task
    it answers "No active timer found for this task" and writes nothing,
    whatever timers the store holds. *)
Theorem socket_complete_needs_index (socketUser : User.t) (taskId : Id) (notes : string)
    (w : World) :
  Redis.ready (redis w) = true →
  Redis.outage (redis w) (Redis.sent (redis w)) = false →
  visible (clock w (tick w)) (Redis.data (redis w)) (timer_key (User._id socketUser) taskId)
  = None →
  ∃ w',
    timerHandler.timer_complete socketUser taskId notes w
    = (Ok (timerHandler.Failure "No active timer found for this task"), w')
    ∧ store w' = store w
    ∧ Redis.data (redis w') = Redis.data (redis w)
    ∧ logs w' = logs w.
Proof.
  intros Hready Hout Hkey.
  unfold timerHandler.timer_complete, try_catch, getRedisClient, redis_get, redis_command.
  run. rewrite Hready. simpl. rewrite Hout. simpl. rewrite Hkey. simpl.
  eexists. split; [reflexivity|]. done.
Qed.

Lemma socket_complete_needs_index_witness :
  ∃ w', timerHandler.timer_complete Demo.user1 "t1" "done" Demo.w_running
        = (Ok (timerHandler.Failure "No active timer found for this task"), w')
        ∧ timers (store w') = [Demo.running].
Proof.
  destruct (socket_complete_needs_index Demo.user1 "t1" "done" Demo.w_running
              eq_refl eq_refl eq_refl) as (w' & Hrun & Hstore & _).
  exists w'. split; [exact Hrun|]. by rewrite Hstore.
Defined.

(** * The range of the user statistics *)

Lemma updateStats_at_range (now : Z) (u : User.t) (taskTime : Z) (cot : bool) :
  stats_in_range u → stats_in_range (userSchema.updateStats_at now u taskTime cot).
Proof.
  intros [Hn Hr]. unfold stats_in_range, userSchema.updateStats_at.
  cbn [User.tasksCompleted User.taskCompletionRate].
  split; [lia|].
  destruct (rate_close (User.taskCompletionRate u) (User.tasksCompleted u + 1) cot
              ltac:(lia) Hr) as [[Hk0 Hk1] _].
  set (k := Math_round _) in *. clearbody k. unfold fdiv.
  rewrite Zle_Qle in Hk0, Hk1.
  change (inject_Z 0) with 0%Q in Hk0. change (inject_Z 10000) with 10000%Q in Hk1.
  split.
  - apply fl_nonneg. unfold Qdiv. change (/ 100)%Q with (1 # 100)%Q. lra.
  - change (100%Q) with (fl 100) at 2. apply fl_mono.
    unfold Qdiv. change (/ 100)%Q with (1 # 100)%Q. lra.
Qed.

Lemma elem_of_write_stats (d u : User.t) (l : list User.t) :
  u ∈ write_stats d l →
  u ∈ l
  ∨ User.tasksCompleted u = User.tasksCompleted d
    ∧ User.taskCompletionRate u = User.taskCompletionRate d.
Proof.
  unfold write_stats. intros (x & -> & Hx)%list_elem_of_fmap.
  case_bool_decide; [by right|by left].
Qed.

Lemma completeTimer_users (userId : Id) (notes : string) (w : World) :
  let s := store w in
  let s' := store (timerService.completeTimer userId notes w).2 in
  users s' = users s
  ∨ ∃ user now d cot,
      user ∈ users s
      ∧ users s' = write_stats (userSchema.updateStats_at now user d cot) (users s).
Proof.
  cbv zeta. unfold timerService.completeTimer.
  step_with Timer_findOne_run.
  destruct (List.find (active_of userId) _) as [t0|] eqn:Hact; [|by left].
  step_with Task_findById_run.
  destruct (List.find _ (tasks _)) as [task|] eqn:Htask; [|by left].
  destruct (le_lt_dec (String.length notes) 500) as [Hlen|Hlen].
  2:{ rewrite bind_run, complete_rejects by lia. by left. }
  unfold timerSchema.complete, timerSchema.calculateDuration, taskSchema.markAsCompleted,
    userSchema.updateStats, User_findById, Group_findById, groupSchema.updateStats, newDate,
    Timer_save, Task_save, User_save_stats, Group_save, put_store, Task_findById,
    getRedisClient, redis_del, redis_command, logger.
  rewrite bool_decide_eq_false_2 by lia. run.
  destruct (List.find _ (users _)) as [user|] eqn:Huser; simpl; [|by left].
  apply find_elem in Huser as [Hin _].
  right. exists user.
  destruct (Task.group _) as [g|]; simpl;
    [destruct (List.find _ (groups _)) as [group|]; simpl|];
    destruct (Redis.ready (redis w)); simpl; try destruct (Redis.outage _ _); simpl;
    (eexists _, _, _; split; [exact Hin|reflexivity]).
Qed.

Lemma service_users_in_range (r : Request) (w : World) :
  is_service r = true → users_in_range w → users_in_range (exec r w).
Proof.
  intros Hr Hok. destruct r; try discriminate Hr; simpl.
  - destruct (startTimer_store taskId userId w)
      as [Heq|(task & oid & now & _ & _ & _ & Hus & _)]; cbv zeta in *.
    + unfold users_in_range. by rewrite Heq.
    + unfold users_in_range. by rewrite Hus.
  - destruct (completeTimer_users userId notes w)
      as [Heq|(user & now & d & cot & Hin & Hus)]; cbv zeta in *.
    + unfold users_in_range. by rewrite Heq.
    + intros u Hu. rewrite Hus in Hu.
      apply elem_of_write_stats in Hu as [Hu|[Hc Hrate]]; [by apply Hok|].
      unfold stats_in_range. rewrite Hc, Hrate.
      by apply updateStats_at_range, Hok.
  - destruct (getActiveTimer_reads userId w) as [Hs _]. unfold users_in_range. by rewrite Hs.
  - by rewrite listTaskTimers_reads.
Qed.

(** X23. The timer service keeps the user statistics in range: when every
    stored user has [tasksCompleted >= 0] and a [taskCompletionRate]
    between 0 and 100, the same holds after any sequence of service
    requests; the rounding of [updateStats] never leaves the range. *)
Theorem service_keeps_rates_in_range (rs : list Request) (w : World) :
  Forall (λ r, is_service r = true) rs →
  users_in_range w →
  users_in_range (exec_all rs w).
Proof.
  intros Hrs. revert w. induction Hrs as [|r rs Hr _ IH]; intros w Hok; simpl; [done|].
  by apply IH, service_users_in_range.
Qed.

Lemma service_keeps_rates_in_range_witness :
  users_in_range (exec_all [StartTimer "t1" "u1"; CompleteTimer "u1" ""] Demo.w0).
Proof.
  apply service_keeps_rates_in_range.
  - repeat constructor.
  - intros u Hu. simpl in Hu.
    apply elem_of_cons in Hu as [->|Hu]; [by vm_compute|].
    apply list_elem_of_singleton in Hu as ->. by vm_compute.
Defined.

(** * The socket's view of the active timer *)

(** X24. The 'timer:get:active' event answers with exactly the view
    [getActiveTimer] of the service returns for the socket's user, and
    leaves the same world: the two implementations agree. It never answers
    with a failure. *)
Theorem socket_get_active_agrees (socketUser : Id) (w : World) :
  ∃ v w',
    timerService.getActiveTimer socketUser w = (Ok v, w')
    ∧ timerHandler_active.timer_get_active socketUser w
      = (Ok (timerHandler_active.Active v), w').
Proof.
  unfold timerHandler_active.timer_get_active, timerService.getActiveTimer, try_catch,
    Timer_findOne, Task_findById, timerSchema.calculateDuration, newDate. run.
  destruct (List.find (active_of socketUser) _) as [t|]; simpl; [|by eexists _, _].
  destruct (Timer.endTime t); simpl; by eexists _, _.
Qed.

(** * Deleting tasks *)

Lemma deleteTask_store (taskId userId : Id) (w : World) :
  let s := store w in
  let s' := store (taskService.deleteTask taskId userId w).2 in
  s' = s
  ∨ ∃ task,
      List.find (λ t, bool_decide (Task._id t = taskId)) (tasks s) = Some task
      ∧ Task.activeTimers task ≤ 0
      ∧ timers s' = timers s
      ∧ tasks s'
        = List.filter (λ t, negb (bool_decide (Task._id t = Task._id task))) (tasks s)
      ∧ users s' = users s.
Proof.
  cbv zeta. unfold taskService.deleteTask.
  step_with Task_findById_run.
  destruct (List.find _ (tasks _)) as [task|] eqn:Htask; [|by left].
  unfold Group_findById, Group_save, Task_deleteOne, put_store, logger. run.
  destruct (Task.group task) as [g|]; simpl.
  - destruct (bool_decide (Task.creator task = userId)); simpl.
    + case_bool_decide; simpl; [by left|].
      right. exists task. split; [done|]. split; [lia|].
      by destruct (List.find _ (groups _)).
    + destruct (List.find _ (groups _)) as [group|]; simpl; [|by left].
      destruct (includes _ _); simpl; [|by left].
      case_bool_decide; simpl; [by left|].
      right. exists task. split; [done|]. split; [lia|].
      by destruct (List.find _ (groups _)).
  - destruct (bool_decide (Task.creator task = userId)); simpl; [|by left].
    case_bool_decide; simpl; [by left|].
    right. exists task. split; [done|]. split; [lia|]. done.
Qed.

Lemma active_on_pos (k : Id) (l : list Timer.t) (t : Timer.t) :
  t ∈ l → Timer.task t = k → Timer.isActive t = true → (1 ≤ active_on k l)%nat.
Proof.
  intros Hin Hk Ha. unfold active_on.
  assert (Hf : t ∈ List.filter (λ t, bool_decide (Timer.task t = k) && Timer.isActive t) l).
  { apply list_elem_of_In, List.filter_In. split; [by apply list_elem_of_In|].
    by rewrite bool_decide_eq_true_2, Ha. }
  destruct (List.filter _ l); [by apply elem_of_nil in Hf|simpl; lia].
Qed.

Lemma deleteTask_safe (taskId userId : Id) (w : World) :
  counters_ok w → no_orphans w →
  let w' := (taskService.deleteTask taskId userId w).2 in
  counters_ok w' ∧ no_orphans w'.
Proof.
  intros Hc Ho. cbv zeta.
  destruct (deleteTask_store taskId userId w)
    as [Heq|(task & Htask & Hzero & Htm & Htk & _)]; cbv zeta in *.
  { unfold counters_ok, no_orphans. by rewrite Heq. }
  apply find_elem in Htask as [Hin _].
  split.
  - intros x Hx. rewrite Htk in Hx. rewrite Htm.
    apply list_elem_of_In, List.filter_In in Hx as [Hx _].
    by apply Hc, list_elem_of_In.
  - intros t Ht Ha. rewrite Htm in Ht.
    destruct (Ho t Ht Ha) as (x & Hx & Hid).
    exists x. split; [|done]. rewrite Htk.
    apply list_elem_of_In, List.filter_In. split; [by apply list_elem_of_In|].
    apply negb_true_iff, bool_decide_eq_false_2. intros Heq.
    pose proof (active_on_pos (Task._id task) _ t Ht ltac:(congruence) Ha).
    pose proof (Hc task Hin). lia.
Qed.

Lemma deleteTask_unique (taskId userId : Id) (w : World) :
  UniqueTimerIds w → UniqueTimerIds (taskService.deleteTask taskId userId w).2.
Proof.
  intros Hu.
  destruct (deleteTask_store taskId userId w) as [Heq|(task & _ & _ & Htm & _)];
    cbv zeta in *; unfold UniqueTimerIds.
  - by rewrite Heq.
  - by rewrite Htm.
Qed.

(** X25. [deleteTask] never orphans an active timer: where every task's
    [activeTimers] counter is the number of its active timers and every
    active timer runs on a stored task, both still hold after [deleteTask],
    whoever calls it and whether it returns or throws. The guard "Cannot
    delete a task with active timers" reads the counter, so it is as good as
    the counter is. *)
Theorem deleteTask_keeps_no_orphans (taskId userId : Id) (w : World) :
  counters_ok w → no_orphans w →
  let w' := (taskService.deleteTask taskId userId w).2 in
  counters_ok w' ∧ no_orphans w'.
Proof. apply deleteTask_safe. Qed.

Lemma deleteTask_keeps_no_orphans_witness :
  let w' := (taskService.deleteTask "t2" "u0" Demo.w0).2 in
  counters_ok w' ∧ no_orphans w' ∧ tasks (store w') = [Demo.task1].
Proof.
  destruct (deleteTask_keeps_no_orphans "t2" "u0" Demo.w0) as [Hc Ho].
  - intros task Htask. simpl in Htask.
    apply elem_of_cons in Htask as [->|Htask]; [done|].
    apply list_elem_of_singleton in Htask as ->. done.
  - intros t Ht. by apply elem_of_nil in Ht.
  - split; [exact Hc|]. split; [exact Ho|]. by vm_compute.
Defined.

Lemma replace_doc_keeps_ids {A} (key : A → Id) (d x : A) (l : list A) :
  x ∈ l → ∃ x', x' ∈ replace_doc key d l ∧ key x' = key x.
Proof.
  intros Hx. exists (if bool_decide (key x = key d) then d else x). split.
  - unfold replace_doc. apply list_elem_of_fmap. by exists x.
  - by case_bool_decide.
Qed.

Lemma service_no_orphans (r : Request) (w : World) :
  is_service r = true → no_orphans w → no_orphans (exec r w).
Proof.
  intros Hr Ho. destruct r; try discriminate Hr; simpl.
  - destruct (startTimer_store taskId userId w)
      as [Heq|(task & oid & now & Htask & Htm & Htk & _)]; cbv zeta in *.
    { unfold no_orphans. by rewrite Heq. }
    apply find_elem in Htask as [Hin Hid]. apply bool_decide_eq_true_1 in Hid.
    intros t Ht Ha. rewrite Htm in Ht. rewrite Htk.
    apply elem_of_app in Ht as [Ht|Ht].
    + destruct (Ho t Ht Ha) as (x & Hx & Hxid).
      destruct (replace_doc_keeps_ids Task._id (started_task task userId) x _ Hx)
        as (x' & Hx' & Hid').
      exists x'. split; [done|congruence].
    + apply list_elem_of_singleton in Ht as ->. simpl.
      destruct (replace_doc_keeps_ids Task._id (started_task task userId) task _ Hin)
        as (x' & Hx' & Hid').
      exists x'. split; [done|congruence].
  - destruct (completeTimer_store userId notes w)
      as [Heq|(t0 & task & t' & now & d & _ & _ & _ & _ & Hina & Htm & Htk)];
      cbv zeta in *.
    { unfold no_orphans. by rewrite Heq. }
    intros t Ht Ha. rewrite Htm in Ht. rewrite Htk.
    apply elem_of_replace_doc in Ht as [->|[Ht _]]; [congruence|].
    destruct (Ho t Ht Ha) as (x & Hx & Hxid).
    destruct (replace_doc_keeps_ids Task._id
                (taskSchema.markAsCompleted_at now task userId d) x _ Hx)
      as (x' & Hx' & Hid').
    exists x'. split; [done|congruence].
  - destruct (getActiveTimer_reads userId w) as [Hs _]. unfold no_orphans. by rewrite Hs.
  - by rewrite listTaskTimers_reads.
Qed.

(** X26. Served one request at a time, the timer service and [deleteTask]
    leave no active timer without its task: from a state with unique timer
    ids, exact [activeTimers] counters and every active timer on a stored
    task, every sequence of service requests and task deletions in which
    each request ends before the next begins ([run_ops]) leads to such a
    state again. The state in which an orphaned timer blocks its user is not
    reached this way. Requests that overlap at an [await] are not
    covered. *)
Theorem service_never_orphans (os : list Op) (w : World) :
  Forall (λ o, is_service_op o = true) os →
  UniqueTimerIds w → counters_ok w → no_orphans w →
  counters_ok (run_ops os w) ∧ no_orphans (run_ops os w).
Proof.
  intros Hos. revert w.
  induction Hos as [|o os Ho _ IH]; intros w Hu Hc Hn; simpl; [done|].
  destruct o as [r|taskId userId]; simpl in *.
  - apply IH; [by apply exec_unique|by apply service_counters|by apply service_no_orphans].
  - destruct (deleteTask_safe taskId userId w Hc Hn) as [Hc' Hn'].
    apply IH; [by apply deleteTask_unique|done|done].
Qed.

Lemma service_never_orphans_witness :
  no_orphans (run_ops [TimerRequest (StartTimer "t1" "u1"); DeleteTask "t1" "u0";
                       TimerRequest (CompleteTimer "u1" ""); DeleteTask "t1" "u0"]
                      Demo.w0)
  ∧ tasks (store (run_ops [TimerRequest (StartTimer "t1" "u1"); DeleteTask "t1" "u0"]
                          Demo.w0)) !! 0%nat
    = Some (started_task Demo.task1 "u1").
Proof.
  split; [|by vm_compute].
  apply service_never_orphans.
  - repeat constructor.
  - constructor.
  - intros task Htask. simpl in Htask.
    apply elem_of_cons in Htask as [->|Htask]; [done|].
    apply list_elem_of_singleton in Htask as ->. done.
  - intros t Ht. by apply elem_of_nil in Ht.
Defined.


(** * Requests that overlap *)

Lemma startTimer_cut (taskId userId : Id) (w : World) :
  timerService.startTimer taskId userId w
  = (loaded ← Overlap.startTimer_checks taskId userId;
     Overlap.startTimer_stores taskId userId loaded) w.
Proof.
  unfold timerService.startTimer, Overlap.startTimer_checks, Overlap.startTimer_stores.
  rewrite !bind_run.
  destruct (Timer_findOne (active_of userId) w) as [[[t|]|e] w1]; try reflexivity.
  rewrite !bind_run.
  destruct (Task_findById taskId w1) as [[[task|]|e] w2]; try reflexivity.
  destruct (bool_decide (Task.status task = completed)
            || bool_decide (Task.status task = cancelled)); [reflexivity|].
  rewrite !bind_run.
  destruct (timerService.hasAccess task userId w2) as [[[|]|e] w3]; reflexivity.
Qed.

(** X27. Two [startTimer] requests that overlap are not served as one after
    the other. User [u1], an assignee of task [t1] without a timer, sends
    the request twice, and the second runs its checks while the first awaits
    its last read. Both requests return. The store then holds two active
    timers of [u1] on [t1], and [activeTimers] of [t1] is 1, because each
    request saved the counter it had loaded plus one: the counter is no
    longer exact. Served one at a time, the second request is refused and
    one active timer is stored. After the overlap, [u1] completes a timer,
    which takes the counter to 0, the creator deletes the task, which the
    guard of [deleteTask] allows, and the second timer is left as the active
    timer of [u1], on a task that is not stored. *)
Theorem overlapping_starts_lose_count :
  let w := Overlap.w_assigned in
  (UniqueTimerIds w ∧ counters_ok w ∧ no_orphans w)
  ∧ length (activeTimers "u1"
              (exec_all [StartTimer "t1" "u1"; StartTimer "t1" "u1"] w)) = 1%nat
  ∧ ∃ started1 started2 w1,
      Overlap.both_start "t1" "u1" "t1" "u1" w = (Ok (started1, started2), w1)
      ∧ length (activeTimers "u1" w1) = 2%nat
      ∧ Task.activeTimers <$> List.find (λ t, bool_decide (Task._id t = "t1"))
                                        (tasks (store w1)) = Some 1
      ∧ ¬ counters_ok w1
      ∧ let w2 := run_ops [TimerRequest (CompleteTimer "u1" ""); DeleteTask "t1" "u0"] w1 in
        activeTimers "u1" w2 = [Overlap.second_timer]
        ∧ List.find (λ t, bool_decide (Task._id t = "t1")) (tasks (store w2)) = None
        ∧ ¬ no_orphans w2.
Proof.
  cbv zeta. split; [|split].
  - split; [|split].
    + apply (bool_decide_unpack _). by vm_compute.
    + intros task Ht. unfold Overlap.w_assigned in Ht. simpl in Ht.
      apply elem_of_cons in Ht as [->|Ht]; [reflexivity|].
      apply list_elem_of_singleton in Ht as ->. reflexivity.
    + intros t Ht. unfold Overlap.w_assigned in Ht. simpl in Ht. by apply elem_of_nil in Ht.
  - by vm_compute.
  - destruct (Overlap.both_start "t1" "u1" "t1" "u1" Overlap.w_assigned)
      as [[[started1 started2]|e] w1] eqn:E; vm_compute in E; [|discriminate E].
    exists started1, started2, w1. split; [reflexivity|].
    injection E as _ _ <-.
    split; [by vm_compute|]. split; [by vm_compute|]. split.
    + intros H. specialize (H (counted_task Overlap.task_assigned)).
      simpl in H. specialize (H ltac:(left)). vm_compute in H. discriminate H.
    + split; [|split].
      * by vm_compute.
      * by vm_compute.
      * intros H. destruct (H Overlap.second_timer) as (task & Hin & Hid).
        -- apply (list_elem_of_lookup_2 _ 1%nat). by vm_compute.
        -- reflexivity.
        -- vm_compute in Hin. apply list_elem_of_singleton in Hin as ->.
           discriminate Hid.
Qed.
